(** * DDR5/LPDDR5 power tool: bank state machine, energy accounting, driver

    A shallow embedding of [ddr5_power_tool/state_machine.py],
    [ddr5_power_tool/power_calculator.py] and [ddr5_power_tool/simulator.py],
    with the data types of [spec_parser.py] and [workload_parser.py].

    Conventions of the embedding.
    - Python [float] quantities (currents, voltages, times, energies) are
      exact rationals [Q]: the arithmetic is the one the code writes, without
      rounding, NaN or infinities.  Python [int] is [Z].  The two float
      operations of the code that raise on overflow ([int] to [float], and
      [**]) raise here when the exact value leaves the finite range.
    - Objects mutated in place become explicit state: every method takes the
      object's state and returns the new one.
    - A Python exception is a value [Raise e] of the result type [res].
    - Error texts are structured values of type [Message]; the numbers that
      the f-strings interpolate are kept as arguments. *)

From Stdlib Require Import ZArith QArith Qabs Qpower Qfield Lia Lqa List.
From Stdlib Require Import Sorting.Sorted String.
From stdpp Require Import base option list gmap fin_maps.

Local Open Scope Z_scope.

(** ** Numeric helpers: Python comparisons on floats *)

Definition Qltb (x y : Q) : bool := negb (Qle_bool y x).
Definition Qleb (x y : Q) : bool := Qle_bool x y.
(** Truthiness of a float: [0.0] is falsy. *)
Definition Qtruthy (x : Q) : bool := negb (Qeq_bool x 0).

(** ** Exceptions *)

Inductive exn := KeyError | ZeroDivisionError | OverflowError.

Inductive res (A : Type) : Type :=
| Ok (a : A)
| Raise (e : exn).
Arguments Ok {A} a.
Arguments Raise {A} e.

#[global] Instance res_bind : MBind res := fun A B k m =>
  match m with
  | Ok a => k a
  | Raise e => Raise e
  end.

(** ** Float operations that raise [OverflowError]

    Float multiplication, addition and subtraction never raise.  Two
    operations of the code do: the conversion of an [int] operand to [float]
    ([int * float]; int too large to convert to float) and the power operator
    [**] on a float.  Each raises exactly when the value it should return
    rounds to an infinity, that is when the magnitude of the exact value
    reaches [float_limit = 2^1024 - 2^970], halfway between the largest
    finite double and [2^1024]. *)

Definition float_limit : Z := 2 ^ 1024 - 2 ^ 970.
Arguments float_limit : simpl never.

(** [float(n)], as applied to the [int] operand of a float operation. *)
Definition float_of_int (n : Z) : res Q :=
  if float_limit <=? Z.abs n then Raise OverflowError else Ok (inject_Z n).

(** [n * x] for an [int] [n] and a float [x]. *)
Definition int_mul_float (n : Z) (x : Q) : res Q :=
  f ← float_of_int n; Ok (f * x)%Q.

(** [x ** n] for a float [x] and a positive [int] literal [n]. *)
Definition float_pow (x : Q) (n : positive) : res Q :=
  let v := (x ^ Z.pos n)%Q in
  if Qleb (inject_Z float_limit) (Qabs v) then Raise OverflowError else Ok v.

(** The [int] [n] converts to a finite float; the power [x ** n] is one. *)
Definition int_fits (n : Z) : Prop := Z.abs n < float_limit.
Definition pow_fits (x : Q) (n : positive) : Prop :=
  (Qabs (x ^ Z.pos n) < inject_Z float_limit)%Q.

#[global] Instance int_fits_dec (n : Z) : Decision (int_fits n) :=
  Z_lt_dec (Z.abs n) float_limit.

#[global] Instance pow_fits_dec (x : Q) (n : positive)
    : Decision (pow_fits x n) :=
  match Qlt_le_dec (Qabs (x ^ Z.pos n)) (inject_Z float_limit) with
  | left H => left H
  | right H => right (Qle_not_lt _ _ H)
  end.

(** ** workload_parser.py *)

Inductive CommandType :=
| ACT | RD | WR | PRE | PREA | REF | REFPB | PDN | SR | END_OF_SIMULATION.

#[global] Instance CommandType_eq_dec : EqDecision CommandType.
Proof. solve_decision. Defined.

Record Command := {
  timestamp : Z;
  command : CommandType;
  bank : option Z;
  rank : option Z;
  row : option Z;
  column : option Z;
  burst_length : option Z
}.

(** ** spec_parser.py *)

Record MemoryPowerSpec := {
  idd0 : Q; idd2n : Q; idd2p : Q; idd3n : Q; idd3p : Q;
  idd4r : Q; idd4w : Q; idd5b : Q; idd6 : Q;
  vdd : Q; vddq : Q; vddca : Q;
  ipp : Q;
  temperature : Q
}.

(** [trc] is the field after [__post_init__]; [MemoryTimingSpec_init] is the
    dataclass constructor that fills it in. *)
Record MemoryTimingSpec := {
  tck : Q; tras : Q; trp : Q; trcd : Q; trfc : Q;
  trfcpb : option Q;
  trfi : Q; twr : Q; twtr : Q; trrd : Q; tfaw : Q;
  trc : Q;
  txp : Q; txsdr : Q; txsdll : Q
}.

Definition MemoryTimingSpec_init (tck tras trp trcd trfc : Q)
    (trfcpb : option Q) (trfi twr twtr trrd tfaw : Q) (trc : option Q)
    (txp txsdr txsdll : Q) : MemoryTimingSpec :=
  {| tck := tck; tras := tras; trp := trp; trcd := trcd; trfc := trfc;
     trfcpb := trfcpb; trfi := trfi; twr := twr; twtr := twtr; trrd := trrd;
     tfaw := tfaw;
     trc := match trc with Some v => v | None => (tras + trp)%Q end;
     txp := txp; txsdr := txsdr; txsdll := txsdll |}.

Record ArchitectureSpec := {
  nbr_of_ranks : Z;
  nbr_of_banks : Z;
  nbr_of_columns : Z;
  nbr_of_rows : Z;
  width : Z;
  arch_burst_length : Z;
  density : Z;
  refresh_mode : string
}.

Record MemorySpec := {
  power : MemoryPowerSpec;
  timing : MemoryTimingSpec;
  architecture : ArchitectureSpec
}.

(** ** state_machine.py *)

Inductive BankState := IDLE | ACTIVE | ACTIVE_PDN | PRE_PDN | REFRESHING.

Definition BankState_eqb (a b : BankState) : bool :=
  match a, b with
  | IDLE, IDLE | ACTIVE, ACTIVE | ACTIVE_PDN, ACTIVE_PDN
  | PRE_PDN, PRE_PDN | REFRESHING, REFRESHING => true
  | _, _ => false
  end.

Record BankStateInfo := {
  state : BankState;
  open_row : option Z;
  last_activate_time : Q;
  last_precharge_time : Q;
  last_read_time : Q;
  last_write_time : Q;
  last_powerdown_time : Q
}.

Definition BankStateInfo_default : BankStateInfo :=
  {| state := IDLE; open_row := None;
     last_activate_time := 0; last_precharge_time := 0;
     last_read_time := 0; last_write_time := 0; last_powerdown_time := 0 |}.

(** The texts returned by the checkers and the dispatcher.  A violation
    carries the two numbers of its f-string: the elapsed time and the limit. *)
Inductive Message :=
| Bank_already_active
| Bank_is_refreshing
| tRC_violation (elapsed limit : Q)
| Bank_must_be_active_for_read
| Bank_must_be_active_for_write
| tRCD_violation (elapsed limit : Q)
| Bank_already_idle
| tRAS_violation (elapsed limit : Q)
| tWR_violation (elapsed limit : Q)
| tREFI_violation (elapsed limit : Q)
| ACT_command_requires_row
| REFPB_command_requires_bank.

(** *** TimingConstraints *)

Definition can_activate (spec : MemorySpec) (bank_info : BankStateInfo)
    (current_time : Q) : bool * option Message :=
  if BankState_eqb (state bank_info) ACTIVE then (false, Some Bank_already_active)
  else if BankState_eqb (state bank_info) REFRESHING then (false, Some Bank_is_refreshing)
  else
    let time_since_activate := (current_time - last_activate_time bank_info)%Q in
    if Qltb 0 (last_activate_time bank_info)
       && Qltb time_since_activate (trc (timing spec))
    then (false, Some (tRC_violation time_since_activate (trc (timing spec))))
    else (true, None).

Definition can_read (spec : MemorySpec) (bank_info : BankStateInfo)
    (current_time : Q) : bool * option Message :=
  if negb (BankState_eqb (state bank_info) ACTIVE)
  then (false, Some Bank_must_be_active_for_read)
  else
    let time_since_activate := (current_time - last_activate_time bank_info)%Q in
    if Qltb time_since_activate (trcd (timing spec))
    then (false, Some (tRCD_violation time_since_activate (trcd (timing spec))))
    else (true, None).

Definition can_write (spec : MemorySpec) (bank_info : BankStateInfo)
    (current_time : Q) : bool * option Message :=
  if negb (BankState_eqb (state bank_info) ACTIVE)
  then (false, Some Bank_must_be_active_for_write)
  else
    let time_since_activate := (current_time - last_activate_time bank_info)%Q in
    if Qltb time_since_activate (trcd (timing spec))
    then (false, Some (tRCD_violation time_since_activate (trcd (timing spec))))
    else (true, None).

Definition can_precharge (spec : MemorySpec) (bank_info : BankStateInfo)
    (current_time : Q) : bool * option Message :=
  if BankState_eqb (state bank_info) IDLE then (false, Some Bank_already_idle)
  else if BankState_eqb (state bank_info) REFRESHING then (false, Some Bank_is_refreshing)
  else
    let time_since_activate := (current_time - last_activate_time bank_info)%Q in
    if BankState_eqb (state bank_info) ACTIVE
       && Qleb 0 (last_activate_time bank_info)
       && Qltb time_since_activate (tras (timing spec))
    then (false, Some (tRAS_violation time_since_activate (tras (timing spec))))
    else
      let time_since_write := (current_time - last_write_time bank_info)%Q in
      if Qltb 0 (last_write_time bank_info)
         && Qltb time_since_write (twr (timing spec))
      then (false, Some (tWR_violation time_since_write (twr (timing spec))))
      else (true, None).

Definition can_refresh (spec : MemorySpec) (current_time last_refresh_time : Q)
    : bool * option Message :=
  let time_since_refresh := (current_time - last_refresh_time)%Q in
  if Qltb time_since_refresh (trfi (timing spec))
  then (false, Some (tREFI_violation time_since_refresh (trfi (timing spec))))
  else (true, None).

(** *** DRAMStateMachine

    [spec] and [constraints] never change after construction; they are the
    [spec] argument of every method. *)
Record DRAMStateMachine := {
  banks : gmap (Z * Z) BankStateInfo;
  last_refresh_time : Q;
  current_time : Q
}.

(** Python's [range(n)]: empty when [n <= 0]. *)
Definition range (n : Z) : list Z := seqZ 0 n.

Definition DRAMStateMachine_init (spec : MemorySpec) : DRAMStateMachine :=
  {| banks :=
       foldl (fun m rank =>
                foldl (fun m bank => <[(rank, bank) := BankStateInfo_default]> m)
                      m (range (nbr_of_banks (architecture spec))))
             ∅ (range (nbr_of_ranks (architecture spec)));
     last_refresh_time := - (1000000000);
     current_time := 0 |}.

(** [self.banks[(rank, bank)]] raises [KeyError] on a missing key. *)
Definition get_bank_info (sm : DRAMStateMachine) (rank bank : Z)
    : res BankStateInfo :=
  match banks sm !! (rank, bank) with
  | Some bank_info => Ok bank_info
  | None => Raise KeyError
  end.

Definition update_time (time_ns : Q) (sm : DRAMStateMachine) : DRAMStateMachine :=
  {| banks := banks sm;
     last_refresh_time := last_refresh_time sm;
     current_time := time_ns |}.

(** Writing back a bank record that the method mutated in place. *)
Definition set_bank (sm : DRAMStateMachine) (rank bank : Z)
    (bank_info : BankStateInfo) : DRAMStateMachine :=
  {| banks := <[(rank, bank) := bank_info]> (banks sm);
     last_refresh_time := last_refresh_time sm;
     current_time := current_time sm |}.

Definition execute_activate (spec : MemorySpec) (rank bank row : Z)
    (sm : DRAMStateMachine) : res (DRAMStateMachine * (bool * option Message)) :=
  bank_info ← get_bank_info sm rank bank;
  let '(can_execute, error) := can_activate spec bank_info (current_time sm) in
  if negb can_execute then Ok (sm, (false, error))
  else
    Ok (set_bank sm rank bank
          {| state := ACTIVE;
             open_row := Some row;
             last_activate_time := current_time sm;
             last_precharge_time := last_precharge_time bank_info;
             last_read_time := last_read_time bank_info;
             last_write_time := last_write_time bank_info;
             last_powerdown_time := last_powerdown_time bank_info |},
        (true, None)).

Definition execute_read (spec : MemorySpec) (rank bank : Z)
    (sm : DRAMStateMachine) : res (DRAMStateMachine * (bool * option Message)) :=
  bank_info ← get_bank_info sm rank bank;
  let '(can_execute, error) := can_read spec bank_info (current_time sm) in
  if negb can_execute then Ok (sm, (false, error))
  else
    Ok (set_bank sm rank bank
          {| state := state bank_info;
             open_row := open_row bank_info;
             last_activate_time := last_activate_time bank_info;
             last_precharge_time := last_precharge_time bank_info;
             last_read_time := current_time sm;
             last_write_time := last_write_time bank_info;
             last_powerdown_time := last_powerdown_time bank_info |},
        (true, None)).

Definition execute_write (spec : MemorySpec) (rank bank : Z)
    (sm : DRAMStateMachine) : res (DRAMStateMachine * (bool * option Message)) :=
  bank_info ← get_bank_info sm rank bank;
  let '(can_execute, error) := can_write spec bank_info (current_time sm) in
  if negb can_execute then Ok (sm, (false, error))
  else
    Ok (set_bank sm rank bank
          {| state := state bank_info;
             open_row := open_row bank_info;
             last_activate_time := last_activate_time bank_info;
             last_precharge_time := last_precharge_time bank_info;
             last_read_time := last_read_time bank_info;
             last_write_time := current_time sm;
             last_powerdown_time := last_powerdown_time bank_info |},
        (true, None)).

(** The record a successful precharge leaves in the bank. *)
Definition precharged (bank_info : BankStateInfo) (now : Q) : BankStateInfo :=
  {| state := IDLE;
     open_row := None;
     last_activate_time := last_activate_time bank_info;
     last_precharge_time := now;
     last_read_time := last_read_time bank_info;
     last_write_time := last_write_time bank_info;
     last_powerdown_time := last_powerdown_time bank_info |}.

Definition execute_precharge (spec : MemorySpec) (rank bank : Z)
    (sm : DRAMStateMachine) : res (DRAMStateMachine * (bool * option Message)) :=
  bank_info ← get_bank_info sm rank bank;
  let '(can_execute, error) := can_precharge spec bank_info (current_time sm) in
  if negb can_execute then Ok (sm, (false, error))
  else Ok (set_bank sm rank bank (precharged bank_info (current_time sm)),
           (true, None)).

(** First loop of [execute_refresh]: active banks are marked refreshing. *)
Definition mark_refreshing (bank_info : BankStateInfo) : BankStateInfo :=
  if BankState_eqb (state bank_info) ACTIVE then
    {| state := REFRESHING;
       open_row := open_row bank_info;
       last_activate_time := last_activate_time bank_info;
       last_precharge_time := last_precharge_time bank_info;
       last_read_time := last_read_time bank_info;
       last_write_time := last_write_time bank_info;
       last_powerdown_time := last_powerdown_time bank_info |}
  else bank_info.

(** Second loop of [execute_refresh]: refreshing banks return to idle. *)
Definition end_refreshing (bank_info : BankStateInfo) : BankStateInfo :=
  if BankState_eqb (state bank_info) REFRESHING then
    {| state := IDLE;
       open_row := None;
       last_activate_time := last_activate_time bank_info;
       last_precharge_time := last_precharge_time bank_info;
       last_read_time := last_read_time bank_info;
       last_write_time := last_write_time bank_info;
       last_powerdown_time := last_powerdown_time bank_info |}
  else bank_info.

Definition execute_refresh (spec : MemorySpec) (sm : DRAMStateMachine)
    : res (DRAMStateMachine * (bool * option Message)) :=
  let '(can_execute, error) :=
    can_refresh spec (current_time sm) (last_refresh_time sm) in
  if negb can_execute then Ok (sm, (false, error))
  else
    let banks1 := mark_refreshing <$> banks sm in
    let banks2 := end_refreshing <$> banks1 in
    Ok ({| banks := banks2;
           last_refresh_time := current_time sm;
           current_time := current_time sm |},
        (true, None)).

(** ** power_calculator.py *)

Record PowerResult := {
  core_energy : Q;
  interface_energy : Q;
  total_energy : Q;
  average_power : Q;
  simulation_time : Q;
  activation_energy : Q;
  read_energy : Q;
  write_energy : Q;
  precharge_energy : Q;
  refresh_energy : Q;
  background_active_energy : Q;
  background_precharge_energy : Q;
  powerdown_energy : Q;
  termination_energy : Q;
  dynamic_io_energy : Q
}.

Definition PowerResult_default : PowerResult :=
  {| core_energy := 0; interface_energy := 0; total_energy := 0;
     average_power := 0; simulation_time := 0;
     activation_energy := 0; read_energy := 0; write_energy := 0;
     precharge_energy := 0; refresh_energy := 0;
     background_active_energy := 0; background_precharge_energy := 0;
     powerdown_energy := 0; termination_energy := 0; dynamic_io_energy := 0 |}.

(** Assignments to the fields of a [PowerResult]: each function is one
    assignment [result.field = v] of the code. *)
Definition set_core_energy (v : Q) (r : PowerResult) : PowerResult :=
  {| core_energy := v; interface_energy := interface_energy r;
     total_energy := total_energy r; average_power := average_power r;
     simulation_time := simulation_time r;
     activation_energy := activation_energy r; read_energy := read_energy r;
     write_energy := write_energy r; precharge_energy := precharge_energy r;
     refresh_energy := refresh_energy r;
     background_active_energy := background_active_energy r;
     background_precharge_energy := background_precharge_energy r;
     powerdown_energy := powerdown_energy r;
     termination_energy := termination_energy r;
     dynamic_io_energy := dynamic_io_energy r |}.

Definition set_interface_energy (v : Q) (r : PowerResult) : PowerResult :=
  {| core_energy := core_energy r; interface_energy := v;
     total_energy := total_energy r; average_power := average_power r;
     simulation_time := simulation_time r;
     activation_energy := activation_energy r; read_energy := read_energy r;
     write_energy := write_energy r; precharge_energy := precharge_energy r;
     refresh_energy := refresh_energy r;
     background_active_energy := background_active_energy r;
     background_precharge_energy := background_precharge_energy r;
     powerdown_energy := powerdown_energy r;
     termination_energy := termination_energy r;
     dynamic_io_energy := dynamic_io_energy r |}.

Definition set_total_energy (v : Q) (r : PowerResult) : PowerResult :=
  {| core_energy := core_energy r; interface_energy := interface_energy r;
     total_energy := v; average_power := average_power r;
     simulation_time := simulation_time r;
     activation_energy := activation_energy r; read_energy := read_energy r;
     write_energy := write_energy r; precharge_energy := precharge_energy r;
     refresh_energy := refresh_energy r;
     background_active_energy := background_active_energy r;
     background_precharge_energy := background_precharge_energy r;
     powerdown_energy := powerdown_energy r;
     termination_energy := termination_energy r;
     dynamic_io_energy := dynamic_io_energy r |}.

Definition set_average_power (v : Q) (r : PowerResult) : PowerResult :=
  {| core_energy := core_energy r; interface_energy := interface_energy r;
     total_energy := total_energy r; average_power := v;
     simulation_time := simulation_time r;
     activation_energy := activation_energy r; read_energy := read_energy r;
     write_energy := write_energy r; precharge_energy := precharge_energy r;
     refresh_energy := refresh_energy r;
     background_active_energy := background_active_energy r;
     background_precharge_energy := background_precharge_energy r;
     powerdown_energy := powerdown_energy r;
     termination_energy := termination_energy r;
     dynamic_io_energy := dynamic_io_energy r |}.

Definition set_simulation_time (v : Q) (r : PowerResult) : PowerResult :=
  {| core_energy := core_energy r; interface_energy := interface_energy r;
     total_energy := total_energy r; average_power := average_power r;
     simulation_time := v;
     activation_energy := activation_energy r; read_energy := read_energy r;
     write_energy := write_energy r; precharge_energy := precharge_energy r;
     refresh_energy := refresh_energy r;
     background_active_energy := background_active_energy r;
     background_precharge_energy := background_precharge_energy r;
     powerdown_energy := powerdown_energy r;
     termination_energy := termination_energy r;
     dynamic_io_energy := dynamic_io_energy r |}.

Definition set_activation_energy (v : Q) (r : PowerResult) : PowerResult :=
  {| core_energy := core_energy r; interface_energy := interface_energy r;
     total_energy := total_energy r; average_power := average_power r;
     simulation_time := simulation_time r;
     activation_energy := v; read_energy := read_energy r;
     write_energy := write_energy r; precharge_energy := precharge_energy r;
     refresh_energy := refresh_energy r;
     background_active_energy := background_active_energy r;
     background_precharge_energy := background_precharge_energy r;
     powerdown_energy := powerdown_energy r;
     termination_energy := termination_energy r;
     dynamic_io_energy := dynamic_io_energy r |}.

Definition set_read_energy (v : Q) (r : PowerResult) : PowerResult :=
  {| core_energy := core_energy r; interface_energy := interface_energy r;
     total_energy := total_energy r; average_power := average_power r;
     simulation_time := simulation_time r;
     activation_energy := activation_energy r; read_energy := v;
     write_energy := write_energy r; precharge_energy := precharge_energy r;
     refresh_energy := refresh_energy r;
     background_active_energy := background_active_energy r;
     background_precharge_energy := background_precharge_energy r;
     powerdown_energy := powerdown_energy r;
     termination_energy := termination_energy r;
     dynamic_io_energy := dynamic_io_energy r |}.

Definition set_write_energy (v : Q) (r : PowerResult) : PowerResult :=
  {| core_energy := core_energy r; interface_energy := interface_energy r;
     total_energy := total_energy r; average_power := average_power r;
     simulation_time := simulation_time r;
     activation_energy := activation_energy r; read_energy := read_energy r;
     write_energy := v; precharge_energy := precharge_energy r;
     refresh_energy := refresh_energy r;
     background_active_energy := background_active_energy r;
     background_precharge_energy := background_precharge_energy r;
     powerdown_energy := powerdown_energy r;
     termination_energy := termination_energy r;
     dynamic_io_energy := dynamic_io_energy r |}.

Definition set_precharge_energy (v : Q) (r : PowerResult) : PowerResult :=
  {| core_energy := core_energy r; interface_energy := interface_energy r;
     total_energy := total_energy r; average_power := average_power r;
     simulation_time := simulation_time r;
     activation_energy := activation_energy r; read_energy := read_energy r;
     write_energy := write_energy r; precharge_energy := v;
     refresh_energy := refresh_energy r;
     background_active_energy := background_active_energy r;
     background_precharge_energy := background_precharge_energy r;
     powerdown_energy := powerdown_energy r;
     termination_energy := termination_energy r;
     dynamic_io_energy := dynamic_io_energy r |}.

Definition set_refresh_energy (v : Q) (r : PowerResult) : PowerResult :=
  {| core_energy := core_energy r; interface_energy := interface_energy r;
     total_energy := total_energy r; average_power := average_power r;
     simulation_time := simulation_time r;
     activation_energy := activation_energy r; read_energy := read_energy r;
     write_energy := write_energy r; precharge_energy := precharge_energy r;
     refresh_energy := v;
     background_active_energy := background_active_energy r;
     background_precharge_energy := background_precharge_energy r;
     powerdown_energy := powerdown_energy r;
     termination_energy := termination_energy r;
     dynamic_io_energy := dynamic_io_energy r |}.

Definition set_background_energy (va vp : Q) (r : PowerResult) : PowerResult :=
  {| core_energy := core_energy r; interface_energy := interface_energy r;
     total_energy := total_energy r; average_power := average_power r;
     simulation_time := simulation_time r;
     activation_energy := activation_energy r; read_energy := read_energy r;
     write_energy := write_energy r; precharge_energy := precharge_energy r;
     refresh_energy := refresh_energy r;
     background_active_energy := va;
     background_precharge_energy := vp;
     powerdown_energy := powerdown_energy r;
     termination_energy := termination_energy r;
     dynamic_io_energy := dynamic_io_energy r |}.

Definition set_termination_energy (v : Q) (r : PowerResult) : PowerResult :=
  {| core_energy := core_energy r; interface_energy := interface_energy r;
     total_energy := total_energy r; average_power := average_power r;
     simulation_time := simulation_time r;
     activation_energy := activation_energy r; read_energy := read_energy r;
     write_energy := write_energy r; precharge_energy := precharge_energy r;
     refresh_energy := refresh_energy r;
     background_active_energy := background_active_energy r;
     background_precharge_energy := background_precharge_energy r;
     powerdown_energy := powerdown_energy r;
     termination_energy := v;
     dynamic_io_energy := dynamic_io_energy r |}.

(** *** PowerCalculator

    The calculator's [state_machine] attribute is the simulator's state
    machine object itself (one shared object): the methods that read it take
    the current [DRAMStateMachine] as an argument.  [state_history] is never
    read or written after construction and is left out. *)
Record PowerCalculator := {
  result : PowerResult;
  last_state_time : Q;
  refresh_count : Z;
  pc_last_refresh_time : Q
}.

Definition PowerCalculator_init : PowerCalculator :=
  {| result := PowerResult_default;
     last_state_time := 0;
     refresh_count := 0;
     pc_last_refresh_time := - (1000000000) |}.

Definition set_result (r : PowerResult) (pc : PowerCalculator) : PowerCalculator :=
  {| result := r;
     last_state_time := last_state_time pc;
     refresh_count := refresh_count pc;
     pc_last_refresh_time := pc_last_refresh_time pc |}.

(** I/O power parameters set by [__init__]. *)
Definition odt_resistance : Q := 120.
Definition dq_capacitance : Q := 2.
Definition switching_activity : Q := 1 # 2.

Definition calculate_activation_power (spec : MemorySpec) (duration_ns : Q) : Q :=
  let idd_activation := (idd0 (power spec) - idd3n (power spec))%Q in
  let power_mw := (idd_activation * vdd (power spec))%Q in
  (power_mw * duration_ns / 1000)%Q.

Definition calculate_io_power_read (spec : MemorySpec) (burst_length : Z)
    (duration_ns : Q) : res Q :=
  let vddq := vddq (power spec) in
  let v_swing := vddq in
  let c_dq := dq_capacitance in
  let n_dq_pins := width (architecture spec) in
  let tck_ns := tck (timing spec) in
  (* freq_ghz = 1.0 / (tck_ns * 2.0): the quotient is not used, the
     division by zero is raised *)
  if Qeq_bool (tck_ns * 2) 0 then Raise ZeroDivisionError
  else
    v_swing_2 ← float_pow v_swing 2;
    let energy_per_transition_pj := ((1 # 2) * c_dq * v_swing_2)%Q in
    n_transitions ← int_mul_float (burst_length * n_dq_pins) switching_activity;
    Ok (energy_per_transition_pj * n_transitions / 1000)%Q.

Definition calculate_io_power_write (spec : MemorySpec) (burst_length : Z)
    (duration_ns : Q) : res Q :=
  calculate_io_power_read spec burst_length duration_ns.

(** Truthiness of an [Optional[int]]: [None] and [0] are falsy. *)
Definition int_truthy (o : option Z) : option Z :=
  match o with
  | Some b => if b =? 0 then None else Some b
  | None => None
  end.

Definition calculate_read_power (spec : MemorySpec) (duration_ns : Q)
    (burst_length : option Z) : res Q :=
  let idd_read := (idd4r (power spec) - idd3n (power spec))%Q in
  let power_mw := (idd_read * vdd (power spec))%Q in
  let energy_nj := (power_mw * duration_ns / 1000)%Q in
  match int_truthy burst_length with
  | Some bl =>
      io_energy ← calculate_io_power_read spec bl duration_ns;
      Ok (energy_nj + io_energy)%Q
  | None => Ok energy_nj
  end.

Definition calculate_write_power (spec : MemorySpec) (duration_ns : Q)
    (burst_length : option Z) : res Q :=
  let idd_write := (idd4w (power spec) - idd3n (power spec))%Q in
  let power_mw := (idd_write * vdd (power spec))%Q in
  let energy_nj := (power_mw * duration_ns / 1000)%Q in
  match int_truthy burst_length with
  | Some bl =>
      io_energy ← calculate_io_power_write spec bl duration_ns;
      Ok (energy_nj + io_energy)%Q
  | None => Ok energy_nj
  end.

Definition calculate_precharge_power (spec : MemorySpec) (duration_ns : Q) : Q :=
  let idd_precharge := (idd0 (power spec) - idd3n (power spec))%Q in
  let power_mw := (idd_precharge * vdd (power spec))%Q in
  (power_mw * duration_ns / 1000)%Q.

Definition calculate_refresh_power (spec : MemorySpec) (duration_ns : Q) : Q :=
  let power_mw := (idd5b (power spec) * vdd (power spec))%Q in
  (power_mw * duration_ns / 1000)%Q.

Definition calculate_background_power (spec : MemorySpec)
    (active_stby_time_ns active_pdn_time_ns
     precharge_stby_time_ns precharge_pdn_time_ns : Q) : Q * Q :=
  let energy_active_stby_nj :=
    (idd3n (power spec) * vdd (power spec) * active_stby_time_ns / 1000)%Q in
  let energy_active_pdn_nj :=
    (idd3p (power spec) * vdd (power spec) * active_pdn_time_ns / 1000)%Q in
  let energy_precharge_stby_nj :=
    (idd2n (power spec) * vdd (power spec) * precharge_stby_time_ns / 1000)%Q in
  let energy_precharge_pdn_nj :=
    (idd2p (power spec) * vdd (power spec) * precharge_pdn_time_ns / 1000)%Q in
  ((energy_active_stby_nj + energy_active_pdn_nj)%Q,
   (energy_precharge_stby_nj + energy_precharge_pdn_nj)%Q).

Definition calculate_powerdown_power (spec : MemorySpec) (duration_ns : Q)
    (is_active_pdn : bool) : Q :=
  let idd := if is_active_pdn then idd3p (power spec) else idd2p (power spec) in
  let power_mw := (idd * vdd (power spec))%Q in
  (power_mw * duration_ns / 1000)%Q.

Definition calculate_termination_power (spec : MemorySpec) (duration_ns : Q)
    (is_read : bool) : res Q :=
  let v_term := (vddq (power spec) / 2)%Q in
  let r_term := odt_resistance in
  v_term_2 ← float_pow v_term 2;
  let power_mw := ((v_term_2 / r_term) * 1000)%Q in
  let duty_cycle : Q := if is_read then 1 # 2 else 1 # 2 in
  Ok (power_mw * duration_ns * duty_cycle / 1000)%Q.

(** [burst_length or self.spec.architecture.burst_length] *)
Definition effective_burst_length (spec : MemorySpec) (burst_length : option Z) : Z :=
  match int_truthy burst_length with
  | Some b => b
  | None => arch_burst_length (architecture spec)
  end.

(** [process_command]: the updated calculator and the returned energy. *)
Definition process_command (spec : MemorySpec) (cmd_type : CommandType)
    (rank bank : Z) (current_time_ns : Q) (next_time_ns : option Q)
    (row column burst_length : option Z) (pc : PowerCalculator)
    : res (PowerCalculator * Q) :=
  let duration_ns :=
    match next_time_ns with
    | Some n => if Qtruthy n then (n - current_time_ns)%Q else tck (timing spec)
    | None => tck (timing spec)
    end in
  let energy_nj : Q := 0%Q in
  let r := result pc in
  match cmd_type with
  | ACT =>
      let act_energy := calculate_activation_power spec (tras (timing spec)) in
      Ok (set_result
            (set_activation_energy (activation_energy r + act_energy)%Q r) pc,
          (energy_nj + act_energy)%Q)
  | RD =>
      let bl := effective_burst_length spec burst_length in
      rd_energy ← calculate_read_power spec duration_ns (Some bl);
      let r1 := set_read_energy (read_energy r + rd_energy)%Q r in
      term_energy ← calculate_termination_power spec duration_ns true;
      let r2 := set_termination_energy (termination_energy r1 + term_energy)%Q r1 in
      Ok (set_result r2 pc, (energy_nj + rd_energy + term_energy)%Q)
  | WR =>
      let bl := effective_burst_length spec burst_length in
      wr_energy ← calculate_write_power spec duration_ns (Some bl);
      let r1 := set_write_energy (write_energy r + wr_energy)%Q r in
      term_energy ← calculate_termination_power spec duration_ns false;
      let r2 := set_termination_energy (termination_energy r1 + term_energy)%Q r1 in
      Ok (set_result r2 pc, (energy_nj + wr_energy + term_energy)%Q)
  | PRE | PREA =>
      let pre_energy := calculate_precharge_power spec (trp (timing spec)) in
      Ok (set_result
            (set_precharge_energy (precharge_energy r + pre_energy)%Q r) pc,
          (energy_nj + pre_energy)%Q)
  | REF | REFPB =>
      let trfc :=
        match cmd_type, trfcpb (timing spec) with
        | REFPB, Some v => if Qtruthy v then v else trfc (timing spec)
        | _, _ => trfc (timing spec)
        end in
      let ref_energy := calculate_refresh_power spec trfc in
      Ok ({| result := set_refresh_energy (refresh_energy r + ref_energy)%Q r;
             last_state_time := last_state_time pc;
             refresh_count := refresh_count pc + 1;
             pc_last_refresh_time := current_time_ns |},
          (energy_nj + ref_energy)%Q)
  | PDN | SR | END_OF_SIMULATION => Ok (pc, energy_nj)
  end.

(** The counting loop of [accumulate_background_power]: the counters
    (active standby, active power-down, idle standby, idle power-down). *)
Definition count_bank (bank_info : BankStateInfo) (n : Z * Z * Z * Z)
    : Z * Z * Z * Z :=
  let '(n_active_stby, n_active_pdn, n_precharge_stby, n_precharge_pdn) := n in
  match state bank_info with
  | ACTIVE => (n_active_stby + 1, n_active_pdn, n_precharge_stby, n_precharge_pdn)
  | ACTIVE_PDN => (n_active_stby, n_active_pdn + 1, n_precharge_stby, n_precharge_pdn)
  | IDLE => (n_active_stby, n_active_pdn, n_precharge_stby + 1, n_precharge_pdn)
  | PRE_PDN => (n_active_stby, n_active_pdn, n_precharge_stby, n_precharge_pdn + 1)
  | REFRESHING => n
  end.

Definition accumulate_background_power (spec : MemorySpec)
    (sm : DRAMStateMachine) (start_time_ns end_time_ns : Q)
    (pc : PowerCalculator) : PowerCalculator :=
  let duration_ns := (end_time_ns - start_time_ns)%Q in
  if Qleb duration_ns 0 then pc
  else
    let n_total :=
      nbr_of_ranks (architecture spec) * nbr_of_banks (architecture spec) in
    let '(n_active_stby, n_active_pdn, n_precharge_stby, n_precharge_pdn) :=
      map_fold (fun _ bank_info n => count_bank bank_info n)
               (0, 0, 0, 0) (banks sm) in
    let '(active_stby_time, active_pdn_time,
          precharge_stby_time, precharge_pdn_time) :=
      if 0 <? n_total then
        ((duration_ns * (inject_Z n_active_stby / inject_Z n_total))%Q,
         (duration_ns * (inject_Z n_active_pdn / inject_Z n_total))%Q,
         (duration_ns * (inject_Z n_precharge_stby / inject_Z n_total))%Q,
         (duration_ns * (inject_Z n_precharge_pdn / inject_Z n_total))%Q)
      else (0%Q, 0%Q, duration_ns, 0%Q) in
    let '(bg_active, bg_precharge) :=
      calculate_background_power spec active_stby_time active_pdn_time
        precharge_stby_time precharge_pdn_time in
    let r := result pc in
    set_result
      (set_background_energy
         (background_active_energy r + bg_active)%Q
         (background_precharge_energy r + bg_precharge)%Q r) pc.

Definition finalize (simulation_time_ns : Q) (pc : PowerCalculator)
    : PowerCalculator :=
  let r0 := set_simulation_time simulation_time_ns (result pc) in
  let r1 :=
    set_core_energy
      (activation_energy r0 + read_energy r0 + write_energy r0
       + precharge_energy r0 + refresh_energy r0
       + background_active_energy r0 + background_precharge_energy r0
       + powerdown_energy r0)%Q r0 in
  let r2 :=
    set_interface_energy (termination_energy r1 + dynamic_io_energy r1)%Q r1 in
  let r3 := set_total_energy (core_energy r2 + interface_energy r2)%Q r2 in
  let r4 :=
    if Qltb 0 simulation_time_ns
    then set_average_power ((total_energy r3 / simulation_time_ns) * 1000)%Q r3
    else set_average_power 0 r3 in
  set_result r4 pc.

(** ** simulator.py *)

Record WorkloadMetadata := {
  data_rate : Z;
  workload_temperature : Q;
  toggle_rates : option (list (string * Q))
}.

Record Workload := {
  commands : list Command;
  metadata : option WorkloadMetadata
}.

(** One entry of [Simulator.errors]: the fixed text of the empty workload, or
    the f-string [Command <kind> at <timestamp> cycles: <error>]. *)
Inductive ErrorEntry :=
| No_commands_in_workload
| Command_error (kind : CommandType) (cycles : Z) (error : option Message).

Record Simulator := {
  state_machine : DRAMStateMachine;
  power_calculator : PowerCalculator;
  errors : list ErrorEntry;
  warnings : list ErrorEntry
}.

Definition Simulator_init (spec : MemorySpec) : Simulator :=
  {| state_machine := DRAMStateMachine_init spec;
     power_calculator := PowerCalculator_init;
     errors := [];
     warnings := [] |}.

(** The [PREA] loop of [_execute_command] over the remaining bank indices,
    with the loop variables [success] and [error_msg]. *)
Fixpoint precharge_all (spec : MemorySpec) (rank : Z) (bs : list Z)
    (sm : DRAMStateMachine) (success : bool) (error_msg : option Message)
    : res (DRAMStateMachine * (bool * option Message)) :=
  match bs with
  | [] => Ok (sm, (success, error_msg))
  | b :: bs' =>
      '(sm', (s, e)) ← execute_precharge spec rank b sm;
      if negb s then precharge_all spec rank bs' sm' false e
      else precharge_all spec rank bs' sm' success error_msg
  end.

Definition _execute_command (spec : MemorySpec) (cmd : Command)
    : Z -> Z -> DRAMStateMachine ->
      res (DRAMStateMachine * (bool * option Message)) :=
  let cmd_bank := bank cmd in
  fun rank bank sm =>
  match command cmd with
  | ACT =>
      match row cmd with
      | None => Ok (sm, (false, Some ACT_command_requires_row))
      | Some r => execute_activate spec rank bank r sm
      end
  | RD => execute_read spec rank bank sm
  | WR => execute_write spec rank bank sm
  | PRE => execute_precharge spec rank bank sm
  | PREA =>
      precharge_all spec rank (range (nbr_of_banks (architecture spec)))
        sm true None
  | REF => execute_refresh spec sm
  | REFPB =>
      match cmd_bank with
      | None => Ok (sm, (false, Some REFPB_command_requires_bank))
      | Some _ => execute_refresh spec sm
      end
  | PDN | SR | END_OF_SIMULATION => Ok (sm, (true, None))
  end.

(** Python's stable [sorted(commands, key=lambda c: c.timestamp)]: a command
    is placed before the first later command whose timestamp is not smaller,
    so commands with equal timestamps keep their input order. *)
Fixpoint insert_by_timestamp (c : Command) (l : list Command) : list Command :=
  match l with
  | [] => [c]
  | x :: xs =>
      if timestamp c <=? timestamp x then c :: x :: xs
      else x :: insert_by_timestamp c xs
  end.

Definition sorted_by_timestamp (l : list Command) : list Command :=
  foldr insert_by_timestamp [] l.

Definition or_zero (o : option Z) : Z :=
  match o with Some v => v | None => 0 end.

(** The body of the [for] loop of [simulate] for a command other than
    [END_OF_SIMULATION]: [next_time_ns] is the time of the following command
    of the sorted trace (or one clock after this one for the last command),
    [last_time_ns] the loop variable on entry.  Both ways out of the body
    (the [continue] after an error and the normal end) set [last_time_ns] to
    the command's time.  [current_time_ns] is the product of line 50; the
    loop below needs it too and forms the same product. *)
Definition simulate_command (spec : MemorySpec) (cmd : Command)
    (next_time_ns last_time_ns : Q) (sim : Simulator) : res Simulator :=
  let tck_ns := tck (timing spec) in
  current_time_ns ← int_mul_float (timestamp cmd) tck_ns;
  let pc1 :=
    if Qltb last_time_ns current_time_ns
    then accumulate_background_power spec (state_machine sim)
           last_time_ns current_time_ns (power_calculator sim)
    else power_calculator sim in
  let sm1 := update_time current_time_ns (state_machine sim) in
  let rank := or_zero (rank cmd) in
  let bank := or_zero (bank cmd) in
  '(sm2, (success, error)) ← _execute_command spec cmd rank bank sm1;
  if negb success then
    Ok {| state_machine := sm2;
          power_calculator := pc1;
          errors :=
            errors sim ++ [Command_error (command cmd) (timestamp cmd) error];
          warnings := warnings sim |}
  else
    '(pc2, energy) ←
      process_command spec (command cmd) rank bank current_time_ns
        (Some next_time_ns) (row cmd) (column cmd) (burst_length cmd) pc1;
    let pc3 :=
      set_result
        (set_core_energy (core_energy (result pc2) + energy)%Q (result pc2))
        pc2 in
    Ok {| state_machine := sm2;
          power_calculator := pc3;
          errors := errors sim;
          warnings := warnings sim |}.

(** The [for] loop of [simulate] from position [i] on: [cmds] is
    [sorted_commands[i:]], the result is the simulator and [last_time_ns]
    when the loop ends (by exhaustion or by [break]). *)
Fixpoint simulate_loop (spec : MemorySpec) (cmds : list Command)
    (last_time_ns : Q) (sim : Simulator) : res (Simulator * Q) :=
  match cmds with
  | [] => Ok (sim, last_time_ns)
  | cmd :: rest =>
      let tck_ns := tck (timing spec) in
      match command cmd with
      | END_OF_SIMULATION =>
          current_time_ns ← int_mul_float (timestamp cmd) tck_ns;
          let pc :=
            accumulate_background_power spec (state_machine sim)
              last_time_ns current_time_ns (power_calculator sim) in
          Ok ({| state_machine := state_machine sim;
                 power_calculator := pc;
                 errors := errors sim;
                 warnings := warnings sim |}, current_time_ns)
      | _ =>
          current_time_ns ← int_mul_float (timestamp cmd) tck_ns;
          next_time_ns ←
            match rest with
            | next :: _ => int_mul_float (timestamp next) tck_ns
            | [] => Ok (current_time_ns + tck_ns)%Q
            end;
          sim1 ← simulate_command spec cmd next_time_ns last_time_ns sim;
          simulate_loop spec rest current_time_ns sim1
      end
  end.

(** [Simulator.simulate]: the simulator after the run and the returned
    [PowerResult] (the calculator's own result object). *)
Definition simulate (spec : MemorySpec) (workload : Workload) (sim : Simulator)
    : res (Simulator * PowerResult) :=
  let sim0 :=
    {| state_machine := state_machine sim;
       power_calculator := power_calculator sim;
       errors := [];
       warnings := [] |} in
  match commands workload with
  | [] =>
      Ok ({| state_machine := state_machine sim0;
             power_calculator := power_calculator sim0;
             errors := errors sim0 ++ [No_commands_in_workload];
             warnings := warnings sim0 |},
          result (power_calculator sim0))
  | first :: _ =>
      let sorted_commands := sorted_by_timestamp (commands workload) in
      let tck_ns := tck (timing spec) in
      '(sim1, last_time_ns) ← simulate_loop spec sorted_commands 0 sim0;
      final_time_ns ←
        (if Qltb 0 last_time_ns then Ok last_time_ns
         else int_mul_float (timestamp (List.last sorted_commands first)) tck_ns);
      let pc := finalize final_time_ns (power_calculator sim1) in
      Ok ({| state_machine := state_machine sim1;
             power_calculator := pc;
             errors := errors sim1;
             warnings := warnings sim1 |},
          result pc)
  end.

(** ** Fixtures of the test suite ([setUp] in tests/test_*.py) *)

Definition setUp_power_spec : MemoryPowerSpec :=
  {| idd0 := 51; idd2n := 35; idd2p := 25; idd3n := 46; idd3p := 15;
     idd4r := 146; idd4w := 120; idd5b := 80; idd6 := 3;
     vdd := 1.1; vddq := 1.1; vddca := 1.1;
     ipp := 0.5; temperature := 50 |}.

Definition setUp_timing_spec : MemoryTimingSpec :=
  MemoryTimingSpec_init 0.312 32 13.75 13.75 280 None
    7800 15 7.5 4.7 13.75 None 5 70 512.

Definition setUp_arch_spec : ArchitectureSpec :=
  {| nbr_of_ranks := 1; nbr_of_banks := 4; nbr_of_columns := 1024;
     nbr_of_rows := 65536; width := 64; arch_burst_length := 16;
     density := 16; refresh_mode := "all-bank" |}.

Definition setUp_spec : MemorySpec :=
  {| power := setUp_power_spec;
     timing := setUp_timing_spec;
     architecture := setUp_arch_spec |}.

(** [Command(timestamp=..., command=..., bank=..., rank=..., row=...,
    burst_length=...)] with [column] left at its default. *)
Definition Command_init (timestamp : Z) (command : CommandType)
    (bank rank row burst_length : option Z) : Command :=
  {| timestamp := timestamp; command := command; bank := bank; rank := rank;
     row := row; column := None; burst_length := burst_length |}.

(** The [setUp] specification with no row-to-column delay ([trcd = 0]) and
    a write recovery of 40 ns: a write may follow its activate at once. *)
Definition zero_trcd_spec : MemorySpec :=
  {| power := setUp_power_spec;
     timing :=
       MemoryTimingSpec_init 0.312 32 13.75 0 280 None
         7800 40 7.5 4.7 13.75 None 5 70 512;
     architecture := setUp_arch_spec |}.

(** The traces of tests/test_simulator.py. *)
Definition test_simple_workload : Workload :=
  {| commands :=
       [Command_init 0 ACT (Some 0) (Some 0) (Some 512) None;
        Command_init 50 RD (Some 0) (Some 0) None (Some 16);
        Command_init 150 PRE (Some 0) (Some 0) None None;
        Command_init 1000 END_OF_SIMULATION None None None None];
     metadata := None |}.

Definition test_refresh_workload (md : option WorkloadMetadata)
    (bank rank : option Z) : Workload :=
  {| commands :=
       [Command_init 0 REF bank rank None None;
        Command_init 10000 END_OF_SIMULATION None None None None];
     metadata := md |}.

(** ** Predicates used by the statements *)

Definition timestamp_le (a b : Command) : Prop := timestamp a <= timestamp b.

(** The two power-down states of a bank. *)
Definition in_powerdown (bank_info : BankStateInfo) : bool :=
  BankState_eqb (state bank_info) ACTIVE_PDN
  || BankState_eqb (state bank_info) PRE_PDN.

(** The sum of the ten category counters, in the order of the check in
    tests/test_integration.py. *)
Definition total_breakdown (r : PowerResult) : Q :=
  (activation_energy r + read_energy r + write_energy r + precharge_energy r
   + refresh_energy r + background_active_energy r
   + background_precharge_energy r + powerdown_energy r
   + termination_energy r + dynamic_io_energy r)%Q.

(** The verdict of [can_precharge] on bank [(rank, b)] of a state machine at
    its current time, when the bank exists. *)
Definition precharge_check (spec : MemorySpec) (sm : DRAMStateMachine)
    (rank b : Z) : option (bool * option Message) :=
  (fun bank_info => can_precharge spec bank_info (current_time sm))
    <$> banks sm !! (rank, b).

(** A trace with a power-down entry and a self-refresh entry. *)
Definition powerdown_workload : Workload :=
  {| commands :=
       [Command_init 0 ACT (Some 0) (Some 0) (Some 512) None;
        Command_init 100 PDN (Some 0) (Some 0) None None;
        Command_init 200 SR None (Some 0) None None;
        Command_init 1000 END_OF_SIMULATION None None None None];
     metadata := None |}.

(** No bank of the state machine is in a power-down state. *)
Definition no_powerdown_banks (sm : DRAMStateMachine) : Prop :=
  map_Forall (fun _ bank_info => in_powerdown bank_info = false) (banks sm).

(** No bank is powered down and no power-down energy has been charged. *)
Definition no_powerdown (sim : Simulator) : Prop :=
  no_powerdown_banks (state_machine sim)
  ∧ powerdown_energy (result (power_calculator sim)) = 0%Q.

(** ** Further operations and predicates *)

(** The keys of [banks] in the order [__init__] inserts them (rank-major);
    no other code adds or removes a key, so this is the iteration order of
    the dict. *)
Definition bank_keys (spec : MemorySpec) : list (Z * Z) :=
  r ← range (nbr_of_ranks (architecture spec));
  (fun b => (r, b)) <$> range (nbr_of_banks (architecture spec)).

(** Whether the bank at [key] is in state [s] (a missing key is in none). *)
Definition bank_in_state (sm : DRAMStateMachine) (s : BankState)
    (key : Z * Z) : bool :=
  match banks sm !! key with
  | Some bank_info => BankState_eqb (state bank_info) s
  | None => false
  end.

(** [get_active_banks]: the keys, in dict order, whose bank is Active. *)
Definition get_active_banks (spec : MemorySpec) (sm : DRAMStateMachine)
    : list (Z * Z) :=
  filter (fun key => bank_in_state sm ACTIVE key) (bank_keys spec).

(** [get_idle_banks]: the keys, in dict order, whose bank is Idle. *)
Definition get_idle_banks (spec : MemorySpec) (sm : DRAMStateMachine)
    : list (Z * Z) :=
  filter (fun key => bank_in_state sm IDLE key) (bank_keys spec).

Definition get_errors (sim : Simulator) : list ErrorEntry := errors sim.
Definition get_warnings (sim : Simulator) : list ErrorEntry := warnings sim.

(** A bank is Idle with no open row, or Active with an open row. *)
Definition bank_ok (bank_info : BankStateInfo) : Prop :=
  (state bank_info = IDLE ∧ open_row bank_info = None)
  ∨ (state bank_info = ACTIVE ∧ is_Some (open_row bank_info)).

(** The banks are those of the configured geometry, each of them [bank_ok]. *)
Definition banks_ok (spec : MemorySpec) (sm : DRAMStateMachine) : Prop :=
  (∀ r b, is_Some (banks sm !! (r, b))
          ↔ 0 <= r < nbr_of_ranks (architecture spec)
            ∧ 0 <= b < nbr_of_banks (architecture spec))
  ∧ map_Forall (fun _ bank_info => bank_ok bank_info) (banks sm).
(** The command at which the loop of [simulate] stops: the first
    [END_OF_SIMULATION] of the list, or its last command when there is none. *)
Fixpoint stop_command (cmds : list Command) : option Command :=
  match cmds with
  | [] => None
  | cmd :: rest =>
      match command cmd with
      | END_OF_SIMULATION => Some cmd
      | _ => match stop_command rest with
             | Some c => Some c
             | None => Some cmd
             end
      end
  end.

(** The pair [(rank, bank)] names a bank of the configured geometry. *)
Definition inside_geometry (spec : MemorySpec) (rank bank : Z) : Prop :=
  0 <= rank < nbr_of_ranks (architecture spec)
  ∧ 0 <= bank < nbr_of_banks (architecture spec).

(** The banks a command makes the dispatcher look up exist: the addressed
    bank for an activate with a row, a read, a write and a precharge (rank
    and bank defaulting to 0), the whole rank for a precharge-all. *)
Definition well_addressed (spec : MemorySpec) (cmd : Command) : Prop :=
  match command cmd with
  | ACT =>
      row cmd = None
      ∨ inside_geometry spec (or_zero (rank cmd)) (or_zero (bank cmd))
  | RD | WR | PRE =>
      inside_geometry spec (or_zero (rank cmd)) (or_zero (bank cmd))
  | PREA =>
      nbr_of_banks (architecture spec) <= 0
      ∨ 0 <= or_zero (rank cmd) < nbr_of_ranks (architecture spec)
  | _ => True
  end.
(** The number of banks of the state machine that are in state [s]. *)
Definition count_in_state (s : BankState)
    (m : gmap (Z * Z) BankStateInfo) : Z :=
  Z.of_nat (size (filter (fun kv : Z * Z * BankStateInfo =>
                            BankState_eqb (state kv.2) s) m)).

Definition banks_in_state (sm : DRAMStateMachine) (s : BankState) : Z :=
  count_in_state s (banks sm).
(** A specification with non-negative voltage, currents, timings and sizes,
    whose activate, read and write currents are not below the active
    standby current. *)
Definition sensible_spec (spec : MemorySpec) : Prop :=
  (0 <= vdd (power spec))%Q
  ∧ (0 <= idd2n (power spec))%Q ∧ (0 <= idd2p (power spec))%Q
  ∧ (0 <= idd3n (power spec))%Q ∧ (0 <= idd3p (power spec))%Q
  ∧ (0 <= idd5b (power spec))%Q
  ∧ (idd3n (power spec) <= idd0 (power spec))%Q
  ∧ (idd3n (power spec) <= idd4r (power spec))%Q
  ∧ (idd3n (power spec) <= idd4w (power spec))%Q
  ∧ (0 <= tck (timing spec))%Q ∧ (0 <= tras (timing spec))%Q
  ∧ (0 <= trp (timing spec))%Q ∧ (0 <= trfc (timing spec))%Q
  ∧ (∀ v, trfcpb (timing spec) = Some v → (0 <= v)%Q)
  ∧ 0 <= width (architecture spec)
  ∧ 0 <= arch_burst_length (architecture spec).

(** The command's burst length, when given, is not negative. *)
Definition burst_length_ok (cmd : Command) : Prop :=
  ∀ b, burst_length cmd = Some b → 0 <= b.

(** None of the ten category counters is negative. *)
Definition counters_nonneg (r : PowerResult) : Prop :=
  (0 <= activation_energy r)%Q ∧ (0 <= read_energy r)%Q
  ∧ (0 <= write_energy r)%Q ∧ (0 <= precharge_energy r)%Q
  ∧ (0 <= refresh_energy r)%Q ∧ (0 <= background_active_energy r)%Q
  ∧ (0 <= background_precharge_energy r)%Q ∧ (0 <= powerdown_energy r)%Q
  ∧ (0 <= termination_energy r)%Q ∧ (0 <= dynamic_io_energy r)%Q.
(** The timing-violation trace of tests/test_simulator.py. *)
Definition test_timing_violation_workload : Workload :=
  {| commands :=
       [Command_init 0 ACT (Some 0) (Some 0) (Some 512) None;
        Command_init 10 PRE (Some 0) (Some 0) None None;
        Command_init 1000 END_OF_SIMULATION None None None None];
     metadata := None |}.

(** The [setUp] specification with a clock period of zero. *)
Definition zero_tck_spec : MemorySpec :=
  {| power := setUp_power_spec;
     timing :=
       MemoryTimingSpec_init 0 32 13.75 13.75 280 None
         7800 15 7.5 4.7 13.75 None 5 70 512;
     architecture := setUp_arch_spec |}.

(** The [setUp] specification with an I/O voltage of 1e200 V. *)
Definition huge_vddq_spec : MemorySpec :=
  {| power :=
       {| idd0 := 51; idd2n := 35; idd2p := 25; idd3n := 46; idd3p := 15;
          idd4r := 146; idd4w := 120; idd5b := 80; idd6 := 3;
          vdd := 1.1; vddq := inject_Z (10 ^ 200); vddca := 1.1;
          ipp := 0.5; temperature := 50 |};
     timing := setUp_timing_spec;
     architecture := setUp_arch_spec |}.

(** ** The iterations of the driver's loop *)

(** The [for] loop of [simulate] with a record of its iterations: one entry
    per iteration, in the order the loop runs them, holding the command the
    iteration took from [sorted_commands] and the simulator at its start.  An
    [END_OF_SIMULATION] at which the loop breaks is the last entry.  The
    record is not a variable of the code: without it this is [simulate_loop]
    (lemma [simulate_loop_log_erase]). *)
Fixpoint simulate_loop_log (spec : MemorySpec) (cmds : list Command)
    (last_time_ns : Q) (sim : Simulator)
    : res (list (Command * Simulator) * (Simulator * Q)) :=
  match cmds with
  | [] => Ok ([], (sim, last_time_ns))
  | cmd :: rest =>
      let tck_ns := tck (timing spec) in
      match command cmd with
      | END_OF_SIMULATION =>
          current_time_ns ← int_mul_float (timestamp cmd) tck_ns;
          let pc :=
            accumulate_background_power spec (state_machine sim)
              last_time_ns current_time_ns (power_calculator sim) in
          Ok ([(cmd, sim)],
              ({| state_machine := state_machine sim;
                  power_calculator := pc;
                  errors := errors sim;
                  warnings := warnings sim |}, current_time_ns))
      | _ =>
          current_time_ns ← int_mul_float (timestamp cmd) tck_ns;
          next_time_ns ←
            match rest with
            | next :: _ => int_mul_float (timestamp next) tck_ns
            | [] => Ok (current_time_ns + tck_ns)%Q
            end;
          sim1 ← simulate_command spec cmd next_time_ns last_time_ns sim;
          '(log, out) ← simulate_loop_log spec rest current_time_ns sim1;
          Ok ((cmd, sim) :: log, out)
      end
  end.

(** The simulator on which [simulate] starts its loop: the error and
    warning lists are cleared. *)
Definition cleared (sim : Simulator) : Simulator :=
  {| state_machine := state_machine sim;
     power_calculator := power_calculator sim;
     errors := [];
     warnings := [] |}.

(** The commands of a list up to and including its first
    [END_OF_SIMULATION] (the whole list when there is none). *)
Fixpoint up_to_end (cmds : list Command) : list Command :=
  match cmds with
  | [] => []
  | cmd :: rest =>
      cmd :: match command cmd with
             | END_OF_SIMULATION => []
             | _ => up_to_end rest
             end
  end.

(** The dispatch the loop body makes for [cmd] when the simulator is [sim]
    (lines 58 to 64): the state machine is set to the command's time, then
    [_execute_command] is called with the defaulted rank and bank. *)
Definition dispatch (spec : MemorySpec) (cmd : Command) (sim : Simulator)
    : res (DRAMStateMachine * (bool * option Message)) :=
  _execute_command spec cmd (or_zero (rank cmd)) (or_zero (bank cmd))
    (update_time (inject_Z (timestamp cmd) * tck (timing spec))
       (state_machine sim)).

(** The error entry of an iteration: the entry of line 67 when the dispatch
    of the iteration's command reports failure, none otherwise. *)
Definition dispatch_error (spec : MemorySpec) (it : Command * Simulator)
    : option ErrorEntry :=
  match dispatch spec it.1 it.2 with
  | Ok (_, (false, error)) =>
      Some (Command_error (command it.1) (timestamp it.1) error)
  | _ => None
  end.

(** What keeps the float operations the driver performs for [cmd] in range:
    the timestamp converts, and for a read or write the square of the I/O
    voltage and the product of burst length and width do. *)
Definition in_float_range (spec : MemorySpec) (cmd : Command) : Prop :=
  int_fits (timestamp cmd)
  ∧ (command cmd = RD ∨ command cmd = WR →
     pow_fits (vddq (power spec)) 2
     ∧ int_fits (effective_burst_length spec (burst_length cmd)
                 * width (architecture spec))).

(** The simple trace of the test suite, given out of timestamp order. *)
Definition shuffled_simple_workload : Workload :=
  {| commands :=
       [Command_init 1000 END_OF_SIMULATION None None None None;
        Command_init 150 PRE (Some 0) (Some 0) None None;
        Command_init 0 ACT (Some 0) (Some 0) (Some 512) None;
        Command_init 50 RD (Some 0) (Some 0) None (Some 16)];
     metadata := None |}.

(** * Properties *)

(** ** Float operations that raise *)

Lemma float_of_int_fits (n : Z) :
  int_fits n → float_of_int n = Ok (inject_Z n).
Proof.
  unfold int_fits, float_of_int. intros Hn.
  destruct (Z.leb_spec float_limit (Z.abs n)); [lia|done].
Qed.

Lemma float_of_int_overflow (n : Z) :
  ¬ int_fits n → float_of_int n = Raise OverflowError.
Proof.
  unfold int_fits, float_of_int. intros Hn.
  destruct (Z.leb_spec float_limit (Z.abs n)); [done|lia].
Qed.

Lemma float_of_int_Ok (n : Z) (v : Q) :
  float_of_int n = Ok v → int_fits n ∧ v = inject_Z n.
Proof.
  unfold int_fits, float_of_int.
  destruct (Z.leb_spec float_limit (Z.abs n)); [done|].
  by intros [= <-].
Qed.

Lemma int_mul_float_fits (n : Z) (x : Q) :
  int_fits n → int_mul_float n x = Ok (inject_Z n * x)%Q.
Proof. intros Hn. unfold int_mul_float. by rewrite float_of_int_fits. Qed.

Lemma int_mul_float_overflow (n : Z) (x : Q) :
  ¬ int_fits n → int_mul_float n x = Raise OverflowError.
Proof. intros Hn. unfold int_mul_float. by rewrite float_of_int_overflow. Qed.

Lemma int_mul_float_Ok (n : Z) (x v : Q) :
  int_mul_float n x = Ok v → int_fits n ∧ v = (inject_Z n * x)%Q.
Proof.
  unfold int_mul_float.
  destruct (float_of_int n) as [f|] eqn:Hf; [|done].
  apply float_of_int_Ok in Hf as [Hn ->]. by intros [= <-].
Qed.

Lemma float_pow_fits (x : Q) (n : positive) :
  pow_fits x n → float_pow x n = Ok (x ^ Z.pos n)%Q.
Proof.
  unfold pow_fits, float_pow, Qleb. intros Hx.
  destruct (Qle_bool _ _) eqn:Hle; [|done].
  apply Qle_bool_iff in Hle. by apply Qle_not_lt in Hle.
Qed.

Lemma float_pow_overflow (x : Q) (n : positive) :
  ¬ pow_fits x n → float_pow x n = Raise OverflowError.
Proof.
  unfold pow_fits, float_pow, Qleb. intros Hx.
  destruct (Qle_bool _ _) eqn:Hle; [done|].
  exfalso. apply Hx. apply Qnot_le_lt. intros Hle'.
  apply Qle_bool_iff in Hle'. congruence.
Qed.

Lemma float_pow_Ok (x : Q) (n : positive) (v : Q) :
  float_pow x n = Ok v → pow_fits x n ∧ v = (x ^ Z.pos n)%Q.
Proof.
  unfold pow_fits, float_pow, Qleb.
  destruct (Qle_bool _ _) eqn:Hle; [done|].
  intros [= <-]. split; [|done].
  apply Qnot_le_lt. intros Hle'. apply Qle_bool_iff in Hle'. congruence.
Qed.

(** ** Shape of a run of the driver's loop *)

(** A loop that returns on [cmd :: rest] either stopped at [cmd], an
    [END_OF_SIMULATION], or ran the body on [cmd] and went on with [rest]. *)
Lemma simulate_loop_cons_Ok (spec : MemorySpec) (cmd : Command)
    (rest : list Command) (last : Q) (sim sim' : Simulator) (t : Q) :
  simulate_loop spec (cmd :: rest) last sim = Ok (sim', t) →
  let now := (inject_Z (timestamp cmd) * tck (timing spec))%Q in
  int_fits (timestamp cmd)
  ∧ ((command cmd = END_OF_SIMULATION
      ∧ sim' = {| state_machine := state_machine sim;
                  power_calculator :=
                    accumulate_background_power spec (state_machine sim)
                      last now (power_calculator sim);
                  errors := errors sim;
                  warnings := warnings sim |}
      ∧ t = now)
     ∨ (command cmd ≠ END_OF_SIMULATION
        ∧ ∃ sim1,
            simulate_command spec cmd
              match rest with
              | next :: _ => (inject_Z (timestamp next) * tck (timing spec))%Q
              | [] => (now + tck (timing spec))%Q
              end last sim = Ok sim1
            ∧ simulate_loop spec rest now sim1 = Ok (sim', t))).
Proof.
  intros Hrun now. cbn [simulate_loop] in Hrun.
  assert (Hbody :
    (int_mul_float (timestamp cmd) (tck (timing spec)) ≫= λ current_time_ns,
       match rest with
       | next :: _ => int_mul_float (timestamp next) (tck (timing spec))
       | [] => Ok (current_time_ns + tck (timing spec))%Q
       end ≫= λ next_time_ns,
         simulate_command spec cmd next_time_ns last sim
         ≫= simulate_loop spec rest current_time_ns) = Ok (sim', t) →
    int_fits (timestamp cmd)
    ∧ ∃ sim1,
        simulate_command spec cmd
          match rest with
          | next :: _ => (inject_Z (timestamp next) * tck (timing spec))%Q
          | [] => (now + tck (timing spec))%Q
          end last sim = Ok sim1
        ∧ simulate_loop spec rest now sim1 = Ok (sim', t)).
  { destruct (int_mul_float (timestamp cmd) _) as [now'|] eqn:Hnow; [|done].
    apply int_mul_float_Ok in Hnow as [Hfit ->]. cbn [mbind res_bind].
    fold now. intros Hbody. split; [done|].
    destruct rest as [|next rest'].
    - cbn [mbind res_bind] in Hbody.
      destruct (simulate_command _ _ _ _ _) as [sim1|] eqn:Hcmd; [|done].
      by exists sim1.
    - destruct (int_mul_float (timestamp next) _) as [next'|] eqn:Hnext;
        [|done].
      apply int_mul_float_Ok in Hnext as [_ ->]. cbn [mbind res_bind] in Hbody.
      destruct (simulate_command _ _ _ _ _) as [sim1|] eqn:Hcmd; [|done].
      by exists sim1. }
  revert Hrun.
  destruct (command cmd) eqn:Hkind; intros Hrun;
    try (apply Hbody in Hrun as [Hfit Hrun]; split; [done|right];
         split; [discriminate|exact Hrun]).
  destruct (int_mul_float (timestamp cmd) _) as [now'|] eqn:Hnow; [|done].
  apply int_mul_float_Ok in Hnow as [Hfit ->]. cbn [mbind res_bind] in Hrun.
  revert Hrun. intros [= <- <-]. split; [done|]. by left.
Qed.

(** The converse: when the timestamps it converts fit, the loop unfolds to
    its body. *)
Lemma simulate_loop_cons_body (spec : MemorySpec) (cmd : Command)
    (rest : list Command) (last : Q) (sim : Simulator) :
  command cmd ≠ END_OF_SIMULATION →
  int_fits (timestamp cmd) →
  match rest with next :: _ => int_fits (timestamp next) | [] => True end →
  let now := (inject_Z (timestamp cmd) * tck (timing spec))%Q in
  simulate_loop spec (cmd :: rest) last sim
  = simulate_command spec cmd
      match rest with
      | next :: _ => (inject_Z (timestamp next) * tck (timing spec))%Q
      | [] => (now + tck (timing spec))%Q
      end last sim
    ≫= simulate_loop spec rest now.
Proof.
  intros Hkind Hfit Hnext now. cbn [simulate_loop].
  rewrite (int_mul_float_fits _ _ Hfit).
  destruct rest as [|next rest'].
  - by destruct (command cmd).
  - rewrite (int_mul_float_fits _ _ Hnext). by destruct (command cmd).
Qed.

Lemma simulate_loop_cons_end (spec : MemorySpec) (cmd : Command)
    (rest : list Command) (last : Q) (sim : Simulator) :
  command cmd = END_OF_SIMULATION →
  int_fits (timestamp cmd) →
  let now := (inject_Z (timestamp cmd) * tck (timing spec))%Q in
  simulate_loop spec (cmd :: rest) last sim
  = Ok ({| state_machine := state_machine sim;
           power_calculator :=
             accumulate_background_power spec (state_machine sim)
               last now (power_calculator sim);
           errors := errors sim;
           warnings := warnings sim |}, now).
Proof.
  intros Hkind Hfit now. cbn [simulate_loop].
  by rewrite Hkind, (int_mul_float_fits _ _ Hfit).
Qed.

(** The record of the iterations does not change the loop. *)
Lemma simulate_loop_log_erase (spec : MemorySpec) (cmds : list Command) :
  ∀ last sim,
    simulate_loop spec cmds last sim
    = simulate_loop_log spec cmds last sim ≫= λ '(_, out), Ok out.
Proof.
  induction cmds as [|cmd rest IH]; intros last sim; [done|].
  cbn [simulate_loop simulate_loop_log].
  assert (Hbody :
    (int_mul_float (timestamp cmd) (tck (timing spec)) ≫= λ current_time_ns,
       match rest with
       | next :: _ => int_mul_float (timestamp next) (tck (timing spec))
       | [] => Ok (current_time_ns + tck (timing spec))%Q
       end ≫= λ next_time_ns,
         simulate_command spec cmd next_time_ns last sim
         ≫= simulate_loop spec rest current_time_ns)
    = (int_mul_float (timestamp cmd) (tck (timing spec)) ≫= λ current_time_ns,
         match rest with
         | next :: _ => int_mul_float (timestamp next) (tck (timing spec))
         | [] => Ok (current_time_ns + tck (timing spec))%Q
         end ≫= λ next_time_ns,
           simulate_command spec cmd next_time_ns last sim ≫= λ sim1,
             simulate_loop_log spec rest current_time_ns sim1
             ≫= λ '(log, out), Ok ((cmd, sim) :: log, out))
      ≫= λ '(_, out), Ok out).
  { destruct (int_mul_float (timestamp cmd) _) as [now|]; [|done].
    cbn [mbind res_bind].
    match goal with
    | |- context [mbind _ ?m] => destruct m as [next|]; [|done]
    end.
    cbn [mbind res_bind].
    destruct (simulate_command _ _ _ _ _) as [sim1|]; [|done].
    cbn [mbind res_bind]. rewrite IH.
    by destruct (simulate_loop_log _ _ _ _) as [[log out]|]. }
  destruct (command cmd); try exact Hbody.
  by destruct (int_mul_float _ _).
Qed.

Lemma simulate_loop_log_Ok (spec : MemorySpec) (cmds : list Command)
    (last : Q) (sim : Simulator) (out : Simulator * Q) :
  simulate_loop spec cmds last sim = Ok out
  ↔ ∃ log, simulate_loop_log spec cmds last sim = Ok (log, out).
Proof.
  rewrite simulate_loop_log_erase.
  destruct (simulate_loop_log _ _ _ _) as [[log out']|e]; cbn [mbind res_bind].
  - split; [intros [= ->]; by eauto|]. by intros (log' & [= _ ->]).
  - split; [done|]. by intros (log' & ?).
Qed.

(** A logged loop that returns on [cmd :: rest] logged [cmd] first. *)
Lemma simulate_loop_log_cons_Ok (spec : MemorySpec) (cmd : Command)
    (rest : list Command) (last : Q) (sim : Simulator)
    (log : list (Command * Simulator)) (out : Simulator * Q) :
  simulate_loop_log spec (cmd :: rest) last sim = Ok (log, out) →
  let now := (inject_Z (timestamp cmd) * tck (timing spec))%Q in
  (command cmd = END_OF_SIMULATION ∧ log = [(cmd, sim)])
  ∨ (command cmd ≠ END_OF_SIMULATION
     ∧ ∃ sim1 log',
         simulate_command spec cmd
           match rest with
           | next :: _ => (inject_Z (timestamp next) * tck (timing spec))%Q
           | [] => (now + tck (timing spec))%Q
           end last sim = Ok sim1
         ∧ simulate_loop_log spec rest now sim1 = Ok (log', out)
         ∧ log = (cmd, sim) :: log').
Proof.
  intros Hrun now. cbn [simulate_loop_log] in Hrun.
  assert (Hbody :
    (int_mul_float (timestamp cmd) (tck (timing spec)) ≫= λ current_time_ns,
       match rest with
       | next :: _ => int_mul_float (timestamp next) (tck (timing spec))
       | [] => Ok (current_time_ns + tck (timing spec))%Q
       end ≫= λ next_time_ns,
         simulate_command spec cmd next_time_ns last sim ≫= λ sim1,
           simulate_loop_log spec rest current_time_ns sim1
           ≫= λ '(log, out), Ok ((cmd, sim) :: log, out)) = Ok (log, out) →
    ∃ sim1 log',
      simulate_command spec cmd
        match rest with
        | next :: _ => (inject_Z (timestamp next) * tck (timing spec))%Q
        | [] => (now + tck (timing spec))%Q
        end last sim = Ok sim1
      ∧ simulate_loop_log spec rest now sim1 = Ok (log', out)
      ∧ log = (cmd, sim) :: log').
  { destruct (int_mul_float (timestamp cmd) _) as [now'|] eqn:Hnow; [|done].
    apply int_mul_float_Ok in Hnow as [_ ->]. cbn [mbind res_bind].
    fold now. intros Hbody.
    destruct rest as [|next rest'].
    - cbn [mbind res_bind] in Hbody.
      destruct (simulate_command _ _ _ _ _) as [sim1|] eqn:Hcmd; [|done].
      cbn [mbind res_bind] in Hbody.
      destruct (simulate_loop_log _ _ _ _) as [[log' out']|] eqn:Hlog;
        [|done].
      cbn [mbind res_bind] in Hbody.
      revert Hbody. intros [= <- <-]. by exists sim1, log'.
    - destruct (int_mul_float (timestamp next) _) as [next'|] eqn:Hnext;
        [|done].
      apply int_mul_float_Ok in Hnext as [_ ->]. cbn [mbind res_bind] in Hbody.
      destruct (simulate_command _ _ _ _ _) as [sim1|] eqn:Hcmd; [|done].
      cbn [mbind res_bind] in Hbody.
      destruct (simulate_loop_log _ _ _ _) as [[log' out']|] eqn:Hlog;
        [|done].
      cbn [mbind res_bind] in Hbody.
      revert Hbody. intros [= <- <-]. by exists sim1, log'. }
  revert Hrun.
  destruct (command cmd) eqn:Hkind; intros Hrun;
    try (right; split; [discriminate|by apply Hbody]).
  destruct (int_mul_float (timestamp cmd) _) as [now'|]; [|done].
  revert Hrun. intros [= <- _]. by left.
Qed.

(** The commands of the iterations are the trace up to its first
    [END_OF_SIMULATION], in the order of the trace. *)
Lemma simulate_loop_log_commands (spec : MemorySpec) (cmds : list Command) :
  ∀ last sim log out,
    simulate_loop_log spec cmds last sim = Ok (log, out) →
    log.*1 = up_to_end cmds.
Proof.
  induction cmds as [|cmd rest IH]; intros last sim log out Hrun.
  { revert Hrun. cbn [simulate_loop_log]. by intros [= <- _]. }
  apply simulate_loop_log_cons_Ok in Hrun
    as [(Hend & ->)|(Hne & sim1 & log' & _ & Hrest & ->)];
    cbn [up_to_end fmap list_fmap fst].
  - by rewrite Hend.
  - apply IH in Hrest. rewrite Hrest. by destruct (command cmd).
Qed.

(** The first iteration starts on the simulator the loop was given. *)
Lemma simulate_loop_log_first (spec : MemorySpec) (cmds : list Command)
    (last : Q) (sim : Simulator) (log : list (Command * Simulator))
    (out : Simulator * Q) :
  simulate_loop_log spec cmds last sim = Ok (log, out) →
  log.*2 !! 0%nat = (λ _, sim) <$> cmds !! 0%nat.
Proof.
  destruct cmds as [|cmd rest]; intros Hrun.
  { revert Hrun. cbn [simulate_loop_log]. by intros [= <- _]. }
  by apply simulate_loop_log_cons_Ok in Hrun
    as [(_ & ->)|(_ & sim1 & log' & _ & _ & ->)].
Qed.

(** One iteration appends the error entry of its dispatch, if any. *)
Lemma simulate_command_dispatch_error (spec : MemorySpec) (cmd : Command)
    (next last : Q) (sim sim' : Simulator) :
  simulate_command spec cmd next last sim = Ok sim' →
  warnings sim' = warnings sim
  ∧ errors sim'
    = errors sim ++ option_list (dispatch_error spec (cmd, sim)).
Proof.
  unfold simulate_command, dispatch_error, dispatch. cbn [fst snd].
  destruct (int_mul_float _ _) as [now|] eqn:Hnow; [|done].
  apply int_mul_float_Ok in Hnow as [_ ->]. cbn [mbind res_bind].
  destruct (_execute_command _ _ _ _ _) as [[sm2 [success error]]|]; [|done].
  cbn [mbind res_bind]. destruct success; cbn [negb option_list].
  - destruct (process_command _ _ _ _ _ _ _ _ _ _) as [[pc2 energy]|]; [|done].
    cbn [mbind res_bind]. intros [= <-]. by rewrite app_nil_r.
  - by intros [= <-].
Qed.

(** The errors of a run of the loop are the error entries of its
    iterations, in the order of the iterations. *)
Lemma simulate_loop_log_errors (spec : MemorySpec) (cmds : list Command) :
  ∀ last sim log sim' t,
    simulate_loop_log spec cmds last sim = Ok (log, (sim', t)) →
    warnings sim' = warnings sim
    ∧ errors sim' = errors sim ++ omap (dispatch_error spec) log.
Proof.
  induction cmds as [|cmd rest IH]; intros last sim log sim' t Hrun.
  { revert Hrun. cbn [simulate_loop_log]. intros [= <- <- _].
    by rewrite app_nil_r. }
  pose proof Hrun as Hshape.
  apply simulate_loop_log_cons_Ok in Hshape
    as [(Hend & ->)|(Hne & sim1 & log' & Hcmd & Hrest & ->)].
  - cbn [simulate_loop_log] in Hrun. rewrite Hend in Hrun.
    destruct (int_mul_float _ _) as [now|]; [|done].
    revert Hrun. intros [= <- _]. cbn [warnings errors omap list_omap].
    unfold dispatch_error, dispatch, _execute_command. cbn [fst snd].
    rewrite Hend. by rewrite app_nil_r.
  - apply IH in Hrest as [Hw He].
    apply simulate_command_dispatch_error in Hcmd as [Hw1 He1].
    split; [congruence|]. rewrite He, He1, <- app_assoc. f_equal.
    cbn [omap list_omap]. by destruct (dispatch_error spec (cmd, sim)).
Qed.

(** ** Ordering of the trace *)

Section Sorting.

Lemma insert_by_timestamp_perm c l :
  insert_by_timestamp c l ≡ₚ c :: l.
Proof.
  induction l as [|x xs IH]; simpl; [done|].
  destruct (timestamp c <=? timestamp x); [done|].
  rewrite IH. apply Permutation_swap.
Qed.

Lemma sorted_by_timestamp_perm l : sorted_by_timestamp l ≡ₚ l.
Proof.
  induction l as [|x xs IH]; simpl; [done|].
  rewrite insert_by_timestamp_perm. by rewrite IH.
Qed.

Lemma insert_by_timestamp_sorted c l :
  Sorted timestamp_le l → Sorted timestamp_le (insert_by_timestamp c l).
Proof.
  induction 1 as [|x xs Hs IH Hhd]; simpl.
  - repeat constructor.
  - destruct (Z.leb_spec (timestamp c) (timestamp x)) as [Hle|Hgt].
    + constructor; [by constructor|]. by constructor.
    + constructor; [done|].
      destruct Hhd as [|y ys Hxy]; simpl.
      * constructor. unfold timestamp_le. lia.
      * destruct (timestamp c <=? timestamp y); constructor;
          unfold timestamp_le in *; lia.
Qed.

Lemma sorted_by_timestamp_sorted l :
  Sorted timestamp_le (sorted_by_timestamp l).
Proof.
  induction l; simpl; [constructor|].
  by apply insert_by_timestamp_sorted.
Qed.

(** A trace already in timestamp order is returned as it is. *)
Lemma sorted_by_timestamp_fixed l :
  Sorted timestamp_le l → sorted_by_timestamp l = l.
Proof.
  induction 1 as [|x xs Hs IH Hhd]; simpl; [done|].
  rewrite IH. destruct Hhd as [|y ys Hxy]; simpl; [done|].
  unfold timestamp_le in Hxy.
  by destruct (Z.leb_spec (timestamp x) (timestamp y)); [|lia].
Qed.

Lemma sorted_by_timestamp_idemp l :
  sorted_by_timestamp (sorted_by_timestamp l) = sorted_by_timestamp l.
Proof. apply sorted_by_timestamp_fixed, sorted_by_timestamp_sorted. Qed.

Lemma sorted_by_timestamp_nil_inv l : sorted_by_timestamp l = [] → l = [].
Proof.
  intros H. apply Permutation_nil_r. rewrite <- H.
  by rewrite sorted_by_timestamp_perm.
Qed.

(** Stability: the commands of any one timestamp keep their input order. *)
Lemma insert_by_timestamp_filter (t : Z) c l :
  filter (λ x, timestamp x = t) (insert_by_timestamp c l)
  = filter (λ x, timestamp x = t) (c :: l).
Proof.
  induction l as [|x xs IH]; [done|]. cbn [insert_by_timestamp].
  destruct (Z.leb_spec (timestamp c) (timestamp x)) as [Hle|Hgt]; [done|].
  rewrite filter_cons, IH, !filter_cons.
  repeat case_decide; try done; lia.
Qed.

Lemma sorted_by_timestamp_stable (t : Z) l :
  filter (λ x, timestamp x = t) (sorted_by_timestamp l)
  = filter (λ x, timestamp x = t) l.
Proof.
  induction l as [|x xs IH]; [done|]. cbn [sorted_by_timestamp foldr].
  rewrite insert_by_timestamp_filter, !filter_cons.
  fold (sorted_by_timestamp xs). by rewrite IH.
Qed.

Lemma last_default_irrelevant (l : list Command) (x d d' : Command) :
  List.last (x :: l) d = List.last (x :: l) d'.
Proof.
  revert x. induction l as [|y ys IH]; intros x; [done|].
  change (List.last (y :: ys) d = List.last (y :: ys) d'). apply IH.
Qed.

Lemma up_to_end_elem_of (l : list Command) (c : Command) :
  c ∈ up_to_end l → c ∈ l.
Proof.
  induction l as [|x xs IH]; cbn [up_to_end]; [done|].
  intros [->|Hin]%elem_of_cons; [by left|]. right.
  destruct (command x); try by apply IH. by apply elem_of_nil in Hin.
Qed.

Lemma up_to_end_sorted (l : list Command) :
  StronglySorted timestamp_le l → StronglySorted timestamp_le (up_to_end l).
Proof.
  induction 1 as [|x xs Hxs IH Hx]; cbn [up_to_end]; constructor.
  - destruct (command x); done || constructor.
  - apply Forall_forall. intros c Hc.
    apply (proj1 (Forall_forall _ _) Hx), up_to_end_elem_of.
    destruct (command x); done || by apply elem_of_nil in Hc.
Qed.

(** Without an [END_OF_SIMULATION] nothing is cut off. *)
Lemma up_to_end_all (l : list Command) :
  Forall (λ c, command c ≠ END_OF_SIMULATION) l → up_to_end l = l.
Proof.
  induction 1 as [|x xs Hx Hxs IH]; cbn [up_to_end]; [done|].
  rewrite IH. by destruct (command x).
Qed.

Lemma last_elem_of (l : list Command) (x d : Command) :
  List.last (x :: l) d ∈ x :: l.
Proof.
  revert x. induction l as [|y ys IH]; intros x; [by left|].
  right. apply (IH y).
Qed.

End Sorting.

(** ** Totals computed by [finalize] *)

Lemma finalize_totals (t : Q) (pc : PowerCalculator) :
  let r := result (finalize t pc) in
  total_energy r = (core_energy r + interface_energy r)%Q
  ∧ core_energy r
    = (activation_energy r + read_energy r + write_energy r
       + precharge_energy r + refresh_energy r + background_active_energy r
       + background_precharge_energy r + powerdown_energy r)%Q
  ∧ interface_energy r = (termination_energy r + dynamic_io_energy r)%Q
  ∧ simulation_time r = t.
Proof. unfold finalize. by destruct (Qltb 0 t). Qed.

Lemma finalize_counters (t : Q) (pc : PowerCalculator) :
  let r := result (finalize t pc) in
  let r0 := result pc in
  activation_energy r = activation_energy r0
  ∧ read_energy r = read_energy r0
  ∧ write_energy r = write_energy r0
  ∧ precharge_energy r = precharge_energy r0
  ∧ refresh_energy r = refresh_energy r0
  ∧ background_active_energy r = background_active_energy r0
  ∧ background_precharge_energy r = background_precharge_energy r0
  ∧ powerdown_energy r = powerdown_energy r0
  ∧ termination_energy r = termination_energy r0
  ∧ dynamic_io_energy r = dynamic_io_energy r0.
Proof. unfold finalize. by destruct (Qltb 0 t). Qed.

(** The shape of a run on a non-empty trace: the loop over the sorted trace
    returns, and the result is the one [finalize] leaves. *)
Lemma simulate_nonempty_inv (spec : MemorySpec) (workload : Workload)
    (sim sim' : Simulator) (r : PowerResult) :
  commands workload ≠ [] →
  simulate spec workload sim = Ok (sim', r) →
  ∃ sim1 last_time_ns final_time_ns,
    simulate_loop spec (sorted_by_timestamp (commands workload)) 0
      {| state_machine := state_machine sim;
         power_calculator := power_calculator sim;
         errors := []; warnings := [] |} = Ok (sim1, last_time_ns)
    ∧ r = result (finalize final_time_ns (power_calculator sim1))
    ∧ power_calculator sim' = finalize final_time_ns (power_calculator sim1)
    ∧ state_machine sim' = state_machine sim1
    ∧ errors sim' = errors sim1
    ∧ warnings sim' = warnings sim1.
Proof.
  intros Hne. unfold simulate.
  destruct (commands workload) as [|c l]; [done|]. cbn [mbind res_bind].
  destruct (simulate_loop _ _ _ _) as [[sim1 last]|e]; [|done].
  cbn [mbind res_bind].
  match goal with
  | |- context [if ?b then Ok ?x else ?m] =>
      destruct (if b then Ok x else m) as [final|]; [|done]
  end.
  intros [= <- <-]. by eexists _, _, _.
Qed.

(** C5. Simulating a trace gives the same outcome (the returned result with
    all its counters, duration and average power, and the simulator with its
    error and warning lists) as simulating the trace already sorted by
    timestamp.  The sorted trace is a permutation of the input in
    non-decreasing timestamp order in which the commands of one timestamp
    keep their input order.  The iterations of the driver's loop take the
    commands in that order: in a run on a non-empty trace the loop starts on
    the simulator with its lists cleared, its iterations take the commands
    of the sorted trace one after the other up to the first
    [END_OF_SIMULATION] (all of them, a permutation of the input, when there
    is none), so in non-decreasing timestamp order, and the simulator and
    the result that [simulate] returns are the ones these iterations leave,
    finalized. *)
Theorem simulate_sorted_trace (spec : MemorySpec) (workload : Workload)
    (sim : Simulator) :
  simulate spec {| commands := sorted_by_timestamp (commands workload);
                   metadata := metadata workload |} sim
  = simulate spec workload sim
  ∧ StronglySorted timestamp_le (sorted_by_timestamp (commands workload))
  ∧ sorted_by_timestamp (commands workload) ≡ₚ commands workload
  ∧ (∀ t, filter (λ c, timestamp c = t) (sorted_by_timestamp (commands workload))
          = filter (λ c, timestamp c = t) (commands workload))
  ∧ (∀ sim' r,
       commands workload ≠ [] →
       simulate spec workload sim = Ok (sim', r) →
       ∃ log sim1 last_time_ns final_time_ns,
         simulate_loop_log spec (sorted_by_timestamp (commands workload)) 0
           (cleared sim) = Ok (log, (sim1, last_time_ns))
         ∧ log.*2 !! 0%nat = Some (cleared sim)
         ∧ log.*1 = up_to_end (sorted_by_timestamp (commands workload))
         ∧ StronglySorted timestamp_le log.*1
         ∧ (Forall (λ c, command c ≠ END_OF_SIMULATION) (commands workload) →
            log.*1 ≡ₚ commands workload)
         ∧ state_machine sim' = state_machine sim1
         ∧ errors sim' = errors sim1
         ∧ warnings sim' = warnings sim1
         ∧ power_calculator sim'
           = finalize final_time_ns (power_calculator sim1)
         ∧ r = result (power_calculator sim')).
Proof.
  assert (Hsorted :
    StronglySorted timestamp_le (sorted_by_timestamp (commands workload))).
  { apply Sorted.Sorted_StronglySorted; [|apply sorted_by_timestamp_sorted].
    intros a b c. unfold timestamp_le. lia. }
  split; [|split; [done|split; [|split]]].
  - unfold simulate. cbn [commands].
    rewrite sorted_by_timestamp_idemp.
    destruct (commands workload) as [|c l] eqn:Hc; [done|].
    destruct (sorted_by_timestamp (c :: l)) as [|c' l'] eqn:Hs.
    { by apply sorted_by_timestamp_nil_inv in Hs. }
    by rewrite (last_default_irrelevant l' c' c' c).
  - apply sorted_by_timestamp_perm.
  - intros t. apply sorted_by_timestamp_stable.
  - intros sim' r Hne Hrun.
    apply simulate_nonempty_inv in Hrun
      as (sim1 & t1 & t2 & Hl & -> & Hpc & Hsm & Herr & Hwarn); [|done].
    apply simulate_loop_log_Ok in Hl as [log Hlog].
    pose proof (simulate_loop_log_commands _ _ _ _ _ _ Hlog) as Hcmds.
    exists log, sim1, t1, t2. split; [exact Hlog|]. split.
    { rewrite (simulate_loop_log_first _ _ _ _ _ _ Hlog).
      destruct (sorted_by_timestamp (commands workload)) eqn:Hs; [|done].
      by apply sorted_by_timestamp_nil_inv in Hs. }
    split; [done|]. split; [rewrite Hcmds; by apply up_to_end_sorted|].
    split.
    { intros Hnoend. rewrite Hcmds, up_to_end_all.
      - apply sorted_by_timestamp_perm.
      - by rewrite sorted_by_timestamp_perm. }
    by rewrite Hpc.
Qed.

(** The simple trace of the test suite given out of order: the iterations
    take activate, read, precharge and end marker, by timestamp. *)
Lemma simulate_sorted_trace_witness :
  ∃ sim' r log out,
    commands shuffled_simple_workload ≠ []
    ∧ simulate setUp_spec shuffled_simple_workload (Simulator_init setUp_spec)
      = Ok (sim', r)
    ∧ simulate_loop_log setUp_spec
        (sorted_by_timestamp (commands shuffled_simple_workload)) 0
        (cleared (Simulator_init setUp_spec)) = Ok (log, out)
    ∧ log.*1 = commands test_simple_workload
    ∧ state_machine sim' = state_machine out.1
    ∧ simulate setUp_spec shuffled_simple_workload (Simulator_init setUp_spec)
      = simulate setUp_spec test_simple_workload (Simulator_init setUp_spec).
Proof.
  assert (Hne : commands shuffled_simple_workload ≠ []) by discriminate.
  assert (Hrun : ∃ sim' r,
    simulate setUp_spec shuffled_simple_workload (Simulator_init setUp_spec)
    = Ok (sim', r)) by (eexists _, _; vm_compute; reflexivity).
  destruct Hrun as (sim' & r & Hrun).
  destruct (simulate_sorted_trace setUp_spec shuffled_simple_workload
              (Simulator_init setUp_spec)) as (Hsame & _ & _ & _ & Hiter).
  destruct (Hiter sim' r Hne Hrun)
    as (log & sim1 & t1 & t2 & Hlog & _ & Hcmds & _ & _ & Hsm & _).
  exists sim', r, log, (sim1, t1).
  split; [exact Hne|]. split; [exact Hrun|]. split; [exact Hlog|].
  split; [exact Hcmds|]. split; [exact Hsm|].
  rewrite <- Hsame. reflexivity.
Defined.

(** C4. After a run that called [finalize] (a non-empty trace), and after
    any run of a fresh simulator, [total_energy] is
    [core_energy + interface_energy], [core_energy] is the sum of the eight
    core counters, [interface_energy] is termination plus dynamic I/O, and
    [total_energy] is within 0.1 nJ of the sum of the ten counters. *)
Theorem simulate_totals (spec : MemorySpec) (workload : Workload)
    (sim sim' : Simulator) (r : PowerResult) :
  commands workload ≠ [] ∨ sim = Simulator_init spec →
  simulate spec workload sim = Ok (sim', r) →
  (total_energy r == core_energy r + interface_energy r)%Q
  ∧ (core_energy r
     == activation_energy r + read_energy r + write_energy r
        + precharge_energy r + refresh_energy r + background_active_energy r
        + background_precharge_energy r + powerdown_energy r)%Q
  ∧ (interface_energy r == termination_energy r + dynamic_io_energy r)%Q
  ∧ (Qabs (total_energy r - total_breakdown r) <= 1 # 10)%Q.
Proof.
  intros Hcase Hrun.
  assert (Hr : total_energy r = (core_energy r + interface_energy r)%Q
    ∧ core_energy r
      = (activation_energy r + read_energy r + write_energy r
         + precharge_energy r + refresh_energy r + background_active_energy r
         + background_precharge_energy r + powerdown_energy r)%Q
    ∧ interface_energy r = (termination_energy r + dynamic_io_energy r)%Q).
  { destruct (commands workload) as [|c l] eqn:Hc.
    - destruct Hcase as [?|Heq]; [done|subst sim].
      unfold simulate in Hrun. rewrite Hc in Hrun.
      revert Hrun. intros [= <- <-]. by vm_compute.
    - apply simulate_nonempty_inv in Hrun as (sim1 & t1 & t2 & _ & -> & _);
        [|by rewrite Hc].
      by destruct (finalize_totals t2 (power_calculator sim1)) as (? & ? & ? & _). }
  destruct Hr as (Ht & Hc & Hi).
  split; [by rewrite Ht|]. split; [by rewrite Hc|]. split; [by rewrite Hi|].
  assert (Hz : (total_energy r - total_breakdown r == 0)%Q).
  { unfold total_breakdown. rewrite Ht, Hi, Hc. ring. }
  rewrite Hz. by vm_compute.
Qed.

(** ** The empty trace *)

(** C9. Simulating an empty command list on a fresh simulator returns
    normally, leaves exactly one error (the empty-workload one) and no
    warning, and returns a result whose ten counters, derived totals,
    duration and average power are zero; it is the result [finalize] gives
    for a zero duration. *)
Theorem simulate_empty_workload (spec : MemorySpec)
    (md : option WorkloadMetadata) :
  ∃ sim' r,
    simulate spec {| commands := []; metadata := md |} (Simulator_init spec)
    = Ok (sim', r)
    ∧ errors sim' = [No_commands_in_workload]
    ∧ warnings sim' = []
    ∧ result (power_calculator sim') = r
    ∧ r = result (finalize 0 (power_calculator (Simulator_init spec)))
    ∧ activation_energy r = 0%Q ∧ read_energy r = 0%Q
    ∧ write_energy r = 0%Q ∧ precharge_energy r = 0%Q
    ∧ refresh_energy r = 0%Q ∧ background_active_energy r = 0%Q
    ∧ background_precharge_energy r = 0%Q ∧ powerdown_energy r = 0%Q
    ∧ termination_energy r = 0%Q ∧ dynamic_io_energy r = 0%Q
    ∧ core_energy r = 0%Q ∧ interface_energy r = 0%Q
    ∧ total_energy r = 0%Q
    ∧ simulation_time r = 0%Q ∧ average_power r = 0%Q.
Proof.
  eexists _, _. split; [reflexivity|]. cbn.
  repeat split; reflexivity.
Qed.

(** ** Legality checks of the bank state machine *)

Lemma Qltb_true (x y : Q) : Qltb x y = true ↔ (x < y)%Q.
Proof.
  unfold Qltb. rewrite negb_true_iff, <- not_true_iff_false, Qle_bool_iff.
  split; [apply Qnot_le_lt|apply Qlt_not_le].
Qed.

Lemma Qltb_false (x y : Q) : Qltb x y = false ↔ (y <= x)%Q.
Proof. unfold Qltb. by rewrite negb_false_iff, Qle_bool_iff. Qed.

Lemma Qleb_true (x y : Q) : Qleb x y = true ↔ (x <= y)%Q.
Proof. apply Qle_bool_iff. Qed.

Lemma Qleb_false (x y : Q) : Qleb x y = false ↔ (y < x)%Q.
Proof.
  unfold Qleb. rewrite <- not_true_iff_false, Qle_bool_iff.
  split; [apply Qnot_le_lt|apply Qlt_not_le].
Qed.

Lemma BankState_eqb_eq (a b : BankState) : BankState_eqb a b = true ↔ a = b.
Proof. by destruct a, b. Qed.

Lemma BankState_eqb_neq (a b : BankState) : BankState_eqb a b = false ↔ a ≠ b.
Proof. by destruct a, b. Qed.

(** What [can_activate] decides. *)
Lemma can_activate_true (spec : MemorySpec) (bi : BankStateInfo) (now : Q) :
  can_activate spec bi now = (true, None)
  ↔ state bi ≠ ACTIVE ∧ state bi ≠ REFRESHING
    ∧ ((0 < last_activate_time bi)%Q →
       (trc (timing spec) <= now - last_activate_time bi)%Q).
Proof.
  unfold can_activate.
  destruct (BankState_eqb (state bi) ACTIVE) eqn:Ha.
  { apply BankState_eqb_eq in Ha. split; [done|]. by intros (? & _). }
  destruct (BankState_eqb (state bi) REFRESHING) eqn:Hr.
  { apply BankState_eqb_eq in Hr. split; [done|]. by intros (_ & ? & _). }
  apply BankState_eqb_neq in Ha, Hr.
  destruct (Qltb 0 (last_activate_time bi)) eqn:Hpos; cbn [andb].
  - apply Qltb_true in Hpos.
    destruct (Qltb _ (trc (timing spec))) eqn:Hlt.
    + apply Qltb_true in Hlt. split; [done|]. intros (_ & _ & H).
      specialize (H Hpos). by apply Qle_not_lt in H.
    + apply Qltb_false in Hlt. by split.
  - apply Qltb_false in Hpos. split; [|done]. intros _.
    repeat split; try done. intros H. by apply Qlt_not_le in H.
Qed.

Lemma can_activate_outcome (spec : MemorySpec) (bi : BankStateInfo) (now : Q) :
  can_activate spec bi now = (true, None)
  ∨ ∃ e, can_activate spec bi now = (false, Some e).
Proof.
  unfold can_activate.
  repeat match goal with |- context [if ?b then _ else _] => destruct b end;
    eauto.
Qed.

(** What [can_precharge] decides. *)
Lemma can_precharge_true (spec : MemorySpec) (bi : BankStateInfo) (now : Q) :
  can_precharge spec bi now = (true, None)
  ↔ state bi ≠ IDLE ∧ state bi ≠ REFRESHING
    ∧ (state bi = ACTIVE → (0 <= last_activate_time bi)%Q →
       (tras (timing spec) <= now - last_activate_time bi)%Q)
    ∧ ((0 < last_write_time bi)%Q →
       (twr (timing spec) <= now - last_write_time bi)%Q).
Proof.
  unfold can_precharge.
  destruct (BankState_eqb (state bi) IDLE) eqn:Hi.
  { apply BankState_eqb_eq in Hi. split; [done|]. by intros (? & _). }
  destruct (BankState_eqb (state bi) REFRESHING) eqn:Hr.
  { apply BankState_eqb_eq in Hr. split; [done|]. by intros (_ & ? & _). }
  apply BankState_eqb_neq in Hi, Hr.
  assert (Hras :
    BankState_eqb (state bi) ACTIVE && Qleb 0 (last_activate_time bi)
      && Qltb (now - last_activate_time bi) (tras (timing spec)) = false
    ↔ (state bi = ACTIVE → (0 <= last_activate_time bi)%Q →
       (tras (timing spec) <= now - last_activate_time bi)%Q)).
  { rewrite !andb_false_iff, BankState_eqb_neq, Qleb_false, Qltb_false.
    split.
    - intros [[H|H]|H] Hs Hle; [done| |done]. by apply Qlt_not_le in H.
    - intros H.
      destruct (BankState_eqb (state bi) ACTIVE) eqn:Hs;
        [apply BankState_eqb_eq in Hs
        |apply BankState_eqb_neq in Hs; by left; left].
      destruct (Qlt_le_dec (last_activate_time bi) 0); [by left; right|].
      right. by apply H. }
  assert (Hwr :
    Qltb 0 (last_write_time bi)
      && Qltb (now - last_write_time bi) (twr (timing spec)) = false
    ↔ ((0 < last_write_time bi)%Q →
       (twr (timing spec) <= now - last_write_time bi)%Q)).
  { rewrite !andb_false_iff, !Qltb_false. split.
    - intros [H|H] Hpos; [|done]. by apply Qlt_not_le in Hpos.
    - intros H. destruct (Qlt_le_dec 0 (last_write_time bi)); [|by left].
      right. by apply H. }
  destruct (_ && _ && _) eqn:E1.
  { split; [done|]. intros (_ & _ & H & _). by apply Hras in H. }
  destruct (Qltb 0 _ && _) eqn:E2.
  { split; [done|]. intros (_ & _ & _ & H). by apply Hwr in H. }
  split; [|done]. intros _. repeat split; try done; [by apply Hras|by apply Hwr].
Qed.

Lemma can_precharge_outcome (spec : MemorySpec) (bi : BankStateInfo) (now : Q) :
  can_precharge spec bi now = (true, None)
  ∨ ∃ e, can_precharge spec bi now = (false, Some e).
Proof.
  unfold can_precharge.
  repeat match goal with |- context [if ?b then _ else _] => destruct b end;
    eauto.
Qed.

(** X24. What [execute_activate] does on an existing bank: it succeeds
    exactly when the bank is neither Active nor Refreshing and, whenever the
    recorded last-activate time is strictly positive, [current_time -
    last_activate_time >= tRC]; the tRC comparison is not made for a
    recorded time of 0 (see C6).  On success the bank becomes Active with
    the given open row and last-activate time [current_time], and nothing
    else changes; on failure the state machine is unchanged. *)
Theorem execute_activate_characterised (spec : MemorySpec)
    (sm : DRAMStateMachine) (rank bank row : Z) (bi : BankStateInfo) :
  banks sm !! (rank, bank) = Some bi →
  let legal :=
    state bi ≠ ACTIVE ∧ state bi ≠ REFRESHING
    ∧ ((0 < last_activate_time bi)%Q →
       (trc (timing spec) <= current_time sm - last_activate_time bi)%Q) in
  let activated :=
    {| banks :=
         <[(rank, bank) :=
             {| state := ACTIVE;
                open_row := Some row;
                last_activate_time := current_time sm;
                last_precharge_time := last_precharge_time bi;
                last_read_time := last_read_time bi;
                last_write_time := last_write_time bi;
                last_powerdown_time := last_powerdown_time bi |}]> (banks sm);
       last_refresh_time := last_refresh_time sm;
       current_time := current_time sm |} in
  (legal → execute_activate spec rank bank row sm = Ok (activated, (true, None)))
  ∧ (¬ legal →
     ∃ e, execute_activate spec rank bank row sm = Ok (sm, (false, Some e))).
Proof.
  intros Hbank legal activated.
  unfold execute_activate, get_bank_info. rewrite Hbank. cbn [mbind res_bind].
  pose proof (can_activate_true spec bi (current_time sm)) as Hiff.
  destruct (can_activate_outcome spec bi (current_time sm)) as [Hok|[e He]].
  - rewrite Hok. cbn [negb]. split; [done|].
    intros Hnot. destruct Hnot. by apply Hiff.
  - rewrite He. cbn [negb]. split; [|by eauto].
    intros Hlegal. apply Hiff in Hlegal. congruence.
Qed.

(** C7 (amended). [execute_precharge] on an existing bank succeeds exactly
    when the bank is neither Idle nor Refreshing, an Active bank with a
    non-negative last-activate time has [current_time - last_activate_time >=
    tRAS], and, whenever the recorded last-write time is strictly positive,
    [current_time - last_write_time >= tWR]; a bank written only at time 0
    has recorded time 0 and is not checked.  On success the bank becomes
    Idle with no open row and last-precharge time [current_time]; on failure
    the state machine is unchanged. *)
Theorem execute_precharge_characterised (spec : MemorySpec)
    (sm : DRAMStateMachine) (rank bank : Z) (bi : BankStateInfo) :
  banks sm !! (rank, bank) = Some bi →
  let legal :=
    state bi ≠ IDLE ∧ state bi ≠ REFRESHING
    ∧ (state bi = ACTIVE → (0 <= last_activate_time bi)%Q →
       (tras (timing spec) <= current_time sm - last_activate_time bi)%Q)
    ∧ ((0 < last_write_time bi)%Q →
       (twr (timing spec) <= current_time sm - last_write_time bi)%Q) in
  let closed :=
    {| banks :=
         <[(rank, bank) :=
             {| state := IDLE;
                open_row := None;
                last_activate_time := last_activate_time bi;
                last_precharge_time := current_time sm;
                last_read_time := last_read_time bi;
                last_write_time := last_write_time bi;
                last_powerdown_time := last_powerdown_time bi |}]> (banks sm);
       last_refresh_time := last_refresh_time sm;
       current_time := current_time sm |} in
  (legal → execute_precharge spec rank bank sm = Ok (closed, (true, None)))
  ∧ (¬ legal →
     ∃ e, execute_precharge spec rank bank sm = Ok (sm, (false, Some e))).
Proof.
  intros Hbank legal closed.
  unfold execute_precharge, get_bank_info. rewrite Hbank. cbn [mbind res_bind].
  pose proof (can_precharge_true spec bi (current_time sm)) as Hiff.
  destruct (can_precharge_outcome spec bi (current_time sm)) as [Hok|[e He]].
  - rewrite Hok. cbn [negb]. split; [done|].
    intros Hnot. destruct Hnot. by apply Hiff.
  - rewrite He. cbn [negb]. split; [|by eauto].
    intros Hlegal. apply Hiff in Hlegal. congruence.
Qed.

(** On a fresh [setUp] state machine, bank 0 of rank 0 can be activated. *)
Lemma execute_activate_characterised_witness :
  banks (DRAMStateMachine_init setUp_spec) !! (0, 0) = Some BankStateInfo_default
  ∧ ∃ sm',
      execute_activate setUp_spec 0 0 512 (DRAMStateMachine_init setUp_spec)
      = Ok (sm', (true, None)).
Proof.
  assert (H : banks (DRAMStateMachine_init setUp_spec) !! (0, 0)
              = Some BankStateInfo_default) by (vm_compute; reflexivity).
  split; [exact H|].
  destruct (execute_activate_characterised setUp_spec _ 0 0 512 _ H) as [Hok _].
  eexists. apply Hok. repeat split; discriminate.
Defined.

(** C6, the code at the failing input. With the [setUp] timings (tRC =
    45.75 ns): bank 0 is activated at time 0 and precharged at 40 ns; a
    second activate at 41 ns succeeds although only 41 ns have passed since
    the bank's activate. *)
Lemma activate_after_activate_at_zero_ignores_tRC :
  ∃ sm1 sm2 sm3 bi,
    execute_activate setUp_spec 0 0 512
      (update_time 0 (DRAMStateMachine_init setUp_spec)) = Ok (sm1, (true, None))
    ∧ execute_precharge setUp_spec 0 0 (update_time 40 sm1)
      = Ok (sm2, (true, None))
    ∧ banks sm2 !! (0, 0) = Some bi
    ∧ state bi = IDLE
    ∧ last_activate_time bi = 0%Q
    ∧ execute_activate setUp_spec 0 0 7 (update_time 41 sm2)
      = Ok (sm3, (true, None))
    ∧ ¬ (trc (timing setUp_spec)
         <= current_time (update_time 41 sm2) - last_activate_time bi)%Q.
Proof.
  eexists _, _, _, _.
  split; [vm_compute; reflexivity|].
  split; [vm_compute; reflexivity|].
  split; [vm_compute; reflexivity|].
  split; [reflexivity|]. split; [reflexivity|].
  split; [vm_compute; reflexivity|].
  intros H. vm_compute in H. by apply H.
Qed.

(** After an activate at time 0 and 40 ns, bank 0 can be precharged. *)
Lemma execute_precharge_characterised_witness :
  ∃ sm1 bi sm2,
    execute_activate setUp_spec 0 0 512
      (update_time 0 (DRAMStateMachine_init setUp_spec)) = Ok (sm1, (true, None))
    ∧ banks (update_time 40 sm1) !! (0, 0) = Some bi
    ∧ execute_precharge setUp_spec 0 0 (update_time 40 sm1)
      = Ok (sm2, (true, None)).
Proof.
  eexists _, _, _.
  split; [vm_compute; reflexivity|].
  match goal with |- ?P ∧ _ =>
    assert (Hb : P) by (vm_compute; reflexivity) end.
  split; [exact Hb|].
  destruct (execute_precharge_characterised setUp_spec _ 0 0 _ Hb) as [Hok _].
  apply Hok. repeat split; discriminate.
Defined.

(** C7, counterexample. With [trcd = 0] and tWR = 40 ns: bank 0 is activated
    and written at time 0; a precharge at 35 ns succeeds although only 35 ns
    have passed since the write. *)
Lemma precharge_after_write_at_zero_ignores_tWR :
  ∃ sm1 sm2 sm3 bi,
    execute_activate zero_trcd_spec 0 0 512
      (update_time 0 (DRAMStateMachine_init zero_trcd_spec))
    = Ok (sm1, (true, None))
    ∧ execute_write zero_trcd_spec 0 0 (update_time 0 sm1)
      = Ok (sm2, (true, None))
    ∧ banks sm2 !! (0, 0) = Some bi
    ∧ state bi = ACTIVE
    ∧ last_write_time bi = 0%Q
    ∧ execute_precharge zero_trcd_spec 0 0 (update_time 35 sm2)
      = Ok (sm3, (true, None))
    ∧ ¬ (twr (timing zero_trcd_spec)
         <= current_time (update_time 35 sm2) - last_write_time bi)%Q.
Proof.
  eexists _, _, _, _.
  split; [vm_compute; reflexivity|].
  split; [vm_compute; reflexivity|].
  split; [vm_compute; reflexivity|].
  split; [reflexivity|]. split; [reflexivity|].
  split; [vm_compute; reflexivity|].
  intros H. vm_compute in H. by apply H.
Qed.

(** ** Precharge and precharge-all *)

Section Precharge.

Variable spec : MemorySpec.

Lemma execute_precharge_inv rank b sm sm' s e :
  execute_precharge spec rank b sm = Ok (sm', (s, e)) →
  ∃ bi, banks sm !! (rank, b) = Some bi
    ∧ ((s = true ∧ e = None
        ∧ can_precharge spec bi (current_time sm) = (true, None)
        ∧ sm' = set_bank sm rank b (precharged bi (current_time sm)))
       ∨ (s = false ∧ sm' = sm
          ∧ ∃ m, e = Some m
              ∧ can_precharge spec bi (current_time sm) = (false, Some m))).
Proof.
  unfold execute_precharge, get_bank_info.
  destruct (banks sm !! (rank, b)) as [bi|]; [|done]. cbn [mbind res_bind].
  intros H. exists bi. split; [done|].
  destruct (can_precharge_outcome spec bi (current_time sm)) as [Hok|[m Hm]].
  - rewrite Hok in H. cbn [negb] in H. injection H as <- <- <-. by left.
  - rewrite Hm in H. cbn [negb] in H. injection H as <- <- <-.
    right. eauto.
Qed.

(** The loop of precharge-all, started in [sm] with the loop variables
    [success] and [error_msg]; [sm0] is a state machine that agrees with
    [sm] on the banks still to be visited. *)
Lemma precharge_all_inv rank sm0 bs :
  ∀ sm success error_msg sm' ok err,
  NoDup bs →
  current_time sm = current_time sm0 →
  (∀ b, b ∈ bs → banks sm !! (rank, b) = banks sm0 !! (rank, b)) →
  precharge_all spec rank bs sm success error_msg = Ok (sm', (ok, err)) →
  current_time sm' = current_time sm
  ∧ last_refresh_time sm' = last_refresh_time sm
  ∧ (∀ k, (∀ b, b ∈ bs → k ≠ (rank, b)) → banks sm' !! k = banks sm !! k)
  ∧ (∀ b, b ∈ bs →
     ∃ bi, banks sm0 !! (rank, b) = Some bi
       ∧ banks sm' !! (rank, b)
         = Some (if (can_precharge spec bi (current_time sm0)).1
                 then precharged bi (current_time sm0) else bi))
  ∧ (ok = true ↔
     success = true
     ∧ ∀ b, b ∈ bs → precharge_check spec sm0 rank b = Some (true, None))
  ∧ (ok = false →
     (∃ l1 b l2 e,
        bs = l1 ++ b :: l2
        ∧ precharge_check spec sm0 rank b = Some (false, Some e)
        ∧ err = Some e
        ∧ ∀ b', b' ∈ l2 →
            precharge_check spec sm0 rank b' = Some (true, None))
     ∨ (success = false ∧ err = error_msg
        ∧ ∀ b, b ∈ bs →
            precharge_check spec sm0 rank b = Some (true, None))).
Proof.
  induction bs as [|b bs' IH];
    intros sm success error_msg sm' ok err Hnd Ht Hagree Hrun.
  { cbn in Hrun. injection Hrun as <- <- <-.
    split; [done|]. split; [done|]. split; [done|].
    split; [by intros ? ?%elem_of_nil|]. split.
    - split.
      + intros ->. split; [done|]. by intros ? ?%elem_of_nil.
      + by intros [-> _].
    - intros ->. right. split; [done|]. split; [done|].
      by intros ? ?%elem_of_nil. }
  apply NoDup_cons in Hnd as [Hnotin Hnd].
  cbn [precharge_all] in Hrun.
  destruct (execute_precharge spec rank b sm) as [[sm1 [s e]]|] eqn:Hex;
    [|done].
  cbn [mbind res_bind] in Hrun.
  apply execute_precharge_inv in Hex as (bi & Hbi & Hcase).
  assert (Hbi0 : banks sm0 !! (rank, b) = Some bi).
  { rewrite <- Hbi. symmetry. apply Hagree. by left. }
  assert (Hchk : precharge_check spec sm0 rank b
                 = Some (can_precharge spec bi (current_time sm0))).
  { unfold precharge_check. by rewrite Hbi0. }
  destruct Hcase as [(-> & -> & Hcan & ->)|(-> & -> & m & -> & Hcan)];
    cbn [negb] in Hrun.
  - (* bank [b] is precharged *)
    rewrite Ht in Hcan.
    apply IH in Hrun as (Hct & Hlr & Hother & Hbanks & Hok & Hfail);
      [|done|done|].
    2:{ intros b' Hb'. cbn. rewrite lookup_insert_ne; [|congruence].
        apply Hagree. by right. }
    split; [done|]. split; [done|]. split; [|split; [|split]].
    + intros k Hk. rewrite Hother.
      * cbn. rewrite lookup_insert_ne; [done|]. intros <-.
        apply (Hk b); [by left|done].
      * intros b' Hb'. apply Hk. by right.
    + intros b' [->|Hb']%elem_of_cons; [|by apply Hbanks].
      exists bi. split; [done|]. rewrite Hother.
      * cbn. rewrite lookup_insert_eq, Hcan, Ht. done.
      * intros b' Hb' [= ->]. done.
    + rewrite Hok. split.
      * intros [-> Hall]. split; [done|].
        intros b' [->|Hb']%elem_of_cons; [|by apply Hall].
        by rewrite Hchk, Hcan.
      * intros [-> Hall]. split; [done|]. intros b' Hb'. apply Hall.
        by right.
    + intros Hfalse.
      destruct (Hfail Hfalse) as
        [(l1 & b' & l2 & e & -> & Hb' & -> & Hl2)|(-> & -> & Hall)].
      * left. exists (b :: l1), b', l2, e. done.
      * right. repeat split; try done.
        intros b' [->|Hb']%elem_of_cons; [|by apply Hall].
        by rewrite Hchk, Hcan.
  - (* bank [b] refuses the precharge *)
    rewrite Ht in Hcan.
    apply IH in Hrun as (Hct & Hlr & Hother & Hbanks & Hok & Hfail);
      [|done|done|].
    2:{ intros b' Hb'. apply Hagree. by right. }
    split; [done|]. split; [done|]. split; [|split; [|split]].
    + intros k Hk. apply Hother. intros b' Hb'. apply Hk. by right.
    + intros b' [->|Hb']%elem_of_cons; [|by apply Hbanks].
      exists bi. split; [done|]. rewrite Hother.
      * by rewrite Hcan, Hbi.
      * intros b' Hb' [= ->]. done.
    + split.
      * intros Hyes. apply Hok in Hyes as [? _]. done.
      * intros [_ Hall]. specialize (Hall b (list_elem_of_here _ _)).
        rewrite Hchk, Hcan in Hall. done.
    + intros Hfalse. left.
      destruct (Hfail Hfalse) as
        [(l1 & b' & l2 & e & -> & Hb' & -> & Hl2)|(_ & -> & Hall)].
      * exists (b :: l1), b', l2, e. done.
      * exists [], b, bs', m. repeat split; try done.
        by rewrite Hchk, Hcan.
Qed.

End Precharge.

(** [range n] lists [0 .. n-1] in increasing order. *)
Lemma elem_of_range (n b : Z) : b ∈ range n ↔ 0 <= b < n.
Proof. unfold range. rewrite elem_of_seqZ. lia. Qed.

Lemma NoDup_range (n : Z) : NoDup (range n).
Proof. apply NoDup_seqZ. Qed.

Lemma range_split_after (n b b' : Z) (l1 l2 : list Z) :
  range n = l1 ++ b :: l2 → b < b' < n → b' ∈ l2.
Proof.
  unfold range. intros Hsplit Hlt.
  assert (Hb : seqZ 0 n !! length l1 = Some b).
  { rewrite Hsplit. by apply list_lookup_middle. }
  apply lookup_seqZ in Hb as [Hb _].
  assert (Hb' : seqZ 0 n !! Z.to_nat b' = Some b').
  { apply lookup_seqZ. lia. }
  rewrite Hsplit, lookup_app_r in Hb' by lia.
  destruct (Z.to_nat b' - length l1)%nat as [|i] eqn:Hi; [lia|].
  cbn in Hb'. by eapply list_elem_of_lookup_2.
Qed.

(** ** Failed commands *)

Section Failure.

Variable spec : MemorySpec.

Lemma execute_activate_failure rank bank row sm sm' e :
  execute_activate spec rank bank row sm = Ok (sm', (false, e)) → sm' = sm.
Proof.
  unfold execute_activate, get_bank_info.
  destruct (banks sm !! (rank, bank)) as [bi|]; [|done]. cbn [mbind res_bind].
  destruct (can_activate spec bi (current_time sm)) as [[] ?]; cbn [negb];
    congruence.
Qed.

Lemma execute_read_failure rank bank sm sm' e :
  execute_read spec rank bank sm = Ok (sm', (false, e)) → sm' = sm.
Proof.
  unfold execute_read, get_bank_info.
  destruct (banks sm !! (rank, bank)) as [bi|]; [|done]. cbn [mbind res_bind].
  destruct (can_read spec bi (current_time sm)) as [[] ?]; cbn [negb];
    congruence.
Qed.

Lemma execute_write_failure rank bank sm sm' e :
  execute_write spec rank bank sm = Ok (sm', (false, e)) → sm' = sm.
Proof.
  unfold execute_write, get_bank_info.
  destruct (banks sm !! (rank, bank)) as [bi|]; [|done]. cbn [mbind res_bind].
  destruct (can_write spec bi (current_time sm)) as [[] ?]; cbn [negb];
    congruence.
Qed.

Lemma execute_precharge_failure rank bank sm sm' e :
  execute_precharge spec rank bank sm = Ok (sm', (false, e)) → sm' = sm.
Proof.
  intros (bi & _ & [(? & _)|(_ & ? & _)])%execute_precharge_inv; done.
Qed.

Lemma execute_refresh_failure sm sm' e :
  execute_refresh spec sm = Ok (sm', (false, e)) → sm' = sm.
Proof.
  unfold execute_refresh.
  destruct (can_refresh spec _ _) as [[] ?]; cbn [negb]; congruence.
Qed.

End Failure.

(** C1 (amended). When the dispatch of a command reports failure, the state
    machine (every bank's state, open row and timestamps, and the refresh
    time) is exactly as before, for every command kind other than
    precharge-all.  A failing precharge-all keeps the clock and the refresh
    time; every bank of the command's rank whose own precharge was legal is
    precharged (Idle, no open row, last-precharge time set to the current
    time), every bank of the rank whose precharge was not legal, and every
    bank of another rank, is unchanged; at least one bank of the rank was
    not legal. *)
Theorem failed_command_state (spec : MemorySpec) (cmd : Command)
    (rank bank : Z) (sm sm' : DRAMStateMachine) (err : option Message) :
  _execute_command spec cmd rank bank sm = Ok (sm', (false, err)) →
  (command cmd ≠ PREA → sm' = sm)
  ∧ (command cmd = PREA →
     let n := nbr_of_banks (architecture spec) in
     current_time sm' = current_time sm
     ∧ last_refresh_time sm' = last_refresh_time sm
     ∧ (∀ b, 0 <= b < n →
          ∃ bi,
            banks sm !! (rank, b) = Some bi
            ∧ (can_precharge spec bi (current_time sm) = (true, None) →
               banks sm' !! (rank, b)
               = Some {| state := IDLE;
                         open_row := None;
                         last_activate_time := last_activate_time bi;
                         last_precharge_time := current_time sm;
                         last_read_time := last_read_time bi;
                         last_write_time := last_write_time bi;
                         last_powerdown_time := last_powerdown_time bi |})
            ∧ (can_precharge spec bi (current_time sm) ≠ (true, None) →
               banks sm' !! (rank, b) = Some bi))
     ∧ (∀ r b, ¬ (r = rank ∧ 0 <= b < n) →
          banks sm' !! (r, b) = banks sm !! (r, b))
     ∧ (∃ b bi e,
          0 <= b < n
          ∧ banks sm !! (rank, b) = Some bi
          ∧ can_precharge spec bi (current_time sm) = (false, Some e))).
Proof.
  unfold _execute_command. intros Hrun. split.
  - intros Hkind. destruct (command cmd); try done.
    + destruct (row cmd); [by eapply execute_activate_failure|congruence].
    + by eapply execute_read_failure.
    + by eapply execute_write_failure.
    + by eapply execute_precharge_failure.
    + by eapply execute_refresh_failure.
    + cbn zeta in Hrun.
      match type of Hrun with
      | context [match ?o with Some _ => _ | None => _ end] => destruct o
      end; [by eapply execute_refresh_failure|congruence].
  - intros Hkind. cbn zeta. rewrite Hkind in Hrun.
    eapply (precharge_all_inv spec rank sm) in Hrun
      as (Hct & Hlr & Hother & Hbanks & _ & Hfail);
      [|apply NoDup_range|done|done].
    split; [done|]. split; [done|]. split; [|split].
    + intros b Hb.
      destruct (Hbanks b) as (bi & Hbi & Hbi'); [by apply elem_of_range|].
      exists bi. split; [done|]. split.
      * intros Hok. by rewrite Hok in Hbi'.
      * intros Hno.
        destruct (can_precharge_outcome spec bi (current_time sm))
          as [Hok|[e He]]; [done|].
        by rewrite He in Hbi'.
    + intros r b Hout. apply Hother.
      intros b' Hb'%elem_of_range [= -> ->]. by apply Hout.
    + destruct (Hfail eq_refl)
        as [(l1 & b & l2 & e & Hsplit & Hb & _ & _)|[? _]]; [|done].
      assert (Hin : 0 <= b < nbr_of_banks (architecture spec)).
      { apply elem_of_range. rewrite Hsplit.
        apply elem_of_app. right. by left. }
      destruct (Hbanks b) as (bi & Hbi & _); [by apply elem_of_range|].
      exists b, bi, e. split; [done|]. split; [done|].
      revert Hb. unfold precharge_check. rewrite Hbi. cbn.
      by intros [= ->].
Qed.

(** Bank 0 of the [setUp] device is activated at time 0; a precharge-all at
    62.4 ns fails (banks 1 to 3 are idle) and leaves bank 0 precharged and
    bank 1 as it was. *)
Lemma failed_command_state_witness :
  let prea := Command_init 200 PREA None (Some 0) None None in
  ∃ sm1 sm2 err bi0 bi1,
    execute_activate setUp_spec 0 0 512
      (update_time 0 (DRAMStateMachine_init setUp_spec)) = Ok (sm1, (true, None))
    ∧ _execute_command setUp_spec prea 0 0 (update_time 62.4 sm1)
      = Ok (sm2, (false, err))
    ∧ banks sm1 !! (0, 0) = Some bi0
    ∧ banks sm1 !! (0, 1) = Some bi1
    ∧ state bi0 = ACTIVE
    ∧ banks sm2 !! (0, 0)
      = Some {| state := IDLE;
                open_row := None;
                last_activate_time := last_activate_time bi0;
                last_precharge_time := 62.4;
                last_read_time := last_read_time bi0;
                last_write_time := last_write_time bi0;
                last_powerdown_time := last_powerdown_time bi0 |}
    ∧ banks sm2 !! (0, 1) = Some bi1.
Proof.
  intros prea.
  assert (Hact : ∃ sm1 bi0 bi1,
    execute_activate setUp_spec 0 0 512
      (update_time 0 (DRAMStateMachine_init setUp_spec)) = Ok (sm1, (true, None))
    ∧ banks sm1 !! (0, 0) = Some bi0
    ∧ banks sm1 !! (0, 1) = Some bi1
    ∧ state bi0 = ACTIVE
    ∧ can_precharge setUp_spec bi0 62.4 = (true, None)
    ∧ can_precharge setUp_spec bi1 62.4 ≠ (true, None)).
  { eexists _, _, _. split; [vm_compute; reflexivity|].
    split; [vm_compute; reflexivity|]. split; [vm_compute; reflexivity|].
    split; [reflexivity|]. split; [by vm_compute|by vm_compute]. }
  destruct Hact as (sm1 & bi0 & bi1 & Hact & Hbi0 & Hbi1 & Hs & Hok & Hno).
  assert (Hrun : ∃ sm2 err,
    _execute_command setUp_spec prea 0 0 (update_time 62.4 sm1)
    = Ok (sm2, (false, err))).
  { revert Hact. intros [= <-]. eexists _, _. vm_compute. reflexivity. }
  destruct Hrun as (sm2 & err & Hrun).
  destruct (failed_command_state _ _ _ _ _ _ _ Hrun) as [_ Hprea].
  destruct (Hprea eq_refl) as (_ & _ & Hbanks & _).
  exists sm1, sm2, err, bi0, bi1.
  split; [exact Hact|]. split; [exact Hrun|]. split; [exact Hbi0|].
  split; [exact Hbi1|]. split; [exact Hs|]. split.
  - destruct (Hbanks 0) as (bi & Hbi & Hlegal & _); [by vm_compute|].
    cbn [banks update_time] in Hbi. rewrite Hbi0 in Hbi.
    revert Hbi. intros [= <-]. by apply Hlegal.
  - destruct (Hbanks 1) as (bi & Hbi & _ & Hillegal); [by vm_compute|].
    cbn [banks update_time] in Hbi. rewrite Hbi1 in Hbi.
    revert Hbi. intros [= <-]. by apply Hillegal.
Defined.

(** C1, counterexample. Trace [ACT bank 0 @0, PREA @200 cycles] on the
    [setUp] device: the precharge-all is recorded as an error (banks 1..3 are
    idle), yet bank 0, Active before the command, is Idle after it. *)
Lemma failed_precharge_all_changes_a_bank :
  let act := Command_init 0 ACT (Some 0) (Some 0) (Some 512) None in
  let prea := Command_init 200 PREA None (Some 0) None None in
  let now := (inject_Z 200 * tck (timing setUp_spec))%Q in
  ∃ sim1 t1 sm2 bi sim2 t2,
    simulate_loop setUp_spec [act] 0 (Simulator_init setUp_spec) = Ok (sim1, t1)
    ∧ banks (state_machine sim1) !! (0, 0) = Some bi
    ∧ state bi = ACTIVE
    ∧ _execute_command setUp_spec prea 0 0 (update_time now (state_machine sim1))
      = Ok (sm2, (false, Some Bank_already_idle))
    ∧ banks sm2 !! (0, 0) = Some (precharged bi now)
    ∧ banks sm2 !! (0, 0) ≠ banks (state_machine sim1) !! (0, 0)
    ∧ simulate_loop setUp_spec [act; prea] 0 (Simulator_init setUp_spec)
      = Ok (sim2, t2)
    ∧ errors sim2 = [Command_error PREA 200 (Some Bank_already_idle)]
    ∧ state_machine sim2 = sm2.
Proof.
  intros act prea now. eexists _, _, _, _, _, _.
  split; [vm_compute; reflexivity|].
  split; [vm_compute; reflexivity|].
  split; [reflexivity|].
  split; [vm_compute; reflexivity|].
  split; [vm_compute; reflexivity|].
  split; [by vm_compute|].
  split; [vm_compute; reflexivity|].
  split; [reflexivity|]. reflexivity.
Qed.

(** C3 (amended). A precharge-all attempts the precharge of every bank
    [0 .. nbr_of_banks-1] of the command's rank, whatever the outcome at the
    other banks: each bank whose precharge is legal is precharged, each other
    bank is left as it is.  The command succeeds exactly when every bank's
    precharge is legal; when it fails, it carries the error of the last
    failing bank (the highest-indexed bank whose precharge failed). *)
Theorem precharge_all_outcome (spec : MemorySpec) (cmd : Command)
    (rank bank : Z) (sm sm' : DRAMStateMachine) (ok : bool)
    (err : option Message) :
  command cmd = PREA →
  _execute_command spec cmd rank bank sm = Ok (sm', (ok, err)) →
  let n := nbr_of_banks (architecture spec) in
  (∀ b, 0 <= b < n →
     ∃ bi, banks sm !! (rank, b) = Some bi
       ∧ banks sm' !! (rank, b)
         = Some (if (can_precharge spec bi (current_time sm)).1
                 then precharged bi (current_time sm) else bi))
  ∧ (ok = true ↔
     ∀ b, 0 <= b < n → precharge_check spec sm rank b = Some (true, None))
  ∧ (ok = false →
     ∃ b e,
       0 <= b < n
       ∧ precharge_check spec sm rank b = Some (false, Some e)
       ∧ err = Some e
       ∧ ∀ b', b < b' < n →
           precharge_check spec sm rank b' = Some (true, None)).
Proof.
  intros Hkind Hrun n. subst n.
  unfold _execute_command in Hrun. rewrite Hkind in Hrun.
  eapply (precharge_all_inv spec rank sm) in Hrun
    as (_ & _ & _ & Hbanks & Hok & Hfail); [|apply NoDup_range|done|done].
  split; [|split].
  - intros b Hb. by apply Hbanks, elem_of_range.
  - rewrite Hok. split.
    + intros [_ Hall] b Hb. by apply Hall, elem_of_range.
    + intros Hall. split; [done|]. intros b Hb%elem_of_range. by apply Hall.
  - intros Hfalse.
    destruct (Hfail Hfalse) as [(l1 & b & l2 & e & Hsplit & Hb & -> & Hl2)|[? _]];
      [|done].
    exists b, e. split; [|split; [done|split; [done|]]].
    + apply elem_of_range. rewrite Hsplit.
      apply elem_of_app. right. by left.
    + intros b' Hb'. apply Hl2. by eapply range_split_after.
Qed.

(** A precharge-all right after an activate of bank 0 fails. *)
Lemma precharge_all_outcome_witness :
  let prea := Command_init 10 PREA None (Some 0) None None in
  ∃ sm1 sm2 ok err,
    execute_activate setUp_spec 0 0 512
      (update_time 0 (DRAMStateMachine_init setUp_spec)) = Ok (sm1, (true, None))
    ∧ _execute_command setUp_spec prea 0 0 (update_time 3.12 sm1)
      = Ok (sm2, (ok, err))
    ∧ (ok = false →
       ∃ b e,
         0 <= b < 4
         ∧ precharge_check setUp_spec (update_time 3.12 sm1) 0 b
           = Some (false, Some e)
         ∧ err = Some e
         ∧ ∀ b', b < b' < 4 →
             precharge_check setUp_spec (update_time 3.12 sm1) 0 b'
             = Some (true, None)).
Proof.
  intros prea. eexists _, _, _, _.
  split; [vm_compute; reflexivity|].
  match goal with |- ?P ∧ _ =>
    assert (H : P) by (vm_compute; reflexivity) end.
  split; [exact H|].
  exact (proj2 (proj2 (precharge_all_outcome _ prea _ _ _ _ _ _ eq_refl H))).
Defined.

(** C3, counterexample. On the [setUp] device bank 0 is activated at time 0;
    a precharge-all 10 cycles later fails at bank 0 (tRAS) and at the idle
    banks 1..3.  The first failing bank is bank 0, but the command carries
    the error of bank 3. *)
Lemma precharge_all_reports_last_failure :
  let prea := Command_init 10 PREA None (Some 0) None None in
  let now := (inject_Z 10 * tck (timing setUp_spec))%Q in
  ∃ sm1 sm2 first_error,
    execute_activate setUp_spec 0 0 512
      (update_time 0 (DRAMStateMachine_init setUp_spec)) = Ok (sm1, (true, None))
    ∧ precharge_check setUp_spec (update_time now sm1) 0 0
      = Some (false, Some first_error)
    ∧ first_error
      = tRAS_violation (now - 0) (tras (timing setUp_spec))
    ∧ precharge_check setUp_spec (update_time now sm1) 0 3
      = Some (false, Some Bank_already_idle)
    ∧ _execute_command setUp_spec prea 0 0 (update_time now sm1)
      = Ok (sm2, (false, Some Bank_already_idle))
    ∧ Some Bank_already_idle ≠ Some first_error.
Proof.
  intros prea now. eexists _, _, _.
  split; [vm_compute; reflexivity|].
  split; [reflexivity|].
  split; [reflexivity|].
  split; [vm_compute; reflexivity|].
  split; [vm_compute; reflexivity|].
  discriminate.
Qed.

(** ** Energy of read and write commands *)

(** The dynamic I/O energy of a burst, in nJ: [0.5 * C_DQ * V_IO^2] pJ per
    transition, [burst_length * width * 0.5] transitions. *)
Lemma calculate_io_power_read_value (spec : MemorySpec) (bl : Z) (d : Q) :
  ¬ (tck (timing spec) == 0)%Q →
  pow_fits (vddq (power spec)) 2 →
  int_fits (bl * width (architecture spec)) →
  ∃ io, calculate_io_power_read spec bl d = Ok io
    ∧ (io == (1 # 2) * dq_capacitance * (vddq (power spec) * vddq (power spec))
             * (inject_Z bl * inject_Z (width (architecture spec))
                * switching_activity) / 1000)%Q.
Proof.
  intros Htck Hpow Hint. unfold calculate_io_power_read.
  destruct (Qeq_bool (tck (timing spec) * 2) 0) eqn:Hz.
  { apply Qeq_bool_iff in Hz. destruct Htck. lra. }
  rewrite (float_pow_fits _ _ Hpow), (int_mul_float_fits _ _ Hint).
  cbn [mbind res_bind].
  eexists. split; [done|]. rewrite inject_Z_mult.
  change (vddq (power spec) ^ 2)%Q
    with (vddq (power spec) * vddq (power spec))%Q.
  reflexivity.
Qed.

(** Halving the voltage keeps its square in range. *)
Lemma pow_fits_half (x : Q) : pow_fits x 2 → pow_fits (x / 2) 2.
Proof.
  unfold pow_fits. intros Hx.
  eapply Qle_lt_trans; [|exact Hx].
  change ((x / 2) ^ 2)%Q with ((x / 2) * (x / 2))%Q.
  change (x ^ 2)%Q with (x * x)%Q.
  rewrite !Qabs_Qmult.
  assert (Hh : (Qabs (x / 2) == Qabs x / 2)%Q).
  { unfold Qdiv. rewrite Qabs_Qmult. reflexivity. }
  rewrite Hh. pose proof (Qabs_nonneg x) as Ha. revert Ha.
  generalize (Qabs x). intros a Ha.
  assert (Hsq : (0 <= a * a)%Q) by by apply Qmult_le_0_compat.
  assert (Heq : (a / 2 * (a / 2) == a * a / 4)%Q) by field.
  rewrite Heq. revert Hsq. generalize (a * a)%Q. intros s Hs.
  apply Qle_shift_div_r; [done|]. lra.
Qed.

Lemma calculate_termination_power_value (spec : MemorySpec) (d : Q)
    (is_read : bool) :
  pow_fits (vddq (power spec) / 2) 2 →
  calculate_termination_power spec d is_read
  = Ok ((vddq (power spec) / 2) ^ 2 / odt_resistance * 1000 * d
        * (if is_read then 1 # 2 else 1 # 2) / 1000)%Q.
Proof.
  intros Hpow. unfold calculate_termination_power.
  by rewrite (float_pow_fits _ _ Hpow).
Qed.

(** X23. Where [process_command] puts the energy of a burst (see C2): for a
    read (write) command processed with a non-zero burst length, explicit or
    defaulted from the architecture, a non-zero clock period and an I/O
    voltage and burst size in the float range, the dynamic I/O energy
    [0.5 * C_DQ * V_IO^2 * (burst_length * width * 0.5) / 1000] nJ is added,
    together with the core component [(I - I_DD3N) * V_DD * duration /
    1000], to the read-energy (write-energy) counter; the
    [dynamic_io_energy] counter and the write-energy (read-energy) counter
    are not changed. *)
Theorem read_write_io_energy_counter (spec : MemorySpec) (rank bank : Z)
    (current_time_ns : Q) (next_time_ns : option Q)
    (row column burst_length : option Z) (pc : PowerCalculator) :
  ¬ (tck (timing spec) == 0)%Q →
  effective_burst_length spec burst_length ≠ 0 →
  pow_fits (vddq (power spec)) 2 →
  int_fits (effective_burst_length spec burst_length
            * width (architecture spec)) →
  let bl := effective_burst_length spec burst_length in
  let duration_ns :=
    match next_time_ns with
    | Some n => if Qtruthy n then (n - current_time_ns)%Q else tck (timing spec)
    | None => tck (timing spec)
    end in
  let io :=
    ((1 # 2) * dq_capacitance * (vddq (power spec) * vddq (power spec))
     * (inject_Z bl * inject_Z (width (architecture spec)) * switching_activity)
     / 1000)%Q in
  (∃ pc' energy,
     process_command spec RD rank bank current_time_ns next_time_ns
       row column burst_length pc = Ok (pc', energy)
     ∧ (read_energy (result pc')
        == read_energy (result pc)
           + ((idd4r (power spec) - idd3n (power spec)) * vdd (power spec)
              * duration_ns / 1000 + io))%Q
     ∧ dynamic_io_energy (result pc') = dynamic_io_energy (result pc)
     ∧ write_energy (result pc') = write_energy (result pc))
  ∧ (∃ pc' energy,
       process_command spec WR rank bank current_time_ns next_time_ns
         row column burst_length pc = Ok (pc', energy)
       ∧ (write_energy (result pc')
          == write_energy (result pc)
             + ((idd4w (power spec) - idd3n (power spec)) * vdd (power spec)
                * duration_ns / 1000 + io))%Q
       ∧ dynamic_io_energy (result pc') = dynamic_io_energy (result pc)
       ∧ read_energy (result pc') = read_energy (result pc)).
Proof.
  intros Htck Hbl Hpow Hint bl duration_ns io.
  destruct (calculate_io_power_read_value spec bl duration_ns Htck Hpow Hint)
    as (v & Hv & Hio).
  assert (Htruthy : int_truthy (Some bl) = Some bl).
  { cbn. by destruct (Z.eqb_spec bl 0). }
  pose proof (pow_fits_half _ Hpow) as Hhalf.
  split.
  - unfold process_command. fold duration_ns. fold bl.
    unfold calculate_read_power. rewrite Htruthy, Hv. cbn [mbind res_bind].
    rewrite (calculate_termination_power_value _ _ _ Hhalf).
    cbn [mbind res_bind].
    eexists _, _. split; [reflexivity|]. cbn.
    split; [|done]. by rewrite Hio.
  - unfold process_command. fold duration_ns. fold bl.
    unfold calculate_write_power, calculate_io_power_write.
    rewrite Htruthy, Hv. cbn [mbind res_bind].
    rewrite (calculate_termination_power_value _ _ _ Hhalf).
    cbn [mbind res_bind].
    eexists _, _. split; [reflexivity|]. cbn.
    split; [|done]. by rewrite Hio.
Qed.

(** A read of burst length 16 on the [setUp] device, from 15.6 ns to 46.8 ns:
    the read counter receives 3.432 nJ (core) + 0.61952 nJ (I/O). *)
Lemma read_write_io_energy_counter_witness :
  ¬ (tck (timing setUp_spec) == 0)%Q
  ∧ effective_burst_length setUp_spec (Some 16) ≠ 0
  ∧ pow_fits (vddq (power setUp_spec)) 2
  ∧ int_fits (effective_burst_length setUp_spec (Some 16)
              * width (architecture setUp_spec))
  ∧ ∃ pc' energy,
      process_command setUp_spec RD 0 0 15.6 (Some 46.8%Q)
        None None (Some 16) PowerCalculator_init = Ok (pc', energy)
      ∧ (read_energy (result pc') == 3.432 + 0.61952)%Q
      ∧ dynamic_io_energy (result pc') = 0%Q.
Proof.
  assert (H1 : ¬ (tck (timing setUp_spec) == 0)%Q) by by vm_compute.
  assert (H2 : effective_burst_length setUp_spec (Some 16) ≠ 0) by by vm_compute.
  assert (H3 : pow_fits (vddq (power setUp_spec)) 2) by by vm_compute.
  assert (H4 : int_fits (effective_burst_length setUp_spec (Some 16)
                         * width (architecture setUp_spec))) by by vm_compute.
  split; [exact H1|]. split; [exact H2|]. split; [exact H3|]. split; [exact H4|].
  destruct (read_write_io_energy_counter setUp_spec 0 0 15.6 (Some 46.8%Q)
              None None (Some 16) PowerCalculator_init H1 H2 H3 H4)
    as [(pc' & energy & Hrun & Hrd & Hdio & _) _].
  exists pc', energy. split; [exact Hrun|]. split.
  - rewrite Hrd. by vm_compute.
  - rewrite Hdio. reflexivity.
Defined.

(** C2, the code at the failing input. The same read: the I/O energy of
    the burst is 0.61952 nJ, and [dynamic_io_energy] is still 0 after the
    command, while [read_energy] holds core and I/O energy together. *)
Lemma read_io_energy_not_in_dynamic_io_counter :
  ∃ pc' energy io,
    process_command setUp_spec RD 0 0 15.6 (Some 46.8%Q)
      None None (Some 16) PowerCalculator_init = Ok (pc', energy)
    ∧ calculate_io_power_read setUp_spec 16 (46.8 - 15.6) = Ok io
    ∧ (io == 0.61952)%Q
    ∧ dynamic_io_energy (result pc') = 0%Q
    ∧ ¬ (dynamic_io_energy (result pc')
         == dynamic_io_energy (result PowerCalculator_init) + io)%Q
    ∧ (read_energy (result pc') == 3.432 + io)%Q.
Proof.
  eexists _, _, _.
  split; [vm_compute; reflexivity|].
  split; [vm_compute; reflexivity|].
  split; [by vm_compute|].
  split; [reflexivity|]. split; by vm_compute.
Qed.

(** ** Power-down states and power-down energy *)

Section PowerDown.

Variable spec : MemorySpec.

Lemma DRAMStateMachine_init_no_powerdown :
  no_powerdown_banks (DRAMStateMachine_init spec).
Proof.
  unfold no_powerdown_banks, DRAMStateMachine_init. cbn [banks].
  generalize (range (nbr_of_ranks (architecture spec))) as ranks.
  generalize (range (nbr_of_banks (architecture spec))) as bs.
  intros bs ranks.
  assert (Hinner : ∀ r l (m : gmap (Z * Z) BankStateInfo),
    map_Forall (λ _ bi, in_powerdown bi = false) m →
    map_Forall (λ _ bi, in_powerdown bi = false)
      (foldl (λ m b, <[(r, b) := BankStateInfo_default]> m) m l)).
  { intros r l. induction l as [|b l IH]; intros m Hm; [done|].
    cbn. apply IH. by apply map_Forall_insert_2. }
  assert (Houter : ∀ l (m : gmap (Z * Z) BankStateInfo),
    map_Forall (λ _ bi, in_powerdown bi = false) m →
    map_Forall (λ _ bi, in_powerdown bi = false)
      (foldl (λ m r, foldl (λ m b, <[(r, b) := BankStateInfo_default]> m) m bs)
             m l)).
  { intros l. induction l as [|r l IH]; intros m Hm; [done|].
    cbn. apply IH. by apply Hinner. }
  apply Houter, map_Forall_empty.
Qed.

Lemma set_bank_no_powerdown sm rank bank bi :
  no_powerdown_banks sm → in_powerdown bi = false →
  no_powerdown_banks (set_bank sm rank bank bi).
Proof. intros Hsm Hbi. by apply map_Forall_insert_2. Qed.

Lemma execute_activate_no_powerdown rank bank row sm sm' out :
  no_powerdown_banks sm →
  execute_activate spec rank bank row sm = Ok (sm', out) →
  no_powerdown_banks sm'.
Proof.
  intros Hsm. unfold execute_activate, get_bank_info.
  destruct (banks sm !! (rank, bank)) as [bi|]; [|done]. cbn [mbind res_bind].
  destruct (can_activate spec bi (current_time sm)) as [[] ?]; cbn [negb];
    intros [= <- <-]; [|done].
  by apply set_bank_no_powerdown.
Qed.

Lemma execute_read_no_powerdown rank bank sm sm' out :
  no_powerdown_banks sm →
  execute_read spec rank bank sm = Ok (sm', out) →
  no_powerdown_banks sm'.
Proof.
  intros Hsm. unfold execute_read, get_bank_info.
  destruct (banks sm !! (rank, bank)) as [bi|] eqn:Hbi; [|done].
  cbn [mbind res_bind].
  destruct (can_read spec bi (current_time sm)) as [[] ?]; cbn [negb];
    intros [= <- <-]; [|done].
  apply set_bank_no_powerdown; [done|].
  by apply (map_Forall_lookup_1 _ _ _ _ Hsm Hbi).
Qed.

Lemma execute_write_no_powerdown rank bank sm sm' out :
  no_powerdown_banks sm →
  execute_write spec rank bank sm = Ok (sm', out) →
  no_powerdown_banks sm'.
Proof.
  intros Hsm. unfold execute_write, get_bank_info.
  destruct (banks sm !! (rank, bank)) as [bi|] eqn:Hbi; [|done].
  cbn [mbind res_bind].
  destruct (can_write spec bi (current_time sm)) as [[] ?]; cbn [negb];
    intros [= <- <-]; [|done].
  apply set_bank_no_powerdown; [done|].
  by apply (map_Forall_lookup_1 _ _ _ _ Hsm Hbi).
Qed.

Lemma execute_precharge_no_powerdown rank bank sm sm' out :
  no_powerdown_banks sm →
  execute_precharge spec rank bank sm = Ok (sm', out) →
  no_powerdown_banks sm'.
Proof.
  intros Hsm. destruct out as [s e].
  intros (bi & _ & [(_ & _ & _ & ->)|(_ & -> & _)])%execute_precharge_inv;
    [|done].
  by apply set_bank_no_powerdown.
Qed.

Lemma execute_refresh_no_powerdown sm sm' out :
  no_powerdown_banks sm →
  execute_refresh spec sm = Ok (sm', out) →
  no_powerdown_banks sm'.
Proof.
  intros Hsm. unfold execute_refresh.
  destruct (can_refresh spec _ _) as [[] ?]; cbn [negb];
    intros [= <- <-]; [|done].
  unfold no_powerdown_banks. cbn [banks].
  rewrite !map_Forall_fmap. eapply map_Forall_impl; [exact Hsm|].
  intros k [st ? ? ? ? ? ?]. unfold end_refreshing, mark_refreshing, in_powerdown.
  by destruct st.
Qed.

Lemma precharge_all_no_powerdown rank bs :
  ∀ sm success error_msg sm' out,
  no_powerdown_banks sm →
  precharge_all spec rank bs sm success error_msg = Ok (sm', out) →
  no_powerdown_banks sm'.
Proof.
  induction bs as [|b bs IH]; intros sm success error_msg sm' out Hsm;
    cbn [precharge_all].
  { by intros [= <- <-]. }
  destruct (execute_precharge spec rank b sm) as [[sm1 [s e]]|] eqn:Hex;
    [|done].
  cbn [mbind res_bind].
  apply execute_precharge_no_powerdown in Hex; [|done].
  destruct s; cbn [negb]; by apply IH.
Qed.

Lemma _execute_command_no_powerdown cmd rank bank sm sm' out :
  no_powerdown_banks sm →
  _execute_command spec cmd rank bank sm = Ok (sm', out) →
  no_powerdown_banks sm'.
Proof.
  intros Hsm. unfold _execute_command. cbn zeta.
  destruct (command cmd).
  - destruct (row cmd); [by apply execute_activate_no_powerdown|].
    by intros [= <- <-].
  - by apply execute_read_no_powerdown.
  - by apply execute_write_no_powerdown.
  - by apply execute_precharge_no_powerdown.
  - by apply precharge_all_no_powerdown.
  - by apply execute_refresh_no_powerdown.
  - match goal with
    | |- context [match ?o with Some _ => _ | None => _ end] => destruct o
    end; [by apply execute_refresh_no_powerdown|by intros [= <- <-]].
  - by intros [= <- <-].
  - by intros [= <- <-].
  - by intros [= <- <-].
Qed.

Lemma process_command_powerdown kind rank bank now next row column bl pc pc' e :
  process_command spec kind rank bank now next row column bl pc = Ok (pc', e) →
  powerdown_energy (result pc') = powerdown_energy (result pc).
Proof.
  unfold process_command. destruct kind; try by intros [= <- <-].
  - destruct (calculate_read_power _ _ _); [|done]. cbn [mbind res_bind].
    destruct (calculate_termination_power _ _ _); [|done].
    by intros [= <- <-].
  - destruct (calculate_write_power _ _ _); [|done]. cbn [mbind res_bind].
    destruct (calculate_termination_power _ _ _); [|done].
    by intros [= <- <-].
Qed.

Lemma accumulate_background_power_powerdown sm a b pc :
  powerdown_energy (result (accumulate_background_power spec sm a b pc))
  = powerdown_energy (result pc).
Proof.
  unfold accumulate_background_power.
  destruct (Qleb _ _); [done|].
  destruct (map_fold _ _ _) as [[[n1 n2] n3] n4].
  by destruct (0 <? _).
Qed.

Lemma simulate_command_no_powerdown cmd next last sim sim' :
  no_powerdown sim →
  simulate_command spec cmd next last sim = Ok sim' →
  no_powerdown sim'.
Proof.
  intros [Hsm Hpd]. unfold simulate_command.
  destruct (int_mul_float _ _) as [now|] eqn:Hnow; [|done].
  cbn [mbind res_bind].
  set (pc1 := if Qltb _ _ then _ else _).
  assert (Hpc1 : powerdown_energy (result pc1) = 0%Q).
  { subst pc1. destruct (Qltb _ _); [|done].
    by rewrite accumulate_background_power_powerdown. }
  destruct (_execute_command _ _ _ _ _) as [[sm2 [success error]]|] eqn:Hex;
    [|done].
  cbn [mbind res_bind].
  apply _execute_command_no_powerdown in Hex;
    [|by apply map_Forall_insert_2 || exact Hsm].
  destruct success; cbn [negb]; [|by intros [= <-]].
  destruct (process_command _ _ _ _ _ _ _ _ _ _) as [[pc2 energy]|] eqn:Hpc;
    [|done].
  cbn [mbind res_bind]. intros [= <-]. split; [done|].
  apply process_command_powerdown in Hpc. cbn. by rewrite Hpc.
Qed.

Lemma simulate_loop_no_powerdown cmds :
  ∀ last sim sim' t,
  no_powerdown sim →
  simulate_loop spec cmds last sim = Ok (sim', t) →
  no_powerdown sim'.
Proof.
  induction cmds as [|cmd rest IH]; intros last sim sim' t Hsim Hrun.
  { revert Hrun. cbn [simulate_loop]. by intros [= <- <-]. }
  apply simulate_loop_cons_Ok in Hrun
    as [_ [(_ & -> & _)|(_ & sim1 & Hcmd & Hrest)]].
  - destruct Hsim as [Hsm Hpd]. split; [done|].
    cbn. by rewrite accumulate_background_power_powerdown.
  - eapply IH; [|exact Hrest]. by eapply simulate_command_no_powerdown.
Qed.

End PowerDown.

Lemma in_powerdown_false (bi : BankStateInfo) :
  in_powerdown bi = false ↔ state bi ≠ ACTIVE_PDN ∧ state bi ≠ PRE_PDN.
Proof. unfold in_powerdown. by destruct (state bi); cbn; intuition. Qed.

(** C10. In a run from a fresh simulator no bank is ever in ActivePowerDown
    or PrechargedPowerDown: not in the final state machine, and not in the
    state machine after any sequence of loop iterations.  Power-down-entry
    and self-refresh-entry commands are dispatched with success and no
    change to the state machine, and are charged no energy.  The
    [powerdown_energy] counter of the returned result is 0. *)
Theorem simulate_never_powers_down (spec : MemorySpec) (workload : Workload)
    (sim' : Simulator) (r : PowerResult) :
  simulate spec workload (Simulator_init spec) = Ok (sim', r) →
  powerdown_energy r = 0%Q
  ∧ (∀ k bi, banks (state_machine sim') !! k = Some bi →
       state bi ≠ ACTIVE_PDN ∧ state bi ≠ PRE_PDN)
  ∧ (∀ cmds last simk t,
       simulate_loop spec cmds last (Simulator_init spec) = Ok (simk, t) →
       powerdown_energy (result (power_calculator simk)) = 0%Q
       ∧ ∀ k bi, banks (state_machine simk) !! k = Some bi →
           state bi ≠ ACTIVE_PDN ∧ state bi ≠ PRE_PDN)
  ∧ (∀ cmd rank bank sm,
       command cmd = PDN ∨ command cmd = SR →
       _execute_command spec cmd rank bank sm = Ok (sm, (true, None)))
  ∧ (∀ kind rank bank now next row column bl pc,
       kind = PDN ∨ kind = SR →
       process_command spec kind rank bank now next row column bl pc
       = Ok (pc, 0%Q)).
Proof.
  intros Hrun.
  assert (Hinit : no_powerdown (Simulator_init spec)).
  { split; [apply DRAMStateMachine_init_no_powerdown|done]. }
  assert (Hloop : ∀ cmds last simk t,
    simulate_loop spec cmds last (Simulator_init spec) = Ok (simk, t) →
    powerdown_energy (result (power_calculator simk)) = 0%Q
    ∧ ∀ k bi, banks (state_machine simk) !! k = Some bi →
        state bi ≠ ACTIVE_PDN ∧ state bi ≠ PRE_PDN).
  { intros cmds last simk t Hk.
    apply simulate_loop_no_powerdown in Hk as [Hsm Hpd]; [|done].
    split; [done|]. intros k bi Hbi. apply in_powerdown_false.
    by apply (map_Forall_lookup_1 _ _ _ _ Hsm Hbi). }
  assert (Hfinal : powerdown_energy r = 0%Q
    ∧ ∀ k bi, banks (state_machine sim') !! k = Some bi →
        state bi ≠ ACTIVE_PDN ∧ state bi ≠ PRE_PDN).
  { destruct (commands workload) as [|c l] eqn:Hc.
    - unfold simulate in Hrun. rewrite Hc in Hrun.
      revert Hrun. intros [= <- <-]. apply (Hloop [] 0%Q _ 0%Q eq_refl).
    - apply simulate_nonempty_inv in Hrun
        as (sim1 & t1 & t2 & Hl & -> & _ & -> & _); [|by rewrite Hc].
      apply Hloop in Hl as [Hpd Hsm]. split; [|done].
      destruct (finalize_counters t2 (power_calculator sim1))
        as (_ & _ & _ & _ & _ & _ & _ & Hfin & _).
      by rewrite Hfin. }
  destruct Hfinal as [Hpd Hsm].
  split; [done|]. split; [done|]. split; [done|]. split.
  - intros cmd rank bank sm [Hk|Hk]; unfold _execute_command; by rewrite Hk.
  - by intros kind rank bank now next row column bl pc [->| ->].
Qed.

(** The trace with power-down and self-refresh entries runs without error
    and is charged no power-down energy. *)
Lemma simulate_never_powers_down_witness :
  ∃ sim' r,
    simulate setUp_spec powerdown_workload (Simulator_init setUp_spec)
    = Ok (sim', r)
    ∧ errors sim' = []
    ∧ powerdown_energy r = 0%Q.
Proof.
  eexists _, _.
  match goal with |- ?P ∧ _ =>
    assert (H : P) by (vm_compute; reflexivity) end.
  split; [exact H|]. split; [reflexivity|].
  exact (proj1 (simulate_never_powers_down _ _ _ _ H)).
Defined.

(** The simple trace of the test suite: its totals are consistent. *)
Lemma simulate_totals_witness :
  ∃ sim' r,
    (commands test_simple_workload ≠ []
     ∨ Simulator_init setUp_spec = Simulator_init setUp_spec)
    ∧ simulate setUp_spec test_simple_workload (Simulator_init setUp_spec)
      = Ok (sim', r)
    ∧ (total_energy r == core_energy r + interface_energy r)%Q
    ∧ (Qabs (total_energy r - total_breakdown r) <= 1 # 10)%Q.
Proof.
  eexists _, _.
  assert (H0 : commands test_simple_workload ≠ []
               ∨ Simulator_init setUp_spec = Simulator_init setUp_spec)
    by (by right).
  split; [exact H0|].
  match goal with |- ?P ∧ _ =>
    assert (H : P) by (vm_compute; reflexivity) end.
  split; [exact H|].
  destruct (simulate_totals _ _ _ _ _ H0 H) as (Ht & _ & _ & Hb).
  split; [exact Ht|exact Hb].
Defined.

(** ** The refresh scenario *)

Lemma accumulate_background_power_refresh (spec : MemorySpec)
    (sm : DRAMStateMachine) (a b : Q) (pc : PowerCalculator) :
  refresh_energy (result (accumulate_background_power spec sm a b pc))
  = refresh_energy (result pc).
Proof.
  unfold accumulate_background_power.
  destruct (Qleb _ _); [done|].
  destruct (map_fold _ _ _) as [[[n1 n2] n3] n4].
  by destruct (0 <? _).
Qed.

(** C8. For the trace [refresh @ 0, end-of-simulation @ 10000 cycles] on a
    fresh simulator whose refresh interval is at most 1e9 ns, the run
    records no error (the refresh passes the tREFI gate) and the finalized
    [refresh_energy] is [I_DD5B * V_DD * tRFC / 1000] nJ. *)
Theorem refresh_scenario (spec : MemorySpec) (md : option WorkloadMetadata)
    (bk rk : option Z) :
  (trfi (timing spec) <= 1000000000)%Q →
  ∃ sim' r,
    simulate spec (test_refresh_workload md bk rk) (Simulator_init spec)
    = Ok (sim', r)
    ∧ errors sim' = []
    ∧ (refresh_energy r
       == idd5b (power spec) * vdd (power spec) * trfc (timing spec) / 1000)%Q.
Proof.
  intros Htrfi.
  unfold simulate, test_refresh_workload, Command_init.
  cbn [commands sorted_by_timestamp foldr insert_by_timestamp timestamp
       Z.leb Z.compare].
  assert (Hf0 : int_fits 0) by by vm_compute.
  assert (Hf1 : int_fits 10000) by by vm_compute.
  cbn [simulate_loop command timestamp]. unfold simulate_command.
  cbn [command timestamp row column burst_length rank bank or_zero].
  rewrite !(int_mul_float_fits _ _ Hf0), !(int_mul_float_fits _ _ Hf1).
  cbn [mbind res_bind].
  assert (H0 : Qltb 0 (inject_Z 0 * tck (timing spec)) = false).
  { apply Qltb_false. change (inject_Z 0) with 0%Q. lra. }
  rewrite H0.
  unfold _execute_command. cbn [command].
  unfold execute_refresh.
  cbn [Simulator_init state_machine update_time current_time
       last_refresh_time DRAMStateMachine_init].
  unfold can_refresh.
  assert (H1 : Qltb (inject_Z 0 * tck (timing spec) - - (1000000000))
                 (trfi (timing spec)) = false).
  { apply Qltb_false. change (inject_Z 0) with 0%Q. lra. }
  rewrite H1. cbn [negb mbind res_bind].
  unfold process_command. cbn [mbind res_bind].
  destruct (Qltb 0 (inject_Z 10000 * tck (timing spec)));
    cbn [mbind res_bind];
    (eexists _, _; split; [reflexivity|]; split; [reflexivity|]);
    cbn [power_calculator];
    match goal with |- (refresh_energy (result (finalize ?t ?pc)) == _)%Q =>
      destruct (finalize_counters t pc) as (_ & _ & _ & _ & Hfin & _)
    end;
    rewrite Hfin, accumulate_background_power_refresh;
    cbn [result set_result set_core_energy refresh_energy set_refresh_energy
         Simulator_init power_calculator PowerCalculator_init
         PowerResult_default];
    unfold calculate_refresh_power; ring.
Qed.

(** On the [setUp] device (80 mA, 1.1 V, 280 ns): 24.64 nJ. *)
Lemma refresh_scenario_witness :
  (trfi (timing setUp_spec) <= 1000000000)%Q
  ∧ ∃ sim' r,
      simulate setUp_spec (test_refresh_workload None None (Some 0))
        (Simulator_init setUp_spec) = Ok (sim', r)
      ∧ errors sim' = []
      ∧ (refresh_energy r == 24.64)%Q.
Proof.
  assert (H : (trfi (timing setUp_spec) <= 1000000000)%Q) by by vm_compute.
  split; [exact H|].
  destruct (refresh_scenario setUp_spec None None (Some 0) H)
    as (sim' & r & Hrun & Herr & Hre).
  exists sim', r. split; [exact Hrun|]. split; [exact Herr|].
  rewrite Hre. by vm_compute.
Defined.

(** ** The driver's bookkeeping of a failed command *)

(** When the dispatch of a command fails, the loop body appends one error
    entry, takes the dispatcher's state machine, and leaves the calculator
    as it is after the background accumulation: no command energy is
    charged. *)
Lemma simulate_command_failure (spec : MemorySpec) (cmd : Command)
    (next last : Q) (sim : Simulator) (sm2 : DRAMStateMachine)
    (error : option Message) :
  let now := (inject_Z (timestamp cmd) * tck (timing spec))%Q in
  int_fits (timestamp cmd) →
  _execute_command spec cmd (or_zero (rank cmd)) (or_zero (bank cmd))
    (update_time now (state_machine sim)) = Ok (sm2, (false, error)) →
  simulate_command spec cmd next last sim
  = Ok {| state_machine := sm2;
          power_calculator :=
            if Qltb last now
            then accumulate_background_power spec (state_machine sim)
                   last now (power_calculator sim)
            else power_calculator sim;
          errors :=
            errors sim ++ [Command_error (command cmd) (timestamp cmd) error];
          warnings := warnings sim |}.
Proof.
  intros now Hfit Hex. unfold simulate_command.
  rewrite (int_mul_float_fits _ _ Hfit). cbn [mbind res_bind].
  fold now. by rewrite Hex.
Qed.

(** * Further properties of the state machine, the calculator and the driver *)

Section Geometry.
Variable spec : MemorySpec.

Lemma init_banks_inner (r : Z) (l : list Z) :
  ∀ (m : gmap (Z * Z) BankStateInfo) r' b',
    foldl (λ m b, <[(r, b) := BankStateInfo_default]> m) m l !! (r', b')
    = if bool_decide (r' = r ∧ b' ∈ l) then Some BankStateInfo_default
      else m !! (r', b').
Proof.
  induction l as [|b l IH]; intros m r' b'; cbn [foldl].
  { rewrite bool_decide_eq_false_2; [done|]. by intros [_ ?%elem_of_nil]. }
  rewrite IH. case_bool_decide as H1.
  - rewrite bool_decide_eq_true_2; [done|]. destruct H1. split; [done|by right].
  - case_bool_decide as H2.
    + destruct H2 as [-> [->|?]%elem_of_cons]; [|by destruct H1].
      by rewrite lookup_insert_eq.
    + rewrite lookup_insert_ne; [done|]. intros [= -> ->]. apply H2.
      split; [done|by left].
Qed.

Lemma init_banks_outer (bs : list Z) (l : list Z) :
  ∀ (m : gmap (Z * Z) BankStateInfo) r' b',
    foldl (λ m r, foldl (λ m b, <[(r, b) := BankStateInfo_default]> m) m bs)
      m l !! (r', b')
    = if bool_decide (r' ∈ l ∧ b' ∈ bs) then Some BankStateInfo_default
      else m !! (r', b').
Proof.
  induction l as [|r l IH]; intros m r' b'; cbn [foldl].
  { rewrite bool_decide_eq_false_2; [done|]. by intros [?%elem_of_nil _]. }
  rewrite IH, init_banks_inner.
  repeat case_bool_decide; try done;
    rewrite ?elem_of_cons in *; exfalso; intuition (subst; tauto).
Qed.

(** The banks of a new state machine: one default record per pair of the
    geometry, nothing else. *)
Lemma DRAMStateMachine_init_lookup (r b : Z) :
  banks (DRAMStateMachine_init spec) !! (r, b)
  = if bool_decide (0 <= r < nbr_of_ranks (architecture spec)
                    ∧ 0 <= b < nbr_of_banks (architecture spec))
    then Some BankStateInfo_default else None.
Proof.
  unfold DRAMStateMachine_init. cbn [banks]. rewrite init_banks_outer.
  rewrite lookup_empty.
  repeat case_bool_decide; try done; rewrite !elem_of_range in *; tauto.
Qed.

Lemma DRAMStateMachine_init_ok : banks_ok spec (DRAMStateMachine_init spec).
Proof.
  split.
  - intros r b. rewrite DRAMStateMachine_init_lookup.
    case_bool_decide; [by split; eauto|].
    split; [by intros [? ?]|tauto].
  - intros [r b] bi. rewrite DRAMStateMachine_init_lookup.
    case_bool_decide; [|done]. intros [= <-]. by left.
Qed.

Lemma elem_of_bank_keys (r b : Z) :
  (r, b) ∈ bank_keys spec
  ↔ 0 <= r < nbr_of_ranks (architecture spec)
    ∧ 0 <= b < nbr_of_banks (architecture spec).
Proof.
  unfold bank_keys. rewrite list_elem_of_bind. split.
  - intros (r' & Hb & Hr). apply list_elem_of_fmap in Hb as (b' & [= -> ->] & Hb).
    by rewrite !elem_of_range in *.
  - intros [Hr Hb]. exists r. split; [|by apply elem_of_range].
    apply list_elem_of_fmap. exists b. split; [done|by apply elem_of_range].
Qed.

Lemma NoDup_bank_keys : NoDup (bank_keys spec).
Proof.
  unfold bank_keys. apply NoDup_bind.
  - intros r1 r2 k _ _ (b1 & -> & _)%list_elem_of_fmap (b2 & [= -> _] & _)%list_elem_of_fmap.
    done.
  - intros r _. apply NoDup_fmap_2; [|apply NoDup_range]. by intros ?? [= ->].
  - apply NoDup_range.
Qed.

End Geometry.

Section BanksOk.
Variable spec : MemorySpec.

Lemma banks_ok_update_time t sm :
  banks_ok spec sm → banks_ok spec (update_time t sm).
Proof. done. Qed.

Lemma set_bank_ok sm rank bank bi :
  banks_ok spec sm → is_Some (banks sm !! (rank, bank)) → bank_ok bi →
  banks_ok spec (set_bank sm rank bank bi).
Proof.
  intros [Hkeys Hall] Hsome Hbi. split.
  - intros r b. cbn [set_bank banks].
    destruct (decide ((rank, bank) = (r, b))) as [[= <- <-]|Hne].
    + rewrite lookup_insert_eq. split; [intros _; by apply Hkeys|by eauto].
    + rewrite lookup_insert_ne; [apply Hkeys|done].
  - by apply map_Forall_insert_2.
Qed.

Lemma banks_ok_lookup sm key bi :
  banks_ok spec sm → banks sm !! key = Some bi → bank_ok bi.
Proof. intros [_ Hall] Hbi. by apply (map_Forall_lookup_1 _ _ _ _ Hall Hbi). Qed.

Lemma execute_activate_ok rank bank row sm sm' out :
  banks_ok spec sm →
  execute_activate spec rank bank row sm = Ok (sm', out) →
  banks_ok spec sm'.
Proof.
  intros Hsm. unfold execute_activate, get_bank_info.
  destruct (banks sm !! (rank, bank)) as [bi|] eqn:Hbi; [|done].
  cbn [mbind res_bind].
  destruct (can_activate spec bi (current_time sm)) as [[] ?]; cbn [negb];
    intros [= <- <-]; [|done].
  apply set_bank_ok; [done|by rewrite Hbi|]. right. by split; [|eexists].
Qed.

Lemma execute_read_ok rank bank sm sm' out :
  banks_ok spec sm →
  execute_read spec rank bank sm = Ok (sm', out) →
  banks_ok spec sm'.
Proof.
  intros Hsm. unfold execute_read, get_bank_info.
  destruct (banks sm !! (rank, bank)) as [bi|] eqn:Hbi; [|done].
  cbn [mbind res_bind].
  destruct (can_read spec bi (current_time sm)) as [[] ?]; cbn [negb];
    intros [= <- <-]; [|done].
  apply set_bank_ok; [done|by rewrite Hbi|].
  exact (banks_ok_lookup _ _ _ Hsm Hbi).
Qed.

Lemma execute_write_ok rank bank sm sm' out :
  banks_ok spec sm →
  execute_write spec rank bank sm = Ok (sm', out) →
  banks_ok spec sm'.
Proof.
  intros Hsm. unfold execute_write, get_bank_info.
  destruct (banks sm !! (rank, bank)) as [bi|] eqn:Hbi; [|done].
  cbn [mbind res_bind].
  destruct (can_write spec bi (current_time sm)) as [[] ?]; cbn [negb];
    intros [= <- <-]; [|done].
  apply set_bank_ok; [done|by rewrite Hbi|].
  exact (banks_ok_lookup _ _ _ Hsm Hbi).
Qed.

Lemma execute_precharge_ok rank bank sm sm' out :
  banks_ok spec sm →
  execute_precharge spec rank bank sm = Ok (sm', out) →
  banks_ok spec sm'.
Proof.
  intros Hsm. destruct out as [s e].
  intros (bi & Hbi & [(_ & _ & _ & ->)|(_ & -> & _)])%execute_precharge_inv;
    [|done].
  apply set_bank_ok; [done|by rewrite Hbi|]. by left.
Qed.

Lemma refresh_bank_ok bi :
  bank_ok bi →
  state (end_refreshing (mark_refreshing bi)) = IDLE
  ∧ open_row (end_refreshing (mark_refreshing bi)) = None.
Proof.
  destruct bi as [st o ? ? ? ? ?].
  unfold bank_ok, end_refreshing, mark_refreshing. cbn.
  intros [[-> ->]|[-> _]]; done.
Qed.

Lemma execute_refresh_ok sm sm' out :
  banks_ok spec sm →
  execute_refresh spec sm = Ok (sm', out) →
  banks_ok spec sm'.
Proof.
  intros Hsm. unfold execute_refresh.
  destruct (can_refresh spec _ _) as [[] ?]; cbn [negb];
    intros [= <- <-]; [|done].
  destruct Hsm as [Hkeys Hall]. split; cbn [banks].
  - intros r b. rewrite !lookup_fmap, !fmap_is_Some. apply Hkeys.
  - rewrite !map_Forall_fmap. eapply map_Forall_impl; [exact Hall|].
    intros k bi Hbi. left. by apply refresh_bank_ok.
Qed.

Lemma precharge_all_ok rank bs :
  ∀ sm success error_msg sm' out,
  banks_ok spec sm →
  precharge_all spec rank bs sm success error_msg = Ok (sm', out) →
  banks_ok spec sm'.
Proof.
  induction bs as [|b bs IH]; intros sm success error_msg sm' out Hsm;
    cbn [precharge_all].
  { by intros [= <- <-]. }
  destruct (execute_precharge spec rank b sm) as [[sm1 [s e]]|] eqn:Hex;
    [|done].
  cbn [mbind res_bind].
  apply execute_precharge_ok in Hex; [|done].
  destruct s; cbn [negb]; by apply IH.
Qed.

Lemma _execute_command_ok cmd rank bank sm sm' out :
  banks_ok spec sm →
  _execute_command spec cmd rank bank sm = Ok (sm', out) →
  banks_ok spec sm'.
Proof.
  intros Hsm. unfold _execute_command. cbn zeta.
  destruct (command cmd).
  - destruct (row cmd); [by apply execute_activate_ok|].
    by intros [= <- <-].
  - by apply execute_read_ok.
  - by apply execute_write_ok.
  - by apply execute_precharge_ok.
  - by apply precharge_all_ok.
  - by apply execute_refresh_ok.
  - match goal with
    | |- context [match ?o with Some _ => _ | None => _ end] => destruct o
    end; [by apply execute_refresh_ok|by intros [= <- <-]].
  - by intros [= <- <-].
  - by intros [= <- <-].
  - by intros [= <- <-].
Qed.

Lemma simulate_command_ok cmd next last sim sim' :
  banks_ok spec (state_machine sim) →
  simulate_command spec cmd next last sim = Ok sim' →
  banks_ok spec (state_machine sim').
Proof.
  intros Hsm. unfold simulate_command.
  destruct (int_mul_float _ _) as [now|]; [|done]. cbn [mbind res_bind].
  destruct (_execute_command _ _ _ _ _) as [[sm2 [success error]]|] eqn:Hex;
    [|done].
  cbn [mbind res_bind].
  apply _execute_command_ok in Hex; [|by apply banks_ok_update_time].
  destruct success; cbn [negb]; [|by intros [= <-]].
  destruct (process_command _ _ _ _ _ _ _ _ _ _) as [[pc2 energy]|]; [|done].
  cbn [mbind res_bind]. by intros [= <-].
Qed.

Lemma simulate_loop_ok cmds :
  ∀ last sim sim' t,
  banks_ok spec (state_machine sim) →
  simulate_loop spec cmds last sim = Ok (sim', t) →
  banks_ok spec (state_machine sim').
Proof.
  induction cmds as [|cmd rest IH]; intros last sim sim' t Hsim Hrun.
  { revert Hrun. cbn [simulate_loop]. by intros [= <- <-]. }
  apply simulate_loop_cons_Ok in Hrun
    as [_ [(_ & -> & _)|(_ & sim1 & Hcmd & Hrest)]]; [done|].
  eapply IH; [|exact Hrest]. by eapply simulate_command_ok.
Qed.

End BanksOk.

Lemma bank_ok_iff (bi : BankStateInfo) :
  bank_ok bi →
  (state bi = IDLE ∨ state bi = ACTIVE)
  ∧ (is_Some (open_row bi) ↔ state bi = ACTIVE).
Proof.
  intros [[Hs Ho]|[Hs Ho]]; rewrite Hs; (split; [tauto|]).
  - rewrite Ho. split; [by intros [? ?]|done].
  - done.
Qed.

(** X1. In a run from a fresh simulator, after any number of loop
    iterations and at the end of [simulate], every bank is Idle or Active,
    and its open row is defined exactly when it is Active. *)
Theorem simulate_open_row_invariant (spec : MemorySpec) :
  (∀ cmds last simk t key bi,
     simulate_loop spec cmds last (Simulator_init spec) = Ok (simk, t) →
     banks (state_machine simk) !! key = Some bi →
     (state bi = IDLE ∨ state bi = ACTIVE)
     ∧ (is_Some (open_row bi) ↔ state bi = ACTIVE))
  ∧ (∀ workload sim' r key bi,
       simulate spec workload (Simulator_init spec) = Ok (sim', r) →
       banks (state_machine sim') !! key = Some bi →
       (state bi = IDLE ∨ state bi = ACTIVE)
       ∧ (is_Some (open_row bi) ↔ state bi = ACTIVE)).
Proof.
  assert (Hloop : ∀ cmds last simk t,
    simulate_loop spec cmds last (Simulator_init spec) = Ok (simk, t) →
    banks_ok spec (state_machine simk)).
  { intros cmds last simk t Hrun.
    eapply simulate_loop_ok; [|exact Hrun]. apply DRAMStateMachine_init_ok. }
  split.
  - intros cmds last simk t key bi Hrun Hbi.
    by eapply bank_ok_iff, banks_ok_lookup; [eapply Hloop|].
  - intros workload sim' r key bi Hrun Hbi.
    apply bank_ok_iff. eapply banks_ok_lookup; [|exact Hbi].
    destruct (commands workload) as [|c l] eqn:Hc.
    + unfold simulate in Hrun. rewrite Hc in Hrun.
      revert Hrun. intros [= <- <-]. apply DRAMStateMachine_init_ok.
    + apply simulate_nonempty_inv in Hrun
        as (sim1 & t1 & t2 & Hl & _ & _ & -> & _); [|by rewrite Hc].
      by eapply Hloop.
Qed.

(** X2. In a run from a fresh simulator the set of banks never changes: at
    every point of the loop the state machine holds exactly the banks
    [(rank, bank)] of the configured geometry.  Activate, read, write and
    precharge raise [KeyError] exactly for a pair outside the geometry. *)
Theorem simulate_bank_keys (spec : MemorySpec) (cmds : list Command)
    (last t : Q) (simk : Simulator) (rank bank row : Z) :
  simulate_loop spec cmds last (Simulator_init spec) = Ok (simk, t) →
  let sm := state_machine simk in
  let inside :=
    0 <= rank < nbr_of_ranks (architecture spec)
    ∧ 0 <= bank < nbr_of_banks (architecture spec) in
  (is_Some (banks sm !! (rank, bank)) ↔ inside)
  ∧ (execute_activate spec rank bank row sm = Raise KeyError ↔ ¬ inside)
  ∧ (execute_read spec rank bank sm = Raise KeyError ↔ ¬ inside)
  ∧ (execute_write spec rank bank sm = Raise KeyError ↔ ¬ inside)
  ∧ (execute_precharge spec rank bank sm = Raise KeyError ↔ ¬ inside).
Proof.
  intros Hrun sm inside.
  assert (Hok : banks_ok spec sm).
  { eapply simulate_loop_ok; [|exact Hrun]. apply DRAMStateMachine_init_ok. }
  destruct Hok as [Hkeys _]. specialize (Hkeys rank bank). fold inside in Hkeys.
  split; [done|].
  unfold execute_activate, execute_read, execute_write, execute_precharge,
    get_bank_info.
  destruct (banks sm !! (rank, bank)) as [bi|] eqn:Hbi; cbn [mbind res_bind].
  - assert (Hin : inside) by (apply Hkeys; eauto).
    destruct (can_activate _ _ _) as [[] ?], (can_read _ _ _) as [[] ?],
      (can_write _ _ _) as [[] ?], (can_precharge _ _ _) as [[] ?];
      cbn [negb]; repeat split; try done; tauto.
  - assert (Hout : ¬ inside) by (intros Hin%Hkeys; by destruct Hin).
    repeat split; done.
Qed.

(** A read or write of a bank that is not Active is refused. *)
Lemma execute_read_write_not_active (spec : MemorySpec)
    (sm : DRAMStateMachine) (rank bank : Z) (bi : BankStateInfo) :
  banks sm !! (rank, bank) = Some bi →
  state bi ≠ ACTIVE →
  execute_read spec rank bank sm
  = Ok (sm, (false, Some Bank_must_be_active_for_read))
  ∧ execute_write spec rank bank sm
    = Ok (sm, (false, Some Bank_must_be_active_for_write)).
Proof.
  intros Hbi Hs%BankState_eqb_neq.
  unfold execute_read, execute_write, get_bank_info, can_read, can_write.
  rewrite Hbi. cbn [mbind res_bind]. by rewrite Hs.
Qed.

(** X3. [execute_read] and [execute_write] on an existing bank: refused with
    the must-be-active error unless the bank is Active, refused with a tRCD
    violation while [current_time - last_activate_time < tRCD], and accepted
    otherwise; an accepted read (write) only sets the bank's last-read
    (last-write) time, a refused one changes nothing. *)
Theorem execute_read_write_characterised (spec : MemorySpec)
    (sm : DRAMStateMachine) (rank bank : Z) (bi : BankStateInfo) :
  banks sm !! (rank, bank) = Some bi →
  let elapsed := (current_time sm - last_activate_time bi)%Q in
  let with_times (rd wr : Q) :=
    {| banks :=
         <[(rank, bank) :=
             {| state := state bi;
                open_row := open_row bi;
                last_activate_time := last_activate_time bi;
                last_precharge_time := last_precharge_time bi;
                last_read_time := rd;
                last_write_time := wr;
                last_powerdown_time := last_powerdown_time bi |}]> (banks sm);
       last_refresh_time := last_refresh_time sm;
       current_time := current_time sm |} in
  (state bi ≠ ACTIVE →
     execute_read spec rank bank sm
     = Ok (sm, (false, Some Bank_must_be_active_for_read))
     ∧ execute_write spec rank bank sm
       = Ok (sm, (false, Some Bank_must_be_active_for_write)))
  ∧ (state bi = ACTIVE → (elapsed < trcd (timing spec))%Q →
     execute_read spec rank bank sm
     = Ok (sm, (false, Some (tRCD_violation elapsed (trcd (timing spec)))))
     ∧ execute_write spec rank bank sm
       = Ok (sm, (false, Some (tRCD_violation elapsed (trcd (timing spec))))))
  ∧ (state bi = ACTIVE → (trcd (timing spec) <= elapsed)%Q →
     execute_read spec rank bank sm
     = Ok (with_times (current_time sm) (last_write_time bi), (true, None))
     ∧ execute_write spec rank bank sm
       = Ok (with_times (last_read_time bi) (current_time sm), (true, None))).
Proof.
  intros Hbi elapsed with_times.
  unfold execute_read, execute_write, get_bank_info, can_read, can_write.
  rewrite Hbi. cbn [mbind res_bind]. fold elapsed.
  split; [|split].
  - intros Hs%BankState_eqb_neq. by rewrite Hs.
  - intros Hs%BankState_eqb_eq Hlt%Qltb_true. by rewrite Hs, Hlt.
  - intros Hs%BankState_eqb_eq Hle%Qltb_false. by rewrite Hs, Hle.
Qed.

Lemma refreshed_not_active (bi : BankStateInfo) :
  state (end_refreshing (mark_refreshing bi)) ≠ ACTIVE.
Proof.
  destruct bi as [st ? ? ? ? ? ?]. unfold end_refreshing, mark_refreshing.
  by destruct st.
Qed.

(** X4. [execute_refresh] is refused with a tREFI violation, changing
    nothing, while [current_time - last_refresh_time < tREFI].  Otherwise it
    succeeds and records [current_time] as the refresh time; every bank that
    was Active (or Refreshing) is Idle with no open row afterwards, its
    timestamps kept; every other bank is unchanged; no bank is added or
    removed, and no bank is left Active or Refreshing. *)
Theorem execute_refresh_characterised (spec : MemorySpec)
    (sm : DRAMStateMachine) :
  let elapsed := (current_time sm - last_refresh_time sm)%Q in
  ((elapsed < trfi (timing spec))%Q →
     execute_refresh spec sm
     = Ok (sm, (false, Some (tREFI_violation elapsed (trfi (timing spec))))))
  ∧ ((trfi (timing spec) <= elapsed)%Q →
     ∃ sm',
       execute_refresh spec sm = Ok (sm', (true, None))
       ∧ last_refresh_time sm' = current_time sm
       ∧ current_time sm' = current_time sm
       ∧ (∀ key, banks sm !! key = None → banks sm' !! key = None)
       ∧ (∀ key bi, banks sm !! key = Some bi →
            ∃ bi', banks sm' !! key = Some bi'
              ∧ state bi' ≠ ACTIVE ∧ state bi' ≠ REFRESHING
              ∧ last_activate_time bi' = last_activate_time bi
              ∧ last_precharge_time bi' = last_precharge_time bi
              ∧ last_read_time bi' = last_read_time bi
              ∧ last_write_time bi' = last_write_time bi
              ∧ last_powerdown_time bi' = last_powerdown_time bi
              ∧ (state bi = ACTIVE ∨ state bi = REFRESHING →
                 state bi' = IDLE ∧ open_row bi' = None)
              ∧ (state bi ≠ ACTIVE → state bi ≠ REFRESHING → bi' = bi))).
Proof.
  intros elapsed. unfold execute_refresh, can_refresh. fold elapsed. split.
  - intros Hlt%Qltb_true. by rewrite Hlt.
  - intros Hle%Qltb_false. rewrite Hle. cbn [negb].
    eexists. split; [reflexivity|]. cbn [banks last_refresh_time current_time].
    split; [done|]. split; [done|]. split.
    + intros key Hnone. by rewrite !lookup_fmap, Hnone.
    + intros key bi Hbi. rewrite !lookup_fmap, Hbi. cbn.
      eexists. split; [reflexivity|].
      destruct bi as [st o ? ? ? ? ?].
      unfold end_refreshing, mark_refreshing. cbn.
      destruct st; cbn; repeat split; try done; try (by intros [?|?]);
        match goal with H : _ ∨ _ |- _ => by destruct H end.
Qed.

(** X5. Once an activate has succeeded, every further activate of the same
    bank is refused with the already-active error, whatever the time and the
    row, and changes nothing. *)
Theorem activate_twice_refused (spec : MemorySpec) (sm sm1 : DRAMStateMachine)
    (rank bank row row' : Z) (t : Q) :
  execute_activate spec rank bank row sm = Ok (sm1, (true, None)) →
  execute_activate spec rank bank row' (update_time t sm1)
  = Ok (update_time t sm1, (false, Some Bank_already_active)).
Proof.
  unfold execute_activate at 1. unfold get_bank_info.
  destruct (banks sm !! (rank, bank)) as [bi|]; [|done]. cbn [mbind res_bind].
  destruct (can_activate spec bi (current_time sm)) as [[] ?]; cbn [negb];
    [|done].
  intros [= <-]. unfold execute_activate, get_bank_info.
  cbn [update_time set_bank banks]. by rewrite lookup_insert_eq.
Qed.

(** X6. After a successful activate at time [t0], a read or write of the
    bank at time [t] is accepted when [t - t0 >= tRCD] and refused with a
    tRCD violation when [t - t0 < tRCD]. *)
Theorem read_write_after_activate (spec : MemorySpec)
    (sm sm1 : DRAMStateMachine) (rank bank row : Z) (t : Q) :
  execute_activate spec rank bank row sm = Ok (sm1, (true, None)) →
  let elapsed := (t - current_time sm)%Q in
  let refused :=
    Ok (update_time t sm1,
        (false, Some (tRCD_violation elapsed (trcd (timing spec))))) in
  ((elapsed < trcd (timing spec))%Q →
     execute_read spec rank bank (update_time t sm1) = refused
     ∧ execute_write spec rank bank (update_time t sm1) = refused)
  ∧ ((trcd (timing spec) <= elapsed)%Q →
     (∃ sm2, execute_read spec rank bank (update_time t sm1)
             = Ok (sm2, (true, None)))
     ∧ (∃ sm2, execute_write spec rank bank (update_time t sm1)
               = Ok (sm2, (true, None)))).
Proof.
  intros Hact elapsed refused. revert Hact.
  unfold execute_activate at 1. unfold get_bank_info.
  destruct (banks sm !! (rank, bank)) as [bi|]; [|done]. cbn [mbind res_bind].
  destruct (can_activate spec bi (current_time sm)) as [[] ?]; cbn [negb];
    [|done].
  intros [= <-].
  subst refused.
  unfold execute_read, execute_write, get_bank_info, can_read, can_write.
  cbn [update_time set_bank banks current_time]. rewrite lookup_insert_eq.
  cbn [mbind res_bind state last_activate_time BankState_eqb negb].
  fold elapsed. split.
  - intros Hlt%Qltb_true. by rewrite Hlt.
  - intros Hle%Qltb_false. rewrite Hle. cbn [negb]. by eauto.
Qed.

(** X7. After a successful activate at a time [t0 >= 0] of a bank whose
    recorded last-write time is not positive, a precharge of the bank at
    time [t] is accepted exactly when [t - t0 >= tRAS]; before that it is
    refused with a tRAS violation. *)
Theorem precharge_after_activate (spec : MemorySpec)
    (sm sm1 : DRAMStateMachine) (rank bank row : Z) (bi : BankStateInfo)
    (t : Q) :
  banks sm !! (rank, bank) = Some bi →
  (last_write_time bi <= 0)%Q →
  (0 <= current_time sm)%Q →
  execute_activate spec rank bank row sm = Ok (sm1, (true, None)) →
  let elapsed := (t - current_time sm)%Q in
  ((elapsed < tras (timing spec))%Q →
     execute_precharge spec rank bank (update_time t sm1)
     = Ok (update_time t sm1,
           (false, Some (tRAS_violation elapsed (tras (timing spec))))))
  ∧ ((tras (timing spec) <= elapsed)%Q →
     ∃ sm2 bi2,
       execute_precharge spec rank bank (update_time t sm1)
       = Ok (sm2, (true, None))
       ∧ banks sm2 !! (rank, bank) = Some bi2
       ∧ state bi2 = IDLE ∧ open_row bi2 = None
       ∧ last_precharge_time bi2 = t).
Proof.
  intros Hbi Hwr Hnow Hact elapsed. revert Hact.
  unfold execute_activate at 1. unfold get_bank_info.
  rewrite Hbi. cbn [mbind res_bind].
  destruct (can_activate spec bi (current_time sm)) as [[] ?]; cbn [negb];
    [|done].
  intros [= <-].
  unfold execute_precharge, get_bank_info, can_precharge.
  cbn [update_time set_bank banks current_time]. rewrite lookup_insert_eq.
  cbn [mbind res_bind state last_activate_time last_write_time BankState_eqb].
  fold elapsed.
  assert (H0 : Qleb 0 (current_time sm) = true) by by apply Qleb_true.
  assert (Hw : Qltb 0 (last_write_time bi) = false) by by apply Qltb_false.
  rewrite H0, Hw. cbn [andb]. split.
  - intros Hlt%Qltb_true. by rewrite Hlt.
  - intros Hle%Qltb_false. rewrite Hle. cbn [negb].
    eexists _, _. split; [reflexivity|]. cbn [banks set_bank update_time].
    rewrite lookup_insert_eq. by split.
Qed.

Lemma filter_ext_elem_of {A} (P Q : A → Prop) `{!∀ x, Decision (P x)}
    `{!∀ x, Decision (Q x)} (l : list A) :
  (∀ x, x ∈ l → P x ↔ Q x) → filter P l = filter Q l.
Proof.
  induction l as [|a l IH]; intros Hext; [done|].
  rewrite !filter_cons, IH by (intros x Hx; apply Hext; by right).
  pose proof (Hext a (list_elem_of_here _ _)) as Ha.
  destruct (decide (P a)), (decide (Q a)); tauto.
Qed.

Lemma bank_in_state_true (sm : DRAMStateMachine) (s : BankState) (key : Z * Z) :
  bank_in_state sm s key ↔ ∃ bi, banks sm !! key = Some bi ∧ state bi = s.
Proof.
  unfold bank_in_state. destruct (banks sm !! key) as [bi|].
  - rewrite Is_true_true, BankState_eqb_eq. split; [by eauto|].
    by intros (? & [= <-] & ?).
  - split; [done|]. by intros (? & ? & _).
Qed.

(** X8. In a run from a fresh simulator, [get_active_banks] lists exactly
    the banks that are Active and [get_idle_banks] exactly the banks that
    are Idle; the two lists have no duplicates, share no bank, and together
    hold every bank of the geometry. *)
Theorem bank_lists_partition (spec : MemorySpec) (cmds : list Command)
    (last t : Q) (simk : Simulator) :
  simulate_loop spec cmds last (Simulator_init spec) = Ok (simk, t) →
  let sm := state_machine simk in
  (∀ key, key ∈ get_active_banks spec sm
          ↔ ∃ bi, banks sm !! key = Some bi ∧ state bi = ACTIVE)
  ∧ (∀ key, key ∈ get_idle_banks spec sm
            ↔ ∃ bi, banks sm !! key = Some bi ∧ state bi = IDLE)
  ∧ NoDup (get_active_banks spec sm)
  ∧ NoDup (get_idle_banks spec sm)
  ∧ (∀ key, key ∈ get_active_banks spec sm → key ∉ get_idle_banks spec sm)
  ∧ get_active_banks spec sm ++ get_idle_banks spec sm ≡ₚ bank_keys spec.
Proof.
  intros Hrun sm.
  assert (Hok : banks_ok spec sm).
  { eapply simulate_loop_ok; [|exact Hrun]. apply DRAMStateMachine_init_ok. }
  assert (Hmem : ∀ s key, key ∈ filter (λ k, bank_in_state sm s k) (bank_keys spec)
            ↔ ∃ bi, banks sm !! key = Some bi ∧ state bi = s).
  { intros s [r b]. rewrite list_elem_of_filter, bank_in_state_true.
    split; [tauto|]. intros (bi & Hbi & Hs). split; [by eauto|].
    apply elem_of_bank_keys, (proj1 Hok). by rewrite Hbi. }
  split; [apply Hmem|]. split; [apply Hmem|].
  split; [apply NoDup_filter, NoDup_bank_keys|].
  split; [apply NoDup_filter, NoDup_bank_keys|]. split.
  - intros key (bi & Hbi & Hs)%Hmem (bi' & Hbi' & Hs')%Hmem. congruence.
  - unfold get_active_banks, get_idle_banks.
    rewrite (filter_ext_elem_of (λ k, bank_in_state sm IDLE k)
               (λ k, ¬ bank_in_state sm ACTIVE k)).
    { apply filter_app_complement. }
    intros [r b] Hkey%elem_of_bank_keys%(proj1 Hok).
    destruct Hkey as [bi Hbi]. rewrite !bank_in_state_true.
    pose proof (banks_ok_lookup _ _ _ _ Hok Hbi) as [[Hs _]|[Hs _]].
    + split; [|by eauto]. intros _ (bi' & Hbi' & Hs'). congruence.
    + split.
      * intros (bi' & Hbi' & Hs'). congruence.
      * intros Hn. destruct Hn. eauto.
Qed.

(** X9. The energy [process_command] returns is exactly what it adds to the
    ten counters; it never changes the background, power-down and dynamic
    I/O counters. *)
Theorem process_command_conserves_energy (spec : MemorySpec)
    (kind : CommandType) (rank bank : Z) (now : Q) (next : option Q)
    (row column bl : option Z) (pc pc' : PowerCalculator) (energy : Q) :
  process_command spec kind rank bank now next row column bl pc
  = Ok (pc', energy) →
  (total_breakdown (result pc') == total_breakdown (result pc) + energy)%Q
  ∧ background_active_energy (result pc')
    = background_active_energy (result pc)
  ∧ background_precharge_energy (result pc')
    = background_precharge_energy (result pc)
  ∧ powerdown_energy (result pc') = powerdown_energy (result pc)
  ∧ dynamic_io_energy (result pc') = dynamic_io_energy (result pc).
Proof.
  unfold process_command, total_breakdown.
  destruct kind;
    try (intros [= <- <-]; cbn; split; [ring|done]).
  - destruct (calculate_read_power _ _ _) as [rd|]; [|done].
    cbn [mbind res_bind].
    destruct (calculate_termination_power _ _ _) as [term|]; [|done].
    cbn [mbind res_bind]. intros [= <- <-]. cbn. split; [ring|done].
  - destruct (calculate_write_power _ _ _) as [wr|]; [|done].
    cbn [mbind res_bind].
    destruct (calculate_termination_power _ _ _) as [term|]; [|done].
    cbn [mbind res_bind]. intros [= <- <-]. cbn. split; [ring|done].
Qed.

Lemma accumulate_background_power_command_counters (spec : MemorySpec)
    (sm : DRAMStateMachine) (a b : Q) (pc : PowerCalculator) :
  let r := result pc in
  let r' := result (accumulate_background_power spec sm a b pc) in
  activation_energy r' = activation_energy r
  ∧ read_energy r' = read_energy r
  ∧ write_energy r' = write_energy r
  ∧ precharge_energy r' = precharge_energy r
  ∧ refresh_energy r' = refresh_energy r
  ∧ termination_energy r' = termination_energy r
  ∧ dynamic_io_energy r' = dynamic_io_energy r
  ∧ powerdown_energy r' = powerdown_energy r
  ∧ core_energy r' = core_energy r.
Proof.
  unfold accumulate_background_power.
  destruct (Qleb _ _); [done|].
  destruct (map_fold _ _ _) as [[[n1 n2] n3] n4].
  by destruct (0 <? _).
Qed.

(** X10. One loop iteration records at most one error.  When it records one
    (the dispatch failed), the entry names the command's kind and timestamp,
    and no command energy is charged: the activation, read, write,
    precharge, refresh and termination counters and the running
    [core_energy] are as before. *)
Theorem simulate_command_error_charges_nothing (spec : MemorySpec)
    (cmd : Command) (next last : Q) (sim sim' : Simulator) :
  simulate_command spec cmd next last sim = Ok sim' →
  warnings sim' = warnings sim
  ∧ (errors sim' = errors sim
     ∨ (∃ e, errors sim'
             = errors sim ++ [Command_error (command cmd) (timestamp cmd) e])
       ∧ let r := result (power_calculator sim) in
         let r' := result (power_calculator sim') in
         activation_energy r' = activation_energy r
         ∧ read_energy r' = read_energy r
         ∧ write_energy r' = write_energy r
         ∧ precharge_energy r' = precharge_energy r
         ∧ refresh_energy r' = refresh_energy r
         ∧ termination_energy r' = termination_energy r
         ∧ core_energy r' = core_energy r).
Proof.
  unfold simulate_command.
  destruct (int_mul_float _ _) as [now|]; [|done]. cbn [mbind res_bind].
  destruct (_execute_command _ _ _ _ _) as [[sm2 [success error]]|]; [|done].
  cbn [mbind res_bind]. destruct success; cbn [negb].
  - destruct (process_command _ _ _ _ _ _ _ _ _ _) as [[pc2 energy]|]; [|done].
    cbn [mbind res_bind]. intros [= <-]. split; [done|by left].
  - intros [= <-]. split; [done|]. right. split; [by eauto|].
    cbn [power_calculator]. destruct (Qltb _ _); [|done].
    destruct (accumulate_background_power_command_counters spec
                (state_machine sim) last now (power_calculator sim))
      as (? & ? & ? & ? & ? & ? & _ & _ & ?).
    done.
Qed.

Lemma finalize_simulation_time (t : Q) (pc : PowerCalculator) :
  simulation_time (result (finalize t pc)) = t.
Proof. by destruct (finalize_totals t pc) as (_ & _ & _ & ?). Qed.

Lemma finalize_average_power (t : Q) (pc : PowerCalculator) :
  let r := result (finalize t pc) in
  ((0 < t)%Q → average_power r = (total_energy r / t * 1000)%Q)
  ∧ ((t <= 0)%Q → average_power r = 0%Q).
Proof.
  unfold finalize. destruct (Qltb 0 t) eqn:Ht; cbn.
  - apply Qltb_true in Ht. split; [done|]. intros H. by apply Qle_not_lt in H.
  - apply Qltb_false in Ht. split; [|done]. intros H. by apply Qlt_not_le in H.
Qed.

(** X11. The result of a run on a non-empty trace has [average_power =
    total_energy / simulation_time * 1000] when the simulated time is
    positive and [average_power = 0] otherwise. *)
Theorem simulate_average_power (spec : MemorySpec) (workload : Workload)
    (sim sim' : Simulator) (r : PowerResult) :
  commands workload ≠ [] →
  simulate spec workload sim = Ok (sim', r) →
  ((0 < simulation_time r)%Q →
     average_power r = (total_energy r / simulation_time r * 1000)%Q)
  ∧ ((simulation_time r <= 0)%Q → average_power r = 0%Q).
Proof.
  intros Hne Hrun.
  apply simulate_nonempty_inv in Hrun as (sim1 & t1 & t2 & _ & -> & _);
    [|done].
  rewrite finalize_simulation_time. apply finalize_average_power.
Qed.

(** X12. [process_command] raises only for a read or a write.  It raises
    [ZeroDivisionError] exactly when the clock period is zero and the
    effective burst length is not (the division [1.0 / (tck * 2.0)]).
    Otherwise it raises [OverflowError] exactly when the burst length is not
    zero and the square of the I/O voltage or the product of burst length
    and width leaves the float range, or when the square of half the I/O
    voltage does.  In every other case it returns. *)
Theorem process_command_raises (spec : MemorySpec)
    (kind : CommandType) (rank bank : Z) (now : Q) (next : option Q)
    (row column bl : option Z) (pc : PowerCalculator) :
  let b := effective_burst_length spec bl in
  let read_or_write := kind = RD ∨ kind = WR in
  let zero_division :=
    read_or_write ∧ b ≠ 0 ∧ (tck (timing spec) == 0)%Q in
  let overflow :=
    read_or_write
    ∧ ((b ≠ 0
        ∧ (¬ pow_fits (vddq (power spec)) 2
           ∨ ¬ int_fits (b * width (architecture spec))))
       ∨ ¬ pow_fits (vddq (power spec) / 2) 2) in
  (zero_division →
     process_command spec kind rank bank now next row column bl pc
     = Raise ZeroDivisionError)
  ∧ (¬ zero_division → overflow →
     process_command spec kind rank bank now next row column bl pc
     = Raise OverflowError)
  ∧ (¬ zero_division → ¬ overflow →
     ∃ pc' energy,
       process_command spec kind rank bank now next row column bl pc
       = Ok (pc', energy)).
Proof.
  intros b read_or_write zero_division overflow.
  set (d := match next with
            | Some n => if Qtruthy n then (n - now)%Q else tck (timing spec)
            | None => tck (timing spec)
            end).
  assert (Hz : Qeq_bool (tck (timing spec) * 2) 0 = true
               ↔ (tck (timing spec) == 0)%Q).
  { rewrite Qeq_bool_iff. split; intros H; lra. }
  (* the I/O energy of the burst *)
  assert (Hio :
    calculate_io_power_read spec b d
    = if Qeq_bool (tck (timing spec) * 2) 0 then Raise ZeroDivisionError
      else float_pow (vddq (power spec)) 2 ≫= λ v2,
           int_mul_float (b * width (architecture spec)) switching_activity
           ≫= λ n, Ok ((1 # 2) * dq_capacitance * v2 * n / 1000)%Q) by done.
  (* the energy of the read or write, I/O included *)
  assert (Hrw : ∀ core : Q,
    match int_truthy (Some b) with
    | Some bl' => calculate_io_power_read spec bl' d ≫= λ io, Ok (core + io)%Q
    | None => Ok core
    end
    = if b =? 0 then Ok core
      else calculate_io_power_read spec b d ≫= λ io, Ok (core + io)%Q).
  { intros core. cbn [int_truthy]. by destruct (b =? 0). }
  assert (Hcases :
    kind = RD ∨ kind = WR →
    process_command spec kind rank bank now next row column bl pc
    = Raise ZeroDivisionError ∧ zero_division
    ∨ process_command spec kind rank bank now next row column bl pc
      = Raise OverflowError ∧ ¬ zero_division ∧ overflow
    ∨ (∃ pc' energy,
         process_command spec kind rank bank now next row column bl pc
         = Ok (pc', energy)) ∧ ¬ zero_division ∧ ¬ overflow).
  { intros Hkind.
    assert (Hterm :
      calculate_termination_power spec d true
      = calculate_termination_power spec d false) by done.
    assert (Hshape : ∃ core : Q, ∃ k : Q → Q → PowerCalculator * Q,
      process_command spec kind rank bank now next row column bl pc
      = (if b =? 0 then Ok core
         else calculate_io_power_read spec b d ≫= λ io, Ok (core + io)%Q)
        ≫= λ e1, calculate_termination_power spec d true
        ≫= λ e2, Ok (k e1 e2)).
    { destruct Hkind as [-> | ->]; unfold process_command; fold d; fold b.
      - unfold calculate_read_power. rewrite Hrw. by eexists _, (λ e1 e2, _).
      - unfold calculate_write_power, calculate_io_power_write.
        rewrite Hrw, <- Hterm. by eexists _, (λ e1 e2, _). }
    destruct Hshape as (core & k & ->).
    unfold zero_division, overflow, read_or_write.
    destruct (Z.eqb_spec b 0) as [Hb|Hb].
    - (* no burst: only the termination energy can overflow *)
      cbn [mbind res_bind]. unfold calculate_termination_power.
      destruct (float_pow (vddq (power spec) / 2) 2) as [v|e] eqn:Hv.
      + apply float_pow_Ok in Hv as [Hfit _]. right. right.
        split; [cbn [mbind res_bind]; by destruct (k _ _); eexists _, _|].
        split; [tauto|]. intros [_ [[? _]|?]]; tauto.
      + destruct (decide (pow_fits (vddq (power spec) / 2) 2)) as [Hfit|Hfit].
        { by rewrite (float_pow_fits _ _ Hfit) in Hv. }
        rewrite (float_pow_overflow _ _ Hfit) in Hv. revert Hv. intros [= <-].
        right. left. split; [done|]. split; [tauto|]. by eauto.
    - rewrite Hio. destruct (Qeq_bool (tck (timing spec) * 2) 0) eqn:Hq.
      { left. split; [done|]. split; [done|]. split; [done|by apply Hz]. }
      assert (Htck : ¬ (tck (timing spec) == 0)%Q).
      { intros Ht. apply Hz in Ht. congruence. }
      right.
      destruct (decide (pow_fits (vddq (power spec)) 2)) as [Hp|Hp];
        [|left; rewrite (float_pow_overflow _ _ Hp);
          split; [done|]; split; [tauto|]; by eauto].
      rewrite (float_pow_fits _ _ Hp). cbn [mbind res_bind].
      destruct (decide (int_fits (b * width (architecture spec)))) as [Hi|Hi];
        [|left; rewrite (int_mul_float_overflow _ _ Hi);
          split; [done|]; split; [tauto|]; by eauto].
      rewrite (int_mul_float_fits _ _ Hi). cbn [mbind res_bind].
      rewrite (calculate_termination_power_value _ _ _ (pow_fits_half _ Hp)).
      cbn [mbind res_bind]. right.
      split; [by destruct (k _ _); eexists _, _|]. split; [tauto|].
      pose proof (pow_fits_half _ Hp). intros [_ [[_ [?|?]]|?]]; tauto. }
  assert (Hkind : (kind = RD ∨ kind = WR) ∨ ¬ (kind = RD ∨ kind = WR)).
  { destruct kind; (by left; eauto) || (right; intros [?|?]; done). }
  destruct Hkind as [Hkind|Hkind].
  - destruct (Hcases Hkind) as [[-> Hzd]|[[-> [Hzd Hov]]|[Hok [Hzd Hov]]]];
      (split; [done|]); (split; [done|]); done.
  - split; [by intros [? _]|]. split; [by intros _ [? _]|]. intros _ _.
    unfold process_command.
    destruct kind; try by eexists _, _.
    all: destruct Hkind; by eauto.
Qed.

(** X13. After [simulate], the warning list is empty and the error list
    holds only this run's errors: the single empty-workload entry for an
    empty trace, and otherwise exactly one entry, naming the command's kind
    and timestamp and carrying the dispatcher's message, for each iteration
    of the loop whose dispatch reported failure, in the order of the
    iterations, which take the commands of the sorted trace up to its first
    [END_OF_SIMULATION]. *)
Theorem simulate_errors (spec : MemorySpec) (workload : Workload)
    (sim sim' : Simulator) (r : PowerResult) :
  simulate spec workload sim = Ok (sim', r) →
  get_warnings sim' = []
  ∧ (commands workload = [] → get_errors sim' = [No_commands_in_workload])
  ∧ (commands workload ≠ [] →
     ∃ log out,
       simulate_loop_log spec (sorted_by_timestamp (commands workload)) 0
         (cleared sim) = Ok (log, out)
       ∧ log.*1 = up_to_end (sorted_by_timestamp (commands workload))
       ∧ get_errors sim' = omap (dispatch_error spec) log).
Proof.
  intros Hrun. unfold get_warnings, get_errors.
  destruct (commands workload) as [|c l] eqn:Hc.
  - unfold simulate in Hrun. rewrite Hc in Hrun.
    revert Hrun. intros [= <- <-]. by repeat split.
  - apply simulate_nonempty_inv in Hrun
      as (sim1 & t1 & t2 & Hl & _ & _ & _ & -> & ->); [|by rewrite Hc].
    rewrite Hc in Hl. apply simulate_loop_log_Ok in Hl as [log Hlog].
    pose proof (simulate_loop_log_commands _ _ _ _ _ _ Hlog) as Hcmds.
    apply simulate_loop_log_errors in Hlog as Herr.
    destruct Herr as [-> ->]. cbn [warnings errors app].
    split; [done|]. split; [done|]. intros _. by exists log, (sim1, t1).
Qed.

(** X14. The loop of [simulate] stops at an [END_OF_SIMULATION] command:
    whatever follows it in the list is not executed. *)
Theorem simulate_loop_stops_at_end (spec : MemorySpec)
    (pre suf : list Command) (e : Command) (last : Q) (sim : Simulator) :
  command e = END_OF_SIMULATION →
  simulate_loop spec (pre ++ e :: suf) last sim
  = simulate_loop spec (pre ++ [e]) last sim.
Proof.
  intros He. revert last sim.
  induction pre as [|cmd rest IH]; intros last sim.
  { cbn [app simulate_loop]. by rewrite He. }
  cbn [app simulate_loop].
  assert (Hnext : ∀ now : Q,
    match rest ++ e :: suf with
    | next :: _ => int_mul_float (timestamp next) (tck (timing spec))
    | [] => Ok (now + tck (timing spec))%Q
    end
    = match rest ++ [e] with
      | next :: _ => int_mul_float (timestamp next) (tck (timing spec))
      | [] => Ok (now + tck (timing spec))%Q
      end) by by destruct rest.
  destruct (command cmd); try done;
    (destruct (int_mul_float (timestamp cmd) _) as [now|]; [|done]);
    cbn [mbind res_bind]; rewrite Hnext;
    match goal with
    | |- mbind _ ?m = _ => destruct m as [next|]; [|done]
    end;
    cbn [mbind res_bind];
    destruct (simulate_command _ _ _ _ _); cbn [mbind res_bind]; done.
Qed.

Lemma simulate_loop_last_time (spec : MemorySpec) (cmds : list Command) :
  ∀ last sim sim' t,
  simulate_loop spec cmds last sim = Ok (sim', t) →
  t = match stop_command cmds with
      | Some c => (inject_Z (timestamp c) * tck (timing spec))%Q
      | None => last
      end.
Proof.
  induction cmds as [|cmd rest IH]; intros last sim sim' t Hrun.
  { revert Hrun. cbn [simulate_loop stop_command]. by intros [= <- <-]. }
  cbn [stop_command].
  apply simulate_loop_cons_Ok in Hrun
    as [_ [(-> & _ & ->)|(Hne & sim1 & _ & Hrest)]]; [done|].
  apply IH in Hrest as ->.
  by destruct (command cmd), (stop_command rest).
Qed.

(** X15. The duration of a run on a non-empty trace is the time of the
    command at which the loop stops (the first [END_OF_SIMULATION] in
    timestamp order, or the last command when there is none) when that time
    is positive; otherwise it is the time of the last command of the sorted
    trace. *)
Theorem simulate_simulation_time (spec : MemorySpec) (workload : Workload)
    (sim sim' : Simulator) (r : PowerResult) (first : Command) :
  commands workload ≠ [] →
  simulate spec workload sim = Ok (sim', r) →
  let sorted_commands := sorted_by_timestamp (commands workload) in
  ∃ c,
    stop_command sorted_commands = Some c
    ∧ let stop_time := (inject_Z (timestamp c) * tck (timing spec))%Q in
      ((0 < stop_time)%Q → simulation_time r = stop_time)
      ∧ ((stop_time <= 0)%Q →
         simulation_time r
         = (inject_Z (timestamp (List.last sorted_commands first))
            * tck (timing spec))%Q).
Proof.
  intros Hne Hrun sorted_commands. unfold simulate in Hrun.
  destruct (commands workload) as [|c0 l] eqn:Hc; [done|].
  fold sorted_commands in Hrun.
  destruct (simulate_loop _ _ _ _) as [[sim1 t]|] eqn:Hl; [|done].
  cbn [mbind res_bind] in Hrun.
  apply simulate_loop_last_time in Hl.
  destruct sorted_commands as [|s0 sl] eqn:Hs.
  { by apply sorted_by_timestamp_nil_inv in Hs. }
  destruct (stop_command (s0 :: sl)) as [c|] eqn:Hstop.
  2:{ cbn in Hstop. by destruct (command s0), (stop_command sl). }
  exists c. split; [done|]. subst t.
  intros stop_time. subst stop_time. split.
  - intros H%Qltb_true. rewrite H in Hrun. cbn [mbind res_bind] in Hrun.
    remember (finalize _ (power_calculator sim1)) as pcf eqn:Hpcf in Hrun.
    revert Hrun. intros [= <- <-]. subst pcf.
    apply finalize_simulation_time.
  - intros H%Qltb_false. rewrite H in Hrun.
    destruct (int_mul_float _ _) as [final|] eqn:Hfinal; [|done].
    apply int_mul_float_Ok in Hfinal as [_ ->].
    cbn [mbind res_bind] in Hrun.
    remember (finalize _ (power_calculator sim1)) as pcf eqn:Hpcf in Hrun.
    revert Hrun. intros [= <- <-]. subst pcf.
    rewrite finalize_simulation_time.
    by rewrite (last_default_irrelevant sl s0 c0 first).
Qed.

Section Returns.
Variable spec : MemorySpec.

Lemma process_command_returns kind rank bank now next row column bl pc :
  ¬ (tck (timing spec) == 0)%Q →
  (kind = RD ∨ kind = WR →
   pow_fits (vddq (power spec)) 2
   ∧ int_fits (effective_burst_length spec bl * width (architecture spec))) →
  ∃ pc' energy,
    process_command spec kind rank bank now next row column bl pc
    = Ok (pc', energy).
Proof.
  intros Htck Hfit.
  assert (Hrw : kind = RD ∨ kind = WR →
    ∀ d core, ∃ v,
      match int_truthy (Some (effective_burst_length spec bl)) with
      | Some b => calculate_io_power_read spec b d ≫= λ io, Ok (core + io)%Q
      | None => Ok core
      end = Ok v
      ∧ ∃ w is_read, calculate_termination_power spec d is_read = Ok w).
  { intros [Hpow Hint]%Hfit d core. cbn [int_truthy].
    assert (Hterm : ∃ w is_read,
      calculate_termination_power spec d is_read = Ok w).
    { eexists _, true.
      apply calculate_termination_power_value. by apply pow_fits_half. }
    destruct (_ =? 0); [by eauto|].
    destruct (calculate_io_power_read_value spec _ d Htck Hpow Hint)
      as (io & -> & _).
    by eauto. }
  assert (Hterm : ∀ d is_read,
    calculate_termination_power spec d is_read
    = calculate_termination_power spec d true) by by intros d [].
  unfold process_command, calculate_read_power, calculate_write_power,
    calculate_io_power_write.
  destruct kind; try by eexists _, _.
  - match goal with
    | |- context [match int_truthy _ with
                  | Some b => calculate_io_power_read spec b ?d ≫= _
                  | None => Ok ?core
                  end] =>
        destruct (Hrw (or_introl eq_refl) d core)
          as (v & -> & w & is_read & Hw)
    end.
    cbn [mbind res_bind]. rewrite Hterm in Hw. rewrite Hw. by eexists _, _.
  - match goal with
    | |- context [match int_truthy _ with
                  | Some b => calculate_io_power_read spec b ?d ≫= _
                  | None => Ok ?core
                  end] =>
        destruct (Hrw (or_intror eq_refl) d core)
          as (v & -> & w & is_read & Hw)
    end.
    cbn [mbind res_bind]. rewrite Hterm in Hw. rewrite Hterm, Hw.
    by eexists _, _.
Qed.

Lemma precharge_all_returns rank bs :
  ∀ sm success error_msg,
  banks_ok spec sm →
  (∀ b, b ∈ bs → inside_geometry spec rank b) →
  ∃ sm' out, precharge_all spec rank bs sm success error_msg = Ok (sm', out).
Proof.
  induction bs as [|b bs IH]; intros sm success error_msg Hsm Hin;
    cbn [precharge_all]; [by eauto|].
  assert (Hb : is_Some (banks sm !! (rank, b))).
  { apply (proj1 Hsm). apply Hin. by left. }
  destruct (execute_precharge spec rank b sm) as [[sm1 [s e]]|ex] eqn:Hex.
  - cbn [mbind res_bind].
    apply execute_precharge_ok in Hex; [|done].
    destruct s; cbn [negb]; apply IH; try done;
      intros b' Hb'; apply Hin; by right.
  - exfalso. revert Hex. unfold execute_precharge, get_bank_info.
    destruct Hb as [bi ->]. cbn [mbind res_bind].
    by destruct (can_precharge _ _ _) as [[] ?].
Qed.

Lemma _execute_command_returns cmd sm :
  banks_ok spec sm →
  well_addressed spec cmd →
  ∃ sm' out,
    _execute_command spec cmd (or_zero (rank cmd)) (or_zero (bank cmd)) sm
    = Ok (sm', out).
Proof.
  intros Hsm. unfold well_addressed, _execute_command. cbn zeta.
  assert (Hlook : ∀ r b, inside_geometry spec r b →
                         ∃ bi, banks sm !! (r, b) = Some bi).
  { intros r b Hin. by apply (proj1 Hsm) in Hin as [bi ?]; eauto. }
  destruct (command cmd).
  - destruct (row cmd) as [rw|]; [|by eauto].
    intros [?|(bi & Hbi)%Hlook]; [done|].
    unfold execute_activate, get_bank_info. rewrite Hbi. cbn [mbind res_bind].
    destruct (can_activate _ _ _) as [[] ?]; cbn [negb]; eauto.
  - intros (bi & Hbi)%Hlook.
    unfold execute_read, get_bank_info. rewrite Hbi. cbn [mbind res_bind].
    destruct (can_read _ _ _) as [[] ?]; cbn [negb]; eauto.
  - intros (bi & Hbi)%Hlook.
    unfold execute_write, get_bank_info. rewrite Hbi. cbn [mbind res_bind].
    destruct (can_write _ _ _) as [[] ?]; cbn [negb]; eauto.
  - intros (bi & Hbi)%Hlook.
    unfold execute_precharge, get_bank_info. rewrite Hbi. cbn [mbind res_bind].
    destruct (can_precharge _ _ _) as [[] ?]; cbn [negb]; eauto.
  - intros Hcase. apply precharge_all_returns; [done|].
    intros b Hb%elem_of_range. split; [|done]. destruct Hcase; [lia|done].
  - intros _. unfold execute_refresh.
    destruct (can_refresh _ _ _) as [[] ?]; cbn [negb]; eauto.
  - intros _.
    match goal with
    | |- context [match ?o with Some _ => _ | None => _ end] => destruct o
    end; [|by eauto].
    unfold execute_refresh.
    destruct (can_refresh _ _ _) as [[] ?]; cbn [negb]; eauto.
  - by eauto.
  - by eauto.
  - by eauto.
Qed.

Lemma simulate_command_returns cmd next last sim :
  ¬ (tck (timing spec) == 0)%Q →
  banks_ok spec (state_machine sim) →
  well_addressed spec cmd →
  in_float_range spec cmd →
  ∃ sim', simulate_command spec cmd next last sim = Ok sim'.
Proof.
  intros Htck Hsm Hcmd [Hts Hrw]. unfold simulate_command.
  rewrite (int_mul_float_fits _ _ Hts). cbn [mbind res_bind].
  destruct (_execute_command_returns cmd
              (update_time (inject_Z (timestamp cmd) * tck (timing spec))
                 (state_machine sim)))
    as (sm2 & [success error] & ->); [done|done|].
  cbn [mbind res_bind]. destruct success; cbn [negb]; [|by eauto].
  match goal with
  | |- context [process_command spec ?k ?r ?b ?now ?nx ?rw ?cl ?bl ?pc] =>
      destruct (process_command_returns k r b now nx rw cl bl pc Htck Hrw)
        as (pc2 & energy & ->)
  end.
  cbn [mbind res_bind]. by eauto.
Qed.

Lemma simulate_loop_returns cmds :
  ∀ last sim,
  ¬ (tck (timing spec) == 0)%Q →
  banks_ok spec (state_machine sim) →
  Forall (well_addressed spec) cmds →
  Forall (in_float_range spec) cmds →
  ∃ sim' t, simulate_loop spec cmds last sim = Ok (sim', t).
Proof.
  induction cmds as [|cmd rest IH]; intros last sim Htck Hsm Hall Hfit;
    [cbn [simulate_loop]; by eauto|].
  apply Forall_cons in Hall as [Hcmd Hall].
  apply Forall_cons in Hfit as [Hcmdfit Hfit].
  destruct (decide (command cmd = END_OF_SIMULATION)) as [Hend|Hne].
  { rewrite simulate_loop_cons_end; [by eauto|done|apply Hcmdfit]. }
  rewrite simulate_loop_cons_body; [|done|apply Hcmdfit|].
  2:{ destruct rest as [|next rest']; [done|].
      by apply Forall_cons in Hfit as [[? _] _]. }
  match goal with
  | |- context [simulate_command spec cmd ?next last sim] =>
      destruct (simulate_command_returns cmd next last sim) as [sim1 Hcmd1];
        [done..|]
  end.
  rewrite Hcmd1. cbn [mbind res_bind]. apply IH; [done| |done|done].
  by eapply simulate_command_ok.
Qed.

End Returns.

(** X16. No exception escapes [simulate] on a fresh simulator when the
    clock period is not zero, every command addresses banks of the
    configured geometry, every timestamp converts to a float and, when the
    trace has a read or a write, the square of the I/O voltage and the
    product of its burst length and the width stay in the float range: the
    run returns a result, whatever the protocol violations in the trace. *)
Theorem simulate_returns (spec : MemorySpec) (workload : Workload) :
  ¬ (tck (timing spec) == 0)%Q →
  Forall (well_addressed spec) (commands workload) →
  Forall (in_float_range spec) (commands workload) →
  ∃ sim' r, simulate spec workload (Simulator_init spec) = Ok (sim', r).
Proof.
  intros Htck Hall Hfit. unfold simulate.
  destruct (commands workload) as [|c l] eqn:Hc; [by eauto|].
  destruct (simulate_loop_returns spec (sorted_by_timestamp (c :: l)) 0%Q
              {| state_machine := state_machine (Simulator_init spec);
                 power_calculator := power_calculator (Simulator_init spec);
                 errors := []; warnings := [] |})
    as (sim1 & t & ->); [done|apply DRAMStateMachine_init_ok| | |].
  - by rewrite sorted_by_timestamp_perm.
  - by rewrite sorted_by_timestamp_perm.
  - cbn [mbind res_bind].
    assert (Hlast : int_fits
      (timestamp (List.last (sorted_by_timestamp (c :: l)) c))).
    { assert (Hin : List.last (sorted_by_timestamp (c :: l)) c ∈ c :: l).
      { destruct (sorted_by_timestamp (c :: l)) as [|s0 sl] eqn:Hs.
        { by apply sorted_by_timestamp_nil_inv in Hs. }
        rewrite <- (sorted_by_timestamp_perm (c :: l)), Hs.
        apply last_elem_of. }
      by apply (proj1 (Forall_forall _ _) Hfit) in Hin as [? _]. }
    rewrite (int_mul_float_fits _ _ Hlast).
    destruct (Qltb 0 t); cbn [mbind res_bind]; by eauto.
Qed.

(** A list sorted by timestamp is determined by its commands of each
    timestamp, taken in order. *)
Lemma sorted_determined_by_groups (s1 : list Command) :
  ∀ s2,
  StronglySorted timestamp_le s1 → StronglySorted timestamp_le s2 →
  (∀ t, filter (λ c, timestamp c = t) s1 = filter (λ c, timestamp c = t) s2) →
  s1 = s2.
Proof.
  assert (Hnil : ∀ y (l : list Command),
    (∀ t, [] = filter (λ c, timestamp c = t) (y :: l)) → False).
  { intros y l H. specialize (H (timestamp y)).
    by rewrite filter_cons_True in H. }
  assert (Hhead : ∀ x l y l',
    StronglySorted timestamp_le (y :: l') →
    filter (λ c, timestamp c = timestamp x) (x :: l)
    = filter (λ c, timestamp c = timestamp x) (y :: l') →
    timestamp y <= timestamp x).
  { intros x l y l' Hs Hf. rewrite filter_cons_True in Hf by done.
    assert (Hx : x ∈ filter (λ c, timestamp c = timestamp x) (y :: l')).
    { rewrite <- Hf. by left. }
    apply list_elem_of_filter in Hx as [_ [->|Hx]%elem_of_cons]; [done|].
    apply StronglySorted_inv in Hs as [_ Hall].
    by apply (proj1 (Forall_forall _ _) Hall x Hx). }
  induction s1 as [|x s1 IH]; intros [|y s2] Hs1 Hs2 Hf; try done.
  - by destruct (Hnil y s2).
  - destruct (Hnil x s1). intros t. by rewrite Hf.
  - assert (Hxy : timestamp x = timestamp y).
    { apply Z.le_antisymm.
      - eapply (Hhead y s2 x s1); [done|]. symmetry. apply Hf.
      - eapply (Hhead x s1 y s2); [done|]. apply Hf. }
    pose proof (Hf (timestamp x)) as Hfx.
    rewrite !filter_cons_True in Hfx by done.
    injection Hfx as -> Hfx. f_equal.
    apply StronglySorted_inv in Hs1 as [Hs1 _].
    apply StronglySorted_inv in Hs2 as [Hs2 _].
    apply IH; [done|done|]. intros t.
    destruct (decide (timestamp y = t)) as [<-|Hne]; [done|].
    specialize (Hf t). by rewrite !filter_cons_False in Hf.
Qed.

(** X17. The result of [simulate] depends on the input order only through
    the order among commands of equal timestamp: two traces that hold, for
    every timestamp, the same commands in the same order give the same
    outcome. *)
Theorem simulate_order_independent (spec : MemorySpec) (w1 w2 : Workload)
    (sim : Simulator) :
  (∀ t, filter (λ c, timestamp c = t) (commands w1)
        = filter (λ c, timestamp c = t) (commands w2)) →
  simulate spec w1 sim = simulate spec w2 sim.
Proof.
  intros Hgroups.
  assert (Hsorted : sorted_by_timestamp (commands w1)
                    = sorted_by_timestamp (commands w2)).
  { apply sorted_determined_by_groups.
    - apply Sorted.Sorted_StronglySorted; [|apply sorted_by_timestamp_sorted].
      intros a b c. unfold timestamp_le. lia.
    - apply Sorted.Sorted_StronglySorted; [|apply sorted_by_timestamp_sorted].
      intros a b c. unfold timestamp_le. lia.
    - intros t. by rewrite !sorted_by_timestamp_stable. }
  unfold simulate. rewrite <- Hsorted.
  destruct (commands w1) as [|c1 l1] eqn:H1, (commands w2) as [|c2 l2] eqn:H2;
    try done.
  - symmetry in Hsorted. by apply sorted_by_timestamp_nil_inv in Hsorted.
  - by apply sorted_by_timestamp_nil_inv in Hsorted.
  - destruct (sorted_by_timestamp (c1 :: l1)) as [|s0 sl] eqn:Hs.
    { by apply sorted_by_timestamp_nil_inv in Hs. }
    by rewrite (last_default_irrelevant sl s0 c1 c2).
Qed.

Section Counting.

Lemma count_in_state_empty (s : BankState) : count_in_state s ∅ = 0.
Proof. unfold count_in_state. by rewrite map_filter_empty, map_size_empty. Qed.

Lemma count_in_state_insert (s : BankState) (i : Z * Z) (x : BankStateInfo)
    (m : gmap (Z * Z) BankStateInfo) :
  m !! i = None →
  count_in_state s (<[i:=x]> m)
  = count_in_state s m + (if BankState_eqb (state x) s then 1 else 0).
Proof.
  intros Hi. unfold count_in_state. rewrite map_filter_insert.
  case_decide as Hp; cbn in Hp.
  - apply Is_true_true in Hp. rewrite Hp.
    rewrite map_size_insert_None; [lia|].
    apply map_lookup_filter_None_2. by left.
  - apply Is_true_false in Hp. rewrite Hp, delete_id by done. lia.
Qed.

(** The counting loop of [accumulate_background_power] yields the number of
    banks in each of the four states it distinguishes. *)
Lemma count_bank_fold (m : gmap (Z * Z) BankStateInfo) :
  map_fold (λ _ bank_info n, count_bank bank_info n) (0, 0, 0, 0) m
  = (count_in_state ACTIVE m, count_in_state ACTIVE_PDN m,
     count_in_state IDLE m, count_in_state PRE_PDN m).
Proof.
  apply (map_fold_weak_ind
    (λ n m, n = (count_in_state ACTIVE m, count_in_state ACTIVE_PDN m,
                 count_in_state IDLE m, count_in_state PRE_PDN m))).
  - by rewrite !count_in_state_empty.
  - intros i x m' n Hi ->. rewrite !count_in_state_insert by done.
    unfold count_bank. destruct (state x); cbn; f_equal; try f_equal;
      try f_equal; lia.
Qed.

Lemma count_in_state_ok (m : gmap (Z * Z) BankStateInfo) :
  map_Forall (λ _ bank_info, bank_ok bank_info) m →
  count_in_state ACTIVE m + count_in_state IDLE m = Z.of_nat (size m)
  ∧ count_in_state ACTIVE_PDN m = 0
  ∧ count_in_state PRE_PDN m = 0.
Proof.
  induction m as [|i x m Hi IH] using map_ind; intros Hall.
  - by rewrite !count_in_state_empty, map_size_empty.
  - apply map_Forall_insert in Hall as [Hx Hall]; [|done].
    destruct (IH Hall) as (Hsum & Hap & Hpp).
    rewrite !count_in_state_insert, map_size_insert_None by done.
    destruct Hx as [[-> _]|[-> _]]; cbn; lia.
Qed.

End Counting.

Lemma length_bank_keys (spec : MemorySpec) :
  length (bank_keys spec)
  = (Z.to_nat (nbr_of_ranks (architecture spec))
     * Z.to_nat (nbr_of_banks (architecture spec)))%nat.
Proof.
  unfold bank_keys, range.
  rewrite <- (length_seqZ 0 (nbr_of_ranks (architecture spec))).
  induction (seqZ 0 (nbr_of_ranks _)) as [|r l IH]; [done|].
  csimpl. by rewrite length_app, length_fmap, length_seqZ, IH.
Qed.

Lemma banks_ok_size (spec : MemorySpec) (sm : DRAMStateMachine) :
  banks_ok spec sm →
  size (banks sm) = length (bank_keys spec).
Proof.
  intros [Hkeys _].
  rewrite <- (size_dom (D:=gset (Z * Z))).
  rewrite <- (size_list_to_set (C:=gset (Z * Z))) by apply NoDup_bank_keys.
  f_equal. apply set_eq. intros [r b].
  by rewrite elem_of_dom, elem_of_list_to_set, elem_of_bank_keys, Hkeys.
Qed.

(** X18. In a run from a fresh simulator of a device with at least one rank
    and one bank, every bank is counted as Active or Idle, so an idle
    interval [d = end - start > 0] is split without loss between the two
    background counters: with [a] Active and [i] Idle banks out of [n],
    [background_active_energy] grows by [IDD3N * VDD * (d * a / n) / 1000],
    [background_precharge_energy] by [IDD2N * VDD * (d * i / n) / 1000], and
    the two time shares add up to [d]. *)
Theorem background_power_split (spec : MemorySpec) (cmds : list Command)
    (last t : Q) (simk : Simulator) (start_time_ns end_time_ns : Q)
    (pc : PowerCalculator) :
  simulate_loop spec cmds last (Simulator_init spec) = Ok (simk, t) →
  0 < nbr_of_ranks (architecture spec) →
  0 < nbr_of_banks (architecture spec) →
  (start_time_ns < end_time_ns)%Q →
  let sm := state_machine simk in
  let n := nbr_of_ranks (architecture spec) * nbr_of_banks (architecture spec) in
  let a := banks_in_state sm ACTIVE in
  let i := banks_in_state sm IDLE in
  let d := (end_time_ns - start_time_ns)%Q in
  let r := result pc in
  let r' :=
    result (accumulate_background_power spec sm start_time_ns end_time_ns pc) in
  0 <= a ∧ 0 <= i ∧ a + i = n
  ∧ (background_active_energy r'
     == background_active_energy r
        + idd3n (power spec) * vdd (power spec)
          * (d * (inject_Z a / inject_Z n)) / 1000)%Q
  ∧ (background_precharge_energy r'
     == background_precharge_energy r
        + idd2n (power spec) * vdd (power spec)
          * (d * (inject_Z i / inject_Z n)) / 1000)%Q
  ∧ (d * (inject_Z a / inject_Z n) + d * (inject_Z i / inject_Z n) == d)%Q.
Proof.
  intros Hrun Hnr Hnb Hlt sm n a i d r r'.
  assert (Hok : banks_ok spec sm).
  { eapply simulate_loop_ok; [|exact Hrun]. apply DRAMStateMachine_init_ok. }
  destruct (count_in_state_ok (banks sm) (proj2 Hok)) as (Hsum & Hap & Hpp).
  rewrite (banks_ok_size spec sm Hok), length_bank_keys in Hsum.
  assert (Hn : a + i = n).
  { unfold a, i, banks_in_state, n. rewrite Hsum. lia. }
  assert (Ha : 0 <= a) by (unfold a, banks_in_state, count_in_state; lia).
  assert (Hi : 0 <= i) by (unfold i, banks_in_state, count_in_state; lia).
  assert (Hn0 : ¬ (inject_Z n == 0)%Q).
  { change 0%Q with (inject_Z 0). rewrite inject_Z_injective. lia. }
  split; [done|]. split; [done|]. split; [done|].
  assert (Hd : Qleb d 0 = false) by (apply Qleb_false; unfold d; lra).
  assert (Hpos : (0 <? n) = true) by (apply Z.ltb_lt; lia).
  subst r'. unfold accumulate_background_power. fold d. rewrite Hd.
  rewrite count_bank_fold, Hap, Hpp. fold n. rewrite Hpos.
  fold (banks_in_state sm ACTIVE) (banks_in_state sm IDLE). fold a i.
  unfold calculate_background_power.
  cbn [result set_result background_active_energy
       background_precharge_energy set_background_energy]. fold r.
  split; [|split].
  - change (inject_Z 0) with 0%Q. field. done.
  - change (inject_Z 0) with 0%Q. field. done.
  - rewrite <- Hn, inject_Z_plus. field.
    rewrite <- inject_Z_plus, Hn. done.
Qed.

(** X19. After a successful refresh no bank is listed as active, and a read
    or write of any existing bank is refused with the must-be-active error
    until the bank is activated again. *)
Theorem refresh_closes_all_banks (spec : MemorySpec)
    (sm sm' : DRAMStateMachine) (rank bank : Z) (t : Q) :
  execute_refresh spec sm = Ok (sm', (true, None)) →
  get_active_banks spec sm' = []
  ∧ (is_Some (banks sm !! (rank, bank)) →
     execute_read spec rank bank (update_time t sm')
     = Ok (update_time t sm', (false, Some Bank_must_be_active_for_read))
     ∧ execute_write spec rank bank (update_time t sm')
       = Ok (update_time t sm', (false, Some Bank_must_be_active_for_write))).
Proof.
  intros Hrun.
  assert (Hbanks : banks sm' = end_refreshing <$> (mark_refreshing <$> banks sm)).
  { revert Hrun. unfold execute_refresh.
    destruct (can_refresh spec _ _) as [[] ?]; cbn [negb]; [|done].
    by intros [= <-]. }
  assert (Hlook : ∀ key, banks sm' !! key
                         = (λ bi, end_refreshing (mark_refreshing bi))
                             <$> banks sm !! key).
  { intros key. rewrite Hbanks, !lookup_fmap. by destruct (banks sm !! key). }
  split.
  - apply elem_of_nil_inv. intros key [Hact _]%list_elem_of_filter.
    apply bank_in_state_true in Hact as (bi' & Hbi' & Hs).
    rewrite Hlook in Hbi'. destruct (banks sm !! key) as [bi|]; [|done].
    revert Hbi'. intros [= <-]. by apply refreshed_not_active in Hs.
  - intros [bi Hbi].
    apply (execute_read_write_not_active spec (update_time t sm') rank bank
             (end_refreshing (mark_refreshing bi))).
    + cbn [update_time banks]. by rewrite Hlook, Hbi.
    + apply refreshed_not_active.
Qed.

(** X20. A bank activated at a time [t0 > 0] and precharged afterwards can
    be activated again at time [t] exactly when [t - t0 >= tRC]; earlier
    attempts are refused with a tRC violation. *)
Theorem reactivate_requires_tRC (spec : MemorySpec)
    (sm sm1 sm2 : DRAMStateMachine) (rank bank row row' : Z) (t1 t : Q) :
  (0 < current_time sm)%Q →
  execute_activate spec rank bank row sm = Ok (sm1, (true, None)) →
  execute_precharge spec rank bank (update_time t1 sm1)
  = Ok (sm2, (true, None)) →
  let elapsed := (t - current_time sm)%Q in
  ((elapsed < trc (timing spec))%Q →
     execute_activate spec rank bank row' (update_time t sm2)
     = Ok (update_time t sm2,
           (false, Some (tRC_violation elapsed (trc (timing spec))))))
  ∧ ((trc (timing spec) <= elapsed)%Q →
     ∃ sm3, execute_activate spec rank bank row' (update_time t sm2)
            = Ok (sm3, (true, None))).
Proof.
  intros Hpos Hact Hpre elapsed. revert Hact.
  unfold execute_activate at 1. unfold get_bank_info.
  destruct (banks sm !! (rank, bank)) as [bi|]; [|done]. cbn [mbind res_bind].
  destruct (can_activate spec bi (current_time sm)) as [[] ?]; cbn [negb];
    [|done].
  intros [= <-].
  apply execute_precharge_inv in Hpre
    as (bi1 & Hbi1 & [(_ & _ & _ & ->)|(? & _)]); [|done].
  cbn [update_time set_bank banks] in Hbi1.
  rewrite lookup_insert_eq in Hbi1. injection Hbi1 as <-.
  unfold execute_activate, get_bank_info, can_activate.
  cbn [update_time set_bank banks current_time]. rewrite lookup_insert_eq.
  cbn [mbind res_bind precharged state last_activate_time BankState_eqb].
  fold elapsed.
  assert (H0 : Qltb 0 (current_time sm) = true) by by apply Qltb_true.
  rewrite H0. cbn [andb]. split.
  - intros Hlt%Qltb_true. by rewrite Hlt.
  - intros Hle%Qltb_false. rewrite Hle. cbn [negb]. by eauto.
Qed.

(** X21. After a successful write at a time [tw > 0], a precharge of the
    bank at time [t] that satisfies tRAS is accepted exactly when
    [t - tw >= tWR]; earlier it is refused with a tWR violation. *)
Theorem precharge_after_write_requires_tWR (spec : MemorySpec)
    (sm sm1 : DRAMStateMachine) (rank bank : Z) (bi : BankStateInfo) (t : Q) :
  banks sm !! (rank, bank) = Some bi →
  (0 < current_time sm)%Q →
  execute_write spec rank bank sm = Ok (sm1, (true, None)) →
  (tras (timing spec) <= t - last_activate_time bi)%Q →
  let elapsed := (t - current_time sm)%Q in
  ((elapsed < twr (timing spec))%Q →
     execute_precharge spec rank bank (update_time t sm1)
     = Ok (update_time t sm1,
           (false, Some (tWR_violation elapsed (twr (timing spec))))))
  ∧ ((twr (timing spec) <= elapsed)%Q →
     ∃ sm2, execute_precharge spec rank bank (update_time t sm1)
            = Ok (sm2, (true, None))).
Proof.
  intros Hbi Hpos Hwr Hras elapsed. revert Hwr.
  unfold execute_write, get_bank_info. rewrite Hbi. cbn [mbind res_bind].
  unfold can_write.
  destruct (BankState_eqb (state bi) ACTIVE) eqn:Hs; cbn [negb]; [|done].
  destruct (Qltb _ _); [done|]. intros [= <-].
  unfold execute_precharge, get_bank_info, can_precharge.
  cbn [update_time set_bank banks current_time]. rewrite lookup_insert_eq.
  cbn [mbind res_bind state last_activate_time last_write_time].
  apply BankState_eqb_eq in Hs. rewrite Hs. cbn [BankState_eqb andb].
  fold elapsed.
  assert (H1 : Qltb (t - last_activate_time bi) (tras (timing spec)) = false)
    by by apply Qltb_false.
  assert (H0 : Qltb 0 (current_time sm) = true) by by apply Qltb_true.
  rewrite H1, H0, andb_false_r. cbn [andb]. split.
  - intros Hlt%Qltb_true. by rewrite Hlt.
  - intros Hle%Qltb_false. rewrite Hle. cbn [negb]. by eauto.
Qed.

Section NonNegative.
Variable spec : MemorySpec.
Hypothesis Hspec : sensible_spec spec.

Lemma Qdiv_1000_nonneg (x : Q) : (0 <= x)%Q → (0 <= x / 1000)%Q.
Proof. intros H. apply Qle_shift_div_l; [done|]. lra. Qed.

Lemma Qmult_nonneg (x y : Q) : (0 <= x)%Q → (0 <= y)%Q → (0 <= x * y)%Q.
Proof. apply Qmult_le_0_compat. Qed.

Lemma Qsquare_nonneg (x : Q) : (0 <= x ^ 2)%Q.
Proof.
  change (x ^ 2)%Q with (x * x)%Q. nra.
Qed.

Lemma effective_burst_length_nonneg (bl : option Z) :
  (∀ b, bl = Some b → 0 <= b) → 0 <= effective_burst_length spec bl.
Proof.
  intros Hbl. unfold effective_burst_length, int_truthy.
  destruct bl as [b|]; [|apply Hspec].
  destruct (b =? 0); [apply Hspec|by apply Hbl].
Qed.

Lemma calculate_io_power_read_nonneg (bl : Z) (d v : Q) :
  0 <= bl → calculate_io_power_read spec bl d = Ok v → (0 <= v)%Q.
Proof.
  intros Hbl. unfold calculate_io_power_read.
  destruct (Qeq_bool _ _); [done|].
  destruct (float_pow _ _) as [v2|] eqn:Hv2; [|done].
  apply float_pow_Ok in Hv2 as [_ ->]. cbn [mbind res_bind].
  destruct (int_mul_float _ _) as [n|] eqn:Hn; [|done].
  apply int_mul_float_Ok in Hn as [_ ->]. cbn [mbind res_bind].
  intros [= <-].
  apply Qdiv_1000_nonneg, Qmult_nonneg.
  - apply Qmult_nonneg; [done|apply Qsquare_nonneg].
  - apply Qmult_nonneg; [|done].
    change 0%Q with (inject_Z 0). rewrite <- Zle_Qle.
    apply Z.mul_nonneg_nonneg; [done|apply Hspec].
Qed.

Lemma energy_term_nonneg (i v d : Q) :
  (0 <= i)%Q → (0 <= v)%Q → (0 <= d)%Q → (0 <= i * v * d / 1000)%Q.
Proof.
  intros Hi Hv Hd. apply Qdiv_1000_nonneg.
  by repeat apply Qmult_nonneg.
Qed.

Lemma calculate_termination_power_nonneg (d : Q) (is_read : bool) (v : Q) :
  (0 <= d)%Q → calculate_termination_power spec d is_read = Ok v → (0 <= v)%Q.
Proof.
  intros Hd. unfold calculate_termination_power.
  destruct (float_pow _ _) as [v2|] eqn:Hv2; [|done].
  apply float_pow_Ok in Hv2 as [_ ->]. cbn [mbind res_bind]. intros [= <-].
  apply Qdiv_1000_nonneg. apply Qmult_nonneg; [|by destruct is_read].
  apply Qmult_nonneg; [|done]. apply Qmult_nonneg; [|done].
  apply Qle_shift_div_l; [done|]. rewrite Qmult_0_l. apply Qsquare_nonneg.
Qed.

Lemma process_command_nonneg (kind : CommandType) (rank bank : Z)
    (now nx : Q) (row column bl : option Z) (pc pc' : PowerCalculator)
    (energy : Q) :
  (now <= nx)%Q →
  (∀ b, bl = Some b → 0 <= b) →
  counters_nonneg (result pc) →
  process_command spec kind rank bank now (Some nx) row column bl pc
  = Ok (pc', energy) →
  counters_nonneg (result pc').
Proof.
  intros Hle Hbl (Ha & Hr & Hw & Hp & Hf & Hba & Hbp & Hpd & Ht & Hio).
  destruct Hspec as (Hvdd & H2n & H2p & H3n & H3p & H5b & H0 & H4r & H4w
                     & Htck & Htras & Htrp & Htrfc & Htrfcpb & Hwidth & Habl).
  unfold process_command.
  set (d := if Qtruthy nx then (nx - now)%Q else tck (timing spec)).
  assert (Hd : (0 <= d)%Q) by (subst d; destruct (Qtruthy nx); lra).
  pose proof (effective_burst_length_nonneg bl Hbl) as Hebl.
  destruct kind.
  - intros [= <- <-]. unfold counters_nonneg. cbn. repeat split; try done.
    unfold calculate_activation_power.
    pose proof (energy_term_nonneg (idd0 (power spec) - idd3n (power spec))
                  (vdd (power spec)) (tras (timing spec))). lra.
  - unfold calculate_read_power.
    destruct (int_truthy _) as [b|] eqn:Hb.
    + assert (0 <= b).
      { revert Hb. cbn. destruct (_ =? 0); [done|]. by intros [= <-]. }
      destruct (calculate_io_power_read spec b d) as [v|] eqn:Hv; [|done].
      apply calculate_io_power_read_nonneg in Hv; [|done].
      cbn [mbind res_bind].
      destruct (calculate_termination_power _ _ _) as [w|] eqn:Hterm; [|done].
      apply calculate_termination_power_nonneg in Hterm; [|done].
      cbn [mbind res_bind]. intros [= <- <-]. unfold counters_nonneg. cbn.
      pose proof (energy_term_nonneg (idd4r (power spec) - idd3n (power spec))
                    (vdd (power spec)) d).
      repeat split; try done; lra.
    + cbn [mbind res_bind].
      destruct (calculate_termination_power _ _ _) as [w|] eqn:Hterm; [|done].
      apply calculate_termination_power_nonneg in Hterm; [|done].
      cbn [mbind res_bind]. intros [= <- <-]. unfold counters_nonneg. cbn.
      pose proof (energy_term_nonneg (idd4r (power spec) - idd3n (power spec))
                    (vdd (power spec)) d).
      repeat split; try done; lra.
  - unfold calculate_write_power, calculate_io_power_write.
    destruct (int_truthy _) as [b|] eqn:Hb.
    + assert (0 <= b).
      { revert Hb. cbn. destruct (_ =? 0); [done|]. by intros [= <-]. }
      destruct (calculate_io_power_read spec b d) as [v|] eqn:Hv; [|done].
      apply calculate_io_power_read_nonneg in Hv; [|done].
      cbn [mbind res_bind].
      destruct (calculate_termination_power _ _ _) as [w|] eqn:Hterm; [|done].
      apply calculate_termination_power_nonneg in Hterm; [|done].
      cbn [mbind res_bind]. intros [= <- <-]. unfold counters_nonneg. cbn.
      pose proof (energy_term_nonneg (idd4w (power spec) - idd3n (power spec))
                    (vdd (power spec)) d).
      repeat split; try done; lra.
    + cbn [mbind res_bind].
      destruct (calculate_termination_power _ _ _) as [w|] eqn:Hterm; [|done].
      apply calculate_termination_power_nonneg in Hterm; [|done].
      cbn [mbind res_bind]. intros [= <- <-]. unfold counters_nonneg. cbn.
      pose proof (energy_term_nonneg (idd4w (power spec) - idd3n (power spec))
                    (vdd (power spec)) d).
      repeat split; try done; lra.
  - intros [= <- <-]. unfold counters_nonneg. cbn. repeat split; try done.
    unfold calculate_precharge_power.
    pose proof (energy_term_nonneg (idd0 (power spec) - idd3n (power spec))
                  (vdd (power spec)) (trp (timing spec))). lra.
  - intros [= <- <-]. unfold counters_nonneg. cbn. repeat split; try done.
    unfold calculate_precharge_power.
    pose proof (energy_term_nonneg (idd0 (power spec) - idd3n (power spec))
                  (vdd (power spec)) (trp (timing spec))). lra.
  - intros [= <- <-]. unfold counters_nonneg. cbn. repeat split; try done.
    unfold calculate_refresh_power.
    pose proof (energy_term_nonneg (idd5b (power spec))
                  (vdd (power spec)) (trfc (timing spec))). lra.
  - intros [= <- <-]. unfold counters_nonneg. cbn. repeat split; try done.
    unfold calculate_refresh_power.
    destruct (trfcpb (timing spec)) as [v|] eqn:Hpb.
    + specialize (Htrfcpb v eq_refl).
      pose proof (energy_term_nonneg (idd5b (power spec))
                    (vdd (power spec)) v).
      pose proof (energy_term_nonneg (idd5b (power spec))
                    (vdd (power spec)) (trfc (timing spec))).
      destruct (Qtruthy v); lra.
    + pose proof (energy_term_nonneg (idd5b (power spec))
                    (vdd (power spec)) (trfc (timing spec))). lra.
  - by intros [= <- <-].
  - by intros [= <- <-].
  - by intros [= <- <-].
Qed.

Lemma share_nonneg (d : Q) (k : nat) (n : Z) :
  (0 <= d)%Q → 0 < n → (0 <= d * (inject_Z (Z.of_nat k) / inject_Z n))%Q.
Proof.
  intros Hd Hn. apply Qmult_nonneg; [done|].
  apply Qle_shift_div_l.
  - change 0%Q with (inject_Z 0). by rewrite <- Zlt_Qlt.
  - rewrite Qmult_0_l. change 0%Q with (inject_Z 0). rewrite <- Zle_Qle. lia.
Qed.

Lemma accumulate_background_power_nonneg (sm : DRAMStateMachine) (a b : Q)
    (pc : PowerCalculator) :
  counters_nonneg (result pc) →
  counters_nonneg (result (accumulate_background_power spec sm a b pc)).
Proof.
  intros (Ha & Hr & Hw & Hp & Hf & Hba & Hbp & Hpd & Ht & Hio).
  destruct Hspec as (Hvdd & H2n & H2p & H3n & H3p & _).
  unfold accumulate_background_power.
  destruct (Qleb (b - a) 0) eqn:Hd; [done|]. apply Qleb_false in Hd.
  assert (Hd0 : (0 <= b - a)%Q) by lra.
  rewrite count_bank_fold. unfold count_in_state.
  destruct (Z.ltb_spec 0 (nbr_of_ranks (architecture spec)
                          * nbr_of_banks (architecture spec))) as [Hn|Hn];
    unfold calculate_background_power, counters_nonneg; cbn;
    repeat split; try done.
  - pose proof (energy_term_nonneg _ _ _ H3n Hvdd
                  (share_nonneg _ (size (filter (λ kv : Z * Z * BankStateInfo,
                     BankState_eqb (state kv.2) ACTIVE) (banks sm))) _ Hd0 Hn)).
    pose proof (energy_term_nonneg _ _ _ H3p Hvdd
                  (share_nonneg _ (size (filter (λ kv : Z * Z * BankStateInfo,
                     BankState_eqb (state kv.2) ACTIVE_PDN) (banks sm))) _ Hd0 Hn)).
    lra.
  - pose proof (energy_term_nonneg _ _ _ H2n Hvdd
                  (share_nonneg _ (size (filter (λ kv : Z * Z * BankStateInfo,
                     BankState_eqb (state kv.2) IDLE) (banks sm))) _ Hd0 Hn)).
    pose proof (energy_term_nonneg _ _ _ H2p Hvdd
                  (share_nonneg _ (size (filter (λ kv : Z * Z * BankStateInfo,
                     BankState_eqb (state kv.2) PRE_PDN) (banks sm))) _ Hd0 Hn)).
    lra.
  - pose proof (energy_term_nonneg _ _ 0 H3n Hvdd ltac:(lra)).
    pose proof (energy_term_nonneg _ _ 0 H3p Hvdd ltac:(lra)). lra.
  - pose proof (energy_term_nonneg _ _ _ H2n Hvdd Hd0).
    pose proof (energy_term_nonneg _ _ 0 H2p Hvdd ltac:(lra)). lra.
Qed.

Lemma simulate_command_nonneg (cmd : Command) (next last : Q)
    (sim sim' : Simulator) :
  (inject_Z (timestamp cmd) * tck (timing spec) <= next)%Q →
  burst_length_ok cmd →
  counters_nonneg (result (power_calculator sim)) →
  simulate_command spec cmd next last sim = Ok sim' →
  counters_nonneg (result (power_calculator sim')).
Proof.
  intros Hnext Hbl Hsim. unfold simulate_command.
  destruct (int_mul_float _ _) as [now|] eqn:Hnow; [|done].
  apply int_mul_float_Ok in Hnow as [_ ->]. cbn [mbind res_bind].
  set (pc1 := if Qltb _ _ then _ else _).
  assert (Hpc1 : counters_nonneg (result pc1)).
  { subst pc1. destruct (Qltb _ _); [|done].
    by apply accumulate_background_power_nonneg. }
  destruct (_execute_command _ _ _ _ _) as [[sm2 [success error]]|]; [|done].
  cbn [mbind res_bind]. destruct success; cbn [negb]; [|by intros [= <-]].
  destruct (process_command _ _ _ _ _ _ _ _ _ _) as [[pc2 energy]|] eqn:Hpc;
    [|done].
  cbn [mbind res_bind]. intros [= <-].
  by apply process_command_nonneg in Hpc.
Qed.

Lemma simulate_loop_nonneg (cmds : list Command) :
  ∀ last sim sim' t,
  Sorted timestamp_le cmds →
  Forall burst_length_ok cmds →
  counters_nonneg (result (power_calculator sim)) →
  simulate_loop spec cmds last sim = Ok (sim', t) →
  counters_nonneg (result (power_calculator sim')).
Proof.
  induction cmds as [|cmd rest IH];
    intros last sim sim' t Hsorted Hbl Hsim Hrun.
  { revert Hrun. cbn [simulate_loop]. by intros [= <- <-]. }
  apply Sorted_inv in Hsorted as [Hsorted Hhd].
  apply Forall_cons in Hbl as [Hcmd Hbl].
  pose proof Hspec as (_ & _ & _ & _ & _ & _ & _ & _ & _ & Htck & _).
  assert (Hnext :
    (inject_Z (timestamp cmd) * tck (timing spec)
     <= match rest with
        | next :: _ => inject_Z (timestamp next) * tck (timing spec)
        | [] => inject_Z (timestamp cmd) * tck (timing spec) + tck (timing spec)
        end)%Q).
  { destruct Hhd as [|nx rest' Hle]; [lra|].
    apply Qmult_le_compat_r; [|done]. by rewrite <- Zle_Qle. }
  apply simulate_loop_cons_Ok in Hrun
    as [_ [(_ & -> & _)|(_ & sim1 & Hc & Hrest)]].
  - by apply accumulate_background_power_nonneg.
  - eapply IH; [done|done| |exact Hrest].
    by eapply simulate_command_nonneg.
Qed.

End NonNegative.

(** X22. For a sensible specification (non-negative voltage, currents,
    timings and sizes; activate, read and write currents not below active
    standby) and commands whose burst lengths are not negative, a run on a
    fresh simulator never reports a negative energy: the ten counters, the
    core, interface and total energies and the average power are all
    non-negative. *)
Theorem simulate_energy_nonnegative (spec : MemorySpec) (workload : Workload)
    (sim' : Simulator) (r : PowerResult) :
  sensible_spec spec →
  Forall burst_length_ok (commands workload) →
  simulate spec workload (Simulator_init spec) = Ok (sim', r) →
  counters_nonneg r
  ∧ (0 <= core_energy r)%Q ∧ (0 <= interface_energy r)%Q
  ∧ (0 <= total_energy r)%Q ∧ (0 <= average_power r)%Q.
Proof.
  intros Hspec Hbl Hrun.
  assert (Hinit : counters_nonneg (result (power_calculator (Simulator_init spec)))).
  { by repeat split. }
  destruct (commands workload) as [|c l] eqn:Hc.
  { unfold simulate in Hrun. rewrite Hc in Hrun. revert Hrun.
    intros [= <- <-]. by repeat split. }
  apply simulate_nonempty_inv in Hrun
    as (sim1 & t1 & t2 & Hl & -> & _); [|by rewrite Hc].
  apply simulate_loop_nonneg in Hl; try done.
  2:{ rewrite Hc. apply sorted_by_timestamp_sorted. }
  2:{ by rewrite Hc, sorted_by_timestamp_perm. }
  destruct (finalize_counters t2 (power_calculator sim1))
    as (E1 & E2 & E3 & E4 & E5 & E6 & E7 & E8 & E9 & E10).
  destruct (finalize_totals t2 (power_calculator sim1))
    as (Etot & Ecore & Eint & Etime).
  destruct Hl as (Ha & Hr & Hw & Hp & Hf & Hba & Hbp & Hpd & Ht & Hio).
  cbn zeta in *.
  set (rf := result (finalize t2 (power_calculator sim1))) in *.
  assert (Hcnt : counters_nonneg rf).
  { unfold counters_nonneg.
    rewrite E1, E2, E3, E4, E5, E6, E7, E8, E9, E10. by repeat split. }
  split; [done|].
  destruct Hcnt as (Ha' & Hr' & Hw' & Hp' & Hf' & Hba' & Hbp' & Hpd' & Ht' & Hio').
  assert (Hcore : (0 <= core_energy rf)%Q) by (rewrite Ecore; lra).
  assert (Hint : (0 <= interface_energy rf)%Q) by (rewrite Eint; lra).
  assert (Htot : (0 <= total_energy rf)%Q) by (rewrite Etot; lra).
  split; [done|]. split; [done|]. split; [done|].
  destruct (finalize_average_power t2 (power_calculator sim1))
    as [Hpos Hzero].
  fold rf in Hpos, Hzero.
  destruct (Qlt_le_dec 0 t2) as [Hlt|Hle].
  - rewrite (Hpos Hlt). apply Qmult_le_0_compat; [|done].
    apply Qle_shift_div_l; [done|]. by rewrite Qmult_0_l.
  - by rewrite (Hzero Hle).
Qed.

(** ** Instances on the test-suite device *)

Lemma simulate_open_row_invariant_witness :
  ∃ sim' r bi,
    simulate setUp_spec test_simple_workload (Simulator_init setUp_spec)
    = Ok (sim', r)
    ∧ banks (state_machine sim') !! (0, 0) = Some bi
    ∧ (state bi = IDLE ∨ state bi = ACTIVE)
    ∧ (is_Some (open_row bi) ↔ state bi = ACTIVE).
Proof.
  eexists _, _, _.
  match goal with |- ?P ∧ _ =>
    assert (H : P) by (vm_compute; reflexivity) end.
  split; [exact H|].
  match goal with |- ?P ∧ _ =>
    assert (Hb : P) by (vm_compute; reflexivity) end.
  split; [exact Hb|].
  exact (proj2 (simulate_open_row_invariant setUp_spec) _ _ _ _ _ H Hb).
Defined.

Lemma simulate_bank_keys_witness :
  ∃ simk t,
    simulate_loop setUp_spec (commands test_simple_workload) 0
      (Simulator_init setUp_spec) = Ok (simk, t)
    ∧ (execute_read setUp_spec 0 4 (state_machine simk) = Raise KeyError
       ↔ ¬ (0 <= 0 < 1 ∧ 0 <= 4 < 4)).
Proof.
  eexists _, _.
  match goal with |- ?P ∧ _ =>
    assert (H : P) by (vm_compute; reflexivity) end.
  split; [exact H|].
  exact (proj1 (proj2 (proj2 (simulate_bank_keys setUp_spec _ _ _ _ 0 4 0 H)))).
Defined.

Lemma execute_read_write_characterised_witness :
  banks (DRAMStateMachine_init setUp_spec) !! (0, 0) = Some BankStateInfo_default
  ∧ execute_read setUp_spec 0 0 (DRAMStateMachine_init setUp_spec)
    = Ok (DRAMStateMachine_init setUp_spec,
          (false, Some Bank_must_be_active_for_read)).
Proof.
  assert (H : banks (DRAMStateMachine_init setUp_spec) !! (0, 0)
              = Some BankStateInfo_default) by (vm_compute; reflexivity).
  split; [exact H|].
  destruct (execute_read_write_characterised setUp_spec _ 0 0 _ H)
    as (Hidle & _).
  apply Hidle. discriminate.
Defined.

Lemma execute_refresh_characterised_witness :
  ∃ sm',
    execute_refresh setUp_spec (DRAMStateMachine_init setUp_spec)
    = Ok (sm', (true, None))
    ∧ last_refresh_time sm' = 0%Q.
Proof.
  destruct (execute_refresh_characterised setUp_spec
              (DRAMStateMachine_init setUp_spec)) as [_ Hok].
  destruct Hok as (sm' & Hrun & Hlast & _); [by vm_compute|].
  exists sm'. split; [exact Hrun|exact Hlast].
Defined.

Lemma activate_twice_refused_witness :
  ∃ sm1,
    execute_activate setUp_spec 0 0 512 (DRAMStateMachine_init setUp_spec)
    = Ok (sm1, (true, None))
    ∧ execute_activate setUp_spec 0 0 7 (update_time 100 sm1)
      = Ok (update_time 100 sm1, (false, Some Bank_already_active)).
Proof.
  eexists.
  match goal with |- ?P ∧ _ =>
    assert (H : P) by (vm_compute; reflexivity) end.
  split; [exact H|].
  exact (activate_twice_refused setUp_spec _ _ 0 0 512 7 100 H).
Defined.

Lemma read_write_after_activate_witness :
  ∃ sm1 sm2,
    execute_activate setUp_spec 0 0 512 (DRAMStateMachine_init setUp_spec)
    = Ok (sm1, (true, None))
    ∧ (trcd (timing setUp_spec) <= 15 - 0)%Q
    ∧ execute_read setUp_spec 0 0 (update_time 15 sm1) = Ok (sm2, (true, None)).
Proof.
  assert (H : ∃ sm1,
    execute_activate setUp_spec 0 0 512 (DRAMStateMachine_init setUp_spec)
    = Ok (sm1, (true, None))) by (eexists; vm_compute; reflexivity).
  destruct H as [sm1 H].
  assert (Hle : (trcd (timing setUp_spec) <= 15 - 0)%Q) by by vm_compute.
  destruct (read_write_after_activate setUp_spec _ _ 0 0 512 15 H)
    as [_ Hok].
  destruct (Hok Hle) as [[sm2 Hr] _].
  exists sm1, sm2. split; [exact H|]. split; [exact Hle|exact Hr].
Defined.

Lemma precharge_after_activate_witness :
  ∃ sm1 sm2 bi2,
    banks (DRAMStateMachine_init setUp_spec) !! (0, 0)
    = Some BankStateInfo_default
    ∧ (last_write_time BankStateInfo_default <= 0)%Q
    ∧ (0 <= current_time (DRAMStateMachine_init setUp_spec))%Q
    ∧ execute_activate setUp_spec 0 0 512 (DRAMStateMachine_init setUp_spec)
      = Ok (sm1, (true, None))
    ∧ execute_precharge setUp_spec 0 0 (update_time 35 sm1)
      = Ok (sm2, (true, None))
    ∧ banks sm2 !! (0, 0) = Some bi2
    ∧ state bi2 = IDLE.
Proof.
  assert (Hb : banks (DRAMStateMachine_init setUp_spec) !! (0, 0)
               = Some BankStateInfo_default) by (vm_compute; reflexivity).
  assert (Hw : (last_write_time BankStateInfo_default <= 0)%Q) by by vm_compute.
  assert (Hn : (0 <= current_time (DRAMStateMachine_init setUp_spec))%Q)
    by by vm_compute.
  assert (H : ∃ sm1,
    execute_activate setUp_spec 0 0 512 (DRAMStateMachine_init setUp_spec)
    = Ok (sm1, (true, None))) by (eexists; vm_compute; reflexivity).
  destruct H as [sm1 H].
  destruct (precharge_after_activate setUp_spec _ _ 0 0 512 _ 35 Hb Hw Hn H)
    as [_ Hok].
  destruct Hok as (sm2 & bi2 & Hp & Hbi2 & Hs & _); [by vm_compute|].
  exists sm1, sm2, bi2. repeat split; assumption.
Defined.

Lemma bank_lists_partition_witness :
  ∃ simk t,
    simulate_loop setUp_spec
      [Command_init 0 ACT (Some 2) (Some 0) (Some 512) None] 0
      (Simulator_init setUp_spec) = Ok (simk, t)
    ∧ get_active_banks setUp_spec (state_machine simk) = [(0, 2)]
    ∧ get_active_banks setUp_spec (state_machine simk)
        ++ get_idle_banks setUp_spec (state_machine simk)
      ≡ₚ bank_keys setUp_spec.
Proof.
  eexists _, _.
  match goal with |- ?P ∧ _ =>
    assert (H : P) by (vm_compute; reflexivity) end.
  split; [exact H|]. split; [vm_compute; reflexivity|].
  exact (proj2 (proj2 (proj2 (proj2 (proj2
           (bank_lists_partition setUp_spec _ _ _ _ H)))))).
Defined.

Lemma process_command_conserves_energy_witness :
  ∃ pc' energy,
    process_command setUp_spec RD 0 0 15.6 (Some 46.8%Q)
      None None (Some 16) PowerCalculator_init = Ok (pc', energy)
    ∧ (total_breakdown (result pc')
       == total_breakdown (result PowerCalculator_init) + energy)%Q.
Proof.
  eexists _, _.
  match goal with |- ?P ∧ _ =>
    assert (H : P) by (vm_compute; reflexivity) end.
  split; [exact H|].
  exact (proj1 (process_command_conserves_energy _ _ _ _ _ _ _ _ _ _ _ _ H)).
Defined.

Lemma simulate_command_error_charges_nothing_witness :
  ∃ sim',
    simulate_command setUp_spec
      (Command_init 10 RD (Some 0) (Some 0) None None) 20 0
      (Simulator_init setUp_spec) = Ok sim'
    ∧ warnings sim' = []
    ∧ errors sim'
      = [Command_error RD 10 (Some Bank_must_be_active_for_read)].
Proof.
  eexists.
  match goal with |- ?P ∧ _ =>
    assert (H : P) by (vm_compute; reflexivity) end.
  split; [exact H|].
  split; [exact (proj1 (simulate_command_error_charges_nothing _ _ _ _ _ _ H))|].
  reflexivity.
Defined.

Lemma simulate_average_power_witness :
  ∃ sim' r,
    commands test_simple_workload ≠ []
    ∧ simulate setUp_spec test_simple_workload (Simulator_init setUp_spec)
      = Ok (sim', r)
    ∧ (0 < simulation_time r)%Q
    ∧ average_power r = (total_energy r / simulation_time r * 1000)%Q.
Proof.
  eexists _, _.
  assert (H0 : commands test_simple_workload ≠ []) by discriminate.
  split; [exact H0|].
  match goal with |- ?P ∧ _ =>
    assert (H : P) by (vm_compute; reflexivity) end.
  split; [exact H|].
  match goal with |- ?P ∧ _ => assert (Hpos : P) by by vm_compute end.
  split; [exact Hpos|].
  exact (proj1 (simulate_average_power _ _ _ _ _ H0 H) Hpos).
Defined.

(** A read with a clock period of zero, a read with an I/O voltage of
    1e200 V, and the read of the test suite. *)
Lemma process_command_raises_witness :
  process_command zero_tck_spec RD 0 0 0 (Some 0%Q) None None (Some 16)
    PowerCalculator_init = Raise ZeroDivisionError
  ∧ process_command huge_vddq_spec RD 0 0 15.6 (Some 46.8%Q) None None
      (Some 16) PowerCalculator_init = Raise OverflowError
  ∧ ∃ pc' energy,
      process_command setUp_spec RD 0 0 15.6 (Some 46.8%Q) None None (Some 16)
        PowerCalculator_init = Ok (pc', energy).
Proof.
  split; [|split].
  - apply (proj1 (process_command_raises zero_tck_spec RD 0 0 0 (Some 0%Q)
                    None None (Some 16) PowerCalculator_init)).
    split; [by left|]. split; by vm_compute.
  - apply (proj1 (proj2 (process_command_raises huge_vddq_spec RD 0 0 15.6
                           (Some 46.8%Q) None None (Some 16)
                           PowerCalculator_init))).
    + intros (_ & _ & Hz). by vm_compute in Hz.
    + split; [by left|]. left. split; [by vm_compute|]. left.
      intros Hfit. by vm_compute in Hfit.
  - apply (proj2 (proj2 (process_command_raises setUp_spec RD 0 0 15.6
                           (Some 46.8%Q) None None (Some 16)
                           PowerCalculator_init))).
    + intros (_ & _ & Hz). by vm_compute in Hz.
    + intros [_ [[_ [Hfit|Hfit]]|Hfit]]; apply Hfit; by vm_compute.
Defined.

(** The timing-violation trace of the test suite: the precharge 10 cycles
    after the activate is the one iteration whose dispatch fails. *)
Lemma simulate_errors_witness :
  ∃ sim' r log,
    simulate setUp_spec test_timing_violation_workload
      (Simulator_init setUp_spec) = Ok (sim', r)
    ∧ get_warnings sim' = []
    ∧ log.*1 = commands test_timing_violation_workload
    ∧ get_errors sim' = omap (dispatch_error setUp_spec) log
    ∧ get_errors sim'
      = [Command_error PRE 10 (Some (tRAS_violation 3.120000 32))].
Proof.
  assert (H : ∃ sim' r,
    simulate setUp_spec test_timing_violation_workload
      (Simulator_init setUp_spec) = Ok (sim', r)
    ∧ get_errors sim'
      = [Command_error PRE 10 (Some (tRAS_violation 3.120000 32))]).
  { eexists _, _. split; [vm_compute; reflexivity|reflexivity]. }
  destruct H as (sim' & r & H & Herr).
  destruct (simulate_errors _ _ _ _ _ H) as (Hw & _ & Hlog).
  destruct Hlog as (log & out & _ & Hcmds & Hdisp); [discriminate|].
  exists sim', r, log. split; [exact H|]. split; [exact Hw|].
  split; [exact Hcmds|]. split; [exact Hdisp|exact Herr].
Defined.

Lemma simulate_loop_stops_at_end_witness :
  let e := Command_init 5 END_OF_SIMULATION None None None None in
  let act := Command_init 9 ACT (Some 0) (Some 0) (Some 1) None in
  command e = END_OF_SIMULATION
  ∧ simulate_loop setUp_spec ([] ++ e :: [act]) 0 (Simulator_init setUp_spec)
    = simulate_loop setUp_spec ([] ++ [e]) 0 (Simulator_init setUp_spec).
Proof.
  intros e act. split; [reflexivity|].
  by apply simulate_loop_stops_at_end.
Defined.

Lemma simulate_simulation_time_witness :
  ∃ sim' r,
    commands test_simple_workload ≠ []
    ∧ simulate setUp_spec test_simple_workload (Simulator_init setUp_spec)
      = Ok (sim', r)
    ∧ (simulation_time r == 312)%Q.
Proof.
  eexists _, _.
  assert (H0 : commands test_simple_workload ≠ []) by discriminate.
  split; [exact H0|].
  match goal with |- ?P ∧ _ =>
    assert (H : P) by (vm_compute; reflexivity) end.
  split; [exact H|].
  destruct (simulate_simulation_time _ _ _ _ _
              (Command_init 0 ACT None None None None) H0 H)
    as (c & Hstop & Hpos & _).
  vm_compute in Hstop. injection Hstop as <-.
  rewrite Hpos; by vm_compute.
Defined.

(** The simple trace of the test suite, with its read. *)
Lemma simulate_returns_witness :
  ¬ (tck (timing setUp_spec) == 0)%Q
  ∧ Forall (well_addressed setUp_spec) (commands test_simple_workload)
  ∧ Forall (in_float_range setUp_spec) (commands test_simple_workload)
  ∧ ∃ sim' r,
      simulate setUp_spec test_simple_workload
        (Simulator_init setUp_spec) = Ok (sim', r).
Proof.
  assert (H1 : ¬ (tck (timing setUp_spec) == 0)%Q) by by vm_compute.
  assert (H2 : Forall (well_addressed setUp_spec)
                 (commands test_simple_workload)).
  { repeat constructor; unfold well_addressed, inside_geometry; cbn; lia. }
  assert (H3 : Forall (in_float_range setUp_spec)
                 (commands test_simple_workload)).
  { repeat constructor; by vm_compute. }
  split; [exact H1|]. split; [exact H2|]. split; [exact H3|].
  exact (simulate_returns _ _ H1 H2 H3).
Defined.

Lemma simulate_order_independent_witness :
  let a := Command_init 0 ACT (Some 0) (Some 0) (Some 512) None in
  let b := Command_init 50 RD (Some 0) (Some 0) None (Some 16) in
  (∀ t, filter (λ c, timestamp c = t) [b; a]
        = filter (λ c, timestamp c = t) [a; b])
  ∧ simulate setUp_spec {| commands := [b; a]; metadata := None |}
      (Simulator_init setUp_spec)
    = simulate setUp_spec {| commands := [a; b]; metadata := None |}
        (Simulator_init setUp_spec).
Proof.
  intros a b.
  assert (H : ∀ t, filter (λ c, timestamp c = t) [b; a]
                   = filter (λ c, timestamp c = t) [a; b]).
  { intros t. rewrite !filter_cons, !filter_nil. cbn.
    repeat case_decide; try done; lia. }
  split; [exact H|].
  exact (simulate_order_independent setUp_spec
           {| commands := [b; a]; metadata := None |}
           {| commands := [a; b]; metadata := None |} _ H).
Defined.

Lemma background_power_split_witness :
  ∃ simk t,
    simulate_loop setUp_spec
      [Command_init 0 ACT (Some 2) (Some 0) (Some 512) None] 0
      (Simulator_init setUp_spec) = Ok (simk, t)
    ∧ banks_in_state (state_machine simk) ACTIVE
      + banks_in_state (state_machine simk) IDLE = 1 * 4.
Proof.
  eexists _, _.
  match goal with |- ?P ∧ _ =>
    assert (H : P) by (vm_compute; reflexivity) end.
  split; [exact H|].
  assert (Hlt : (0 < 100)%Q) by done.
  exact (proj1 (proj2 (proj2
    (background_power_split setUp_spec _ _ _ _ 0 100 PowerCalculator_init H
       ltac:(done) ltac:(done) Hlt)))).
Defined.

Lemma refresh_closes_all_banks_witness :
  ∃ sm1 sm2,
    execute_activate setUp_spec 0 0 512 (DRAMStateMachine_init setUp_spec)
    = Ok (sm1, (true, None))
    ∧ execute_refresh setUp_spec sm1 = Ok (sm2, (true, None))
    ∧ get_active_banks setUp_spec sm2 = [].
Proof.
  eexists _, _.
  split; [vm_compute; reflexivity|].
  match goal with |- ?P ∧ _ =>
    assert (H : P) by (vm_compute; reflexivity) end.
  split; [exact H|].
  exact (proj1 (refresh_closes_all_banks setUp_spec _ _ 0 0 0 H)).
Defined.

Lemma reactivate_requires_tRC_witness :
  ∃ sm1 sm2,
    (0 < current_time (update_time 10 (DRAMStateMachine_init setUp_spec)))%Q
    ∧ execute_activate setUp_spec 0 0 512
        (update_time 10 (DRAMStateMachine_init setUp_spec))
      = Ok (sm1, (true, None))
    ∧ execute_precharge setUp_spec 0 0 (update_time 45 sm1)
      = Ok (sm2, (true, None))
    ∧ execute_activate setUp_spec 0 0 7 (update_time 50 sm2)
      = Ok (update_time 50 sm2,
            (false, Some (tRC_violation (50 - 10) (trc (timing setUp_spec))))).
Proof.
  eexists _, _.
  assert (H0 : (0 < current_time
                      (update_time 10 (DRAMStateMachine_init setUp_spec)))%Q)
    by done.
  split; [exact H0|].
  match goal with |- ?P ∧ _ =>
    assert (H1 : P) by (vm_compute; reflexivity) end.
  split; [exact H1|].
  match goal with |- ?P ∧ _ =>
    assert (H2 : P) by (vm_compute; reflexivity) end.
  split; [exact H2|].
  apply (proj1 (reactivate_requires_tRC setUp_spec _ _ _ 0 0 512 7 45 50
                  H0 H1 H2)).
  by vm_compute.
Defined.

Lemma precharge_after_write_requires_tWR_witness :
  ∃ sm1 sm bi sm2,
    execute_activate setUp_spec 0 0 512
      (update_time 10 (DRAMStateMachine_init setUp_spec))
    = Ok (sm1, (true, None))
    ∧ sm = update_time 40 sm1
    ∧ banks sm !! (0, 0) = Some bi
    ∧ (0 < current_time sm)%Q
    ∧ execute_write setUp_spec 0 0 sm = Ok (sm2, (true, None))
    ∧ (tras (timing setUp_spec) <= 50 - last_activate_time bi)%Q
    ∧ execute_precharge setUp_spec 0 0 (update_time 50 sm2)
      = Ok (update_time 50 sm2,
            (false, Some (tWR_violation (50 - 40) (twr (timing setUp_spec))))).
Proof.
  eexists _, _, _, _.
  split; [vm_compute; reflexivity|].
  split; [reflexivity|].
  match goal with |- ?P ∧ _ =>
    assert (Hb : P) by (vm_compute; reflexivity) end.
  split; [exact Hb|].
  match goal with |- ?P ∧ _ => assert (H0 : P) by done end.
  split; [exact H0|].
  match goal with |- ?P ∧ _ =>
    assert (Hw : P) by (vm_compute; reflexivity) end.
  split; [exact Hw|].
  match goal with |- ?P ∧ _ => assert (Hr : P) by by vm_compute end.
  split; [exact Hr|].
  apply (proj1 (precharge_after_write_requires_tWR setUp_spec _ _ 0 0 _ 50
                  Hb H0 Hw Hr)).
  by vm_compute.
Defined.

Lemma setUp_spec_sensible : sensible_spec setUp_spec.
Proof.
  unfold sensible_spec. repeat split; by vm_compute.
Qed.

Lemma simulate_energy_nonnegative_witness :
  ∃ sim' r,
    sensible_spec setUp_spec
    ∧ Forall burst_length_ok (commands test_simple_workload)
    ∧ simulate setUp_spec test_simple_workload (Simulator_init setUp_spec)
      = Ok (sim', r)
    ∧ (0 <= total_energy r)%Q.
Proof.
  eexists _, _.
  split; [exact setUp_spec_sensible|].
  assert (Hbl : Forall burst_length_ok (commands test_simple_workload)).
  { repeat constructor; intros b [= <-]; lia. }
  split; [exact Hbl|].
  match goal with |- ?P ∧ _ =>
    assert (H : P) by (vm_compute; reflexivity) end.
  split; [exact H|].
  exact (proj1 (proj2 (proj2 (proj2
    (simulate_energy_nonnegative _ _ _ _ setUp_spec_sensible Hbl H))))).
Defined.
